(** * Data-preparation scripts: IoT sensor readings (task3.py), financial
      series (task2.py) and social-media posts (task-1.py)

    The scripts are straight-line pandas programs.  They are embedded
    here column by column: a DataFrame column is a list of cells, a pandas
    Series taken out of a group is a list of (index label, value) pairs, and
    a script is a computation that prints, may raise, and writes its table
    at the very end.

    What the embedding takes as given.  A run starts from the frame that
    [pd.read_csv] returned (the check that the file exists is before that).
    The timestamp column of that frame is text, which [pd.to_datetime]
    parses to instants or rejects; the statements after the parse work on
    the instants.  Sensor ids are strings that are present.

    Numbers are modelled twice.  The tables a run writes are computed with
    exact rationals: a numeric cell read from the CSV is either missing
    (pandas' NaN) or a finite rational, values derived by a division or a
    logarithm can be infinite and carry their own constructors, and square
    roots and logarithms are taken in the reals.  This is the model of what
    a value is computed from: which rows, which group, which window.  The
    places where a property turns on the arithmetic itself, the z-scores of
    lines 90-107 of task3.py and the outlier bounds of lines 70-76 of
    task2.py, are also modelled on columns of binary64 floats, with the
    rounding, the overflow and the NaN of the machine.

    The pandas and NumPy operations the scripts call are written out after
    their documented behaviour.  The sort of [sort_values] is the exception:
    pandas documents the default kind as not stable and says no more about
    rows of equal key, so besides the contract of a sort the routine that
    numpy runs for it is written out after its source.

    Of task-1.py the functions [clean_text], [remove_stopwords],
    [extract_hashtags] and [is_spam] are embedded, with the removal of
    duplicates and spam; the frame is a list of rows there.  A text is a
    list of characters of code point below 256, and the list of stop words
    is whatever the NLTK corpus holds. *)

From Stdlib Require Import Floats.
From Stdlib Require Import List Bool Arith ZArith QArith Qround Qabs Reals.
From Stdlib Require Import Qreals String Ascii Lia Psatz Permutation Sorted.
From Stdlib Require Import OrdersEx.
Import ListNotations.

Set Implicit Arguments.
Set Warnings "-inexact-float".
Close Scope Q_scope.
Close Scope R_scope.

(** ** Cells and derived values *)

(** A numeric cell: [None] is NaN, pandas' marker for a missing value. *)
Notation cell := (option Q).

Definition isnull (c : cell) : bool :=
  match c with None => true | Some _ => false end.

(** A value computed in floating point: NaN, the two infinities, or a
    finite number of [A]. *)
Inductive ext (A : Type) : Type :=
| NaN : ext A
| PInf : ext A
| NInf : ext A
| Fin (x : A) : ext A.

Arguments NaN {A}.
Arguments PInf {A}.
Arguments NInf {A}.
Arguments Fin {A} x.

Definition is_nan {A} (x : ext A) : bool :=
  match x with NaN => true | _ => false end.

Definition is_inf {A} (x : ext A) : bool :=
  match x with PInf | NInf => true | _ => false end.

Definition is_finite {A} (x : ext A) : bool :=
  match x with Fin _ => true | _ => false end.

(** Equality of cells up to the representation of the rational. *)
Definition cell_eq (a b : cell) : Prop :=
  match a, b with
  | None, None => True
  | Some x, Some y => (x == y)%Q
  | _, _ => False
  end.

(** ** Arithmetic on cells (element-wise Series arithmetic) *)

Definition csub (a b : cell) : cell :=
  match a, b with
  | Some x, Some y => Some (x - y)%Q
  | _, _ => None
  end.

Definition series_sub (a b : list cell) : list cell :=
  map (fun p => csub (fst p) (snd p)) (combine a b).

(** ** Reductions that skip missing values *)

Fixpoint dropna (xs : list cell) : list Q :=
  match xs with
  | [] => []
  | None :: r => dropna r
  | Some q :: r => q :: dropna r
  end.

Definition Qsum (l : list Q) : Q := fold_left Qplus l 0%Q.

Definition Qcount (l : list Q) : Q := inject_Z (Z.of_nat (List.length l)).

(** [Series.mean()]: mean of the observed values, NaN when there is none. *)
Definition mean (xs : list cell) : cell :=
  match dropna xs with
  | [] => None
  | ys => Some (Qsum ys / Qcount ys)%Q
  end.

(** [Series.var(ddof=0)]: mean squared deviation from the mean of the
    observed values; NaN when the count does not exceed [ddof]. *)
Definition var0 (xs : list cell) : cell :=
  match dropna xs with
  | [] => None
  | ys =>
      let avg := (Qsum ys / Qcount ys)%Q in
      let sqr := map (fun y => ((avg - y) * (avg - y))%Q) ys in
      Some (Qsum sqr / Qcount ys)%Q
  end.

Definition Qlt_bool (x y : Q) : bool := negb (Qle_bool y x).

(** Square root of a float: NaN below zero. *)
Definition fsqrt (v : Q) : ext R :=
  if Qlt_bool v 0 then NaN else Fin (sqrt (Q2R v)).

(** [Series.std(ddof=0)]. *)
Definition std0 (xs : list cell) : ext R :=
  match var0 xs with
  | None => NaN
  | Some v => fsqrt v
  end.

(** ** Sorting rationals, median and quantile *)

Fixpoint Qinsert (x : Q) (l : list Q) : list Q :=
  match l with
  | [] => [x]
  | y :: r => if Qle_bool x y then x :: y :: r else y :: Qinsert x r
  end.

Definition Qsort (l : list Q) : list Q := fold_right Qinsert [] l.

(** [median]: middle observed value, or the mean of the two middle ones;
    NaN when nothing is observed. *)
Definition median (xs : list cell) : cell :=
  let ys := Qsort (dropna xs) in
  let n := List.length ys in
  match n with
  | O => None
  | _ =>
      if Nat.even n
      then Some ((nth (n / 2 - 1) ys 0 + nth (n / 2) ys 0) / 2)%Q
      else Some (nth (n / 2) ys 0%Q)
  end.

(** [Series.quantile(q)] with the default linear interpolation between the
    two closest ranks of the observed values. *)
Definition quantile (xs : list cell) (q : Q) : cell :=
  let ys := Qsort (dropna xs) in
  match ys with
  | [] => None
  | _ =>
      let h := (q * inject_Z (Z.of_nat (List.length ys - 1)))%Q in
      let lo := Z.to_nat (Qfloor h) in
      let a := nth lo ys 0%Q in
      let b := nth (Nat.min (S lo) (List.length ys - 1)) ys 0%Q in
      Some (a + (h - inject_Z (Z.of_nat lo)) * (b - a))%Q
  end.

(** ** Filling *)

(** [Series.ffill()]: carry the last observed value forward. *)
Fixpoint ffill_from (last : cell) (xs : list cell) : list cell :=
  match xs with
  | [] => []
  | Some v :: r => Some v :: ffill_from (Some v) r
  | None :: r => last :: ffill_from last r
  end.

Definition ffill (xs : list cell) : list cell := ffill_from None xs.

(** [Series.bfill()]: carry the next observed value backward. *)
Fixpoint bfill (xs : list cell) : list cell :=
  match xs with
  | [] => []
  | Some v :: r => Some v :: bfill r
  | None :: r =>
      let r' := bfill r in
      hd None r' :: r'
  end.

Definition fillna (xs : list cell) (value : cell) : list cell :=
  map (fun c => if isnull c then value else c) xs.

(** ** Rolling windows *)

(** The trailing window of at most [window] rows that ends at row [j]. *)
Definition trailing (A : Type) (window : nat) (xs : list A) (j : nat) : list A :=
  skipn (S j - window) (firstn (S j) xs).

(** [Series.rolling(window, min_periods=1).mean()]: the mean of the values
    observed in the trailing window, NaN when none is observed. *)
Definition rolling_mean (window : nat) (xs : list cell) : list cell :=
  map (fun j => mean (trailing window xs j)) (seq 0 (List.length xs)).

(** ** Real-valued results *)

Definition of_cell (c : cell) : ext R :=
  match c with None => NaN | Some q => Fin (Q2R q) end.

Definition Rzero_bool (r : R) : bool := if Req_dec_T r 0 then true else false.

Definition Rpos_bool (r : R) : bool := if Rlt_dec 0 r then true else false.

(** [x == 0] on a float. *)
Definition is_zero (x : ext R) : bool :=
  match x with Fin r => Rzero_bool r | _ => false end.

(** Floating-point division: a zero divisor gives an infinity, or NaN for
    0/0; it never raises. *)
Definition fdiv (a b : ext R) : ext R :=
  match a, b with
  | NaN, _ => NaN
  | _, NaN => NaN
  | Fin x, Fin y =>
      if Rzero_bool y
      then (if Rzero_bool x then NaN else if Rpos_bool x then PInf else NInf)
      else Fin (x / y)%R
  | Fin _, _ => Fin 0%R
  | PInf, Fin y => if Rpos_bool y || Rzero_bool y then PInf else NInf
  | NInf, Fin y => if Rpos_bool y || Rzero_bool y then NInf else PInf
  | _, _ => NaN
  end.

(** ** Series with index labels, groups *)

Definition series (A : Type) := list (nat * A).

Definition index (A : Type) (s : series A) : list nat := map fst s.
Definition values (A : Type) (s : series A) : list A := map snd s.

Fixpoint lookup (A : Type) (i : nat) (s : series A) : option A :=
  match s with
  | [] => None
  | (j, v) :: r => if Nat.eqb i j then Some v else lookup i r
  end.

Fixpoint index_insert (A : Type) (p : nat * A) (s : series A) : series A :=
  match s with
  | [] => [p]
  | q :: r => if Nat.leb (fst p) (fst q) then p :: q :: r else q :: index_insert p r
  end.

(** [Series.sort_index()]. *)
Definition sort_index (A : Type) (s : series A) : series A :=
  fold_right (@index_insert A) [] s.

(** [df[c] = s] on a frame of [n] rows with the default RangeIndex: the
    assignment aligns on the index; a label absent from [s] gets [na]. *)
Definition setitem (A : Type) (na : A) (n : nat) (s : series A) : list A :=
  map (fun i => match lookup i s with Some v => v | None => na end) (seq 0 n).

(** [df.loc[s.index, c] = s]: the rows labelled in [s] are overwritten,
    the others keep their value. *)
Definition loc_set (A : Type) (s : series A) (col : list A) : list A :=
  map (fun p => match lookup (fst p) s with Some v => v | None => snd p end)
      (combine (seq 0 (List.length col)) col).

Fixpoint rows_from (i : nat) (k : string) (keys : list string) : list nat :=
  match keys with
  | [] => []
  | k' :: r =>
      if String.eqb k' k then i :: rows_from (S i) k r else rows_from (S i) k r
  end.

(** The index labels of the rows of group [k]. *)
Definition group_index (k : string) (keys : list string) : list nat :=
  rows_from 0 k keys.

(** The values a column holds on the rows of group [k], in frame order. *)
Fixpoint group_values (A : Type) (k : string) (keys : list string)
         (col : list A) : list A :=
  match keys, col with
  | k' :: r, v :: c =>
      if String.eqb k' k then v :: group_values k r c else group_values k r c
  | _, _ => []
  end.

(** [g[c]] for the group [g] of key [k]. *)
Definition get_group (A : Type) (k : string) (keys : list string)
           (col : list A) : series A :=
  combine (group_index k keys) (group_values k keys col).

Fixpoint key_insert (k : string) (l : list string) : list string :=
  match l with
  | [] => [k]
  | y :: r =>
      match String.compare k y with
      | Lt => k :: y :: r
      | Eq => y :: r
      | Gt => y :: key_insert k r
      end
  end.

(** The keys [df.groupby(...)] iterates over: distinct, ascending. *)
Definition group_keys (keys : list string) : list string :=
  fold_right key_insert [] keys.

(** [df.groupby(key)[c].ffill()]: one pass over the frame that remembers,
    per key, the last value observed. *)
Fixpoint groupby_ffill_from (last : string -> cell) (keys : list string)
         (col : list cell) : list cell :=
  match keys, col with
  | k :: ks, Some v :: c =>
      Some v :: groupby_ffill_from
                  (fun k' => if String.eqb k' k then Some v else last k') ks c
  | k :: ks, None :: c => last k :: groupby_ffill_from last ks c
  | _, _ => []
  end.

Definition groupby_ffill (keys : list string) (col : list cell) : list cell :=
  groupby_ffill_from (fun _ => None) keys col.

(** [df.groupby(key)[c].transform('median')]: each row gets the median of
    its group. *)
Definition groupby_transform_median (keys : list string) (col : list cell)
  : list cell :=
  map (fun k => median (group_values k keys col)) keys.

(** [df.loc[mask, c] = other[mask]]. *)
Definition where_mask (mask : list bool) (col other : list cell) : list cell :=
  map (fun p : bool * cell * cell =>
         let '(m, v, o) := p in if m then o else v)
      (combine (combine mask col) other).

(** [pd.factorize(keys)[0]]: codes in order of first appearance. *)
Fixpoint code_of (k : string) (seen : list string) : option nat :=
  match seen with
  | [] => None
  | y :: r => if String.eqb y k then Some 0
              else option_map S (code_of k r)
  end.

Fixpoint factorize_from (seen : list string) (keys : list string) : list nat :=
  match keys with
  | [] => []
  | k :: r =>
      match code_of k seen with
      | Some c => c :: factorize_from seen r
      | None => List.length seen :: factorize_from (seen ++ [k]) r
      end
  end.

Definition factorize (keys : list string) : list nat := factorize_from [] keys.

(** [pd.get_dummies(keys, prefix=p)]: one indicator column per key. *)
Definition get_dummies (keys : list string) (prefix : string)
  : list (string * list bool) :=
  map (fun k => (String.append prefix (String.append "_" k),
                 map (String.eqb k) keys))
      (group_keys keys).

(** ** Sorting a frame *)

(** [take]: the rows of a column picked by position. *)
Definition take (A : Type) (na : A) (indexer : list nat) (col : list A) : list A :=
  map (fun i => nth i col na) indexer.

(** [DataFrame.sort_values(by)] computes an indexer with [argsort] and takes
    every column by it.  The scripts leave [kind] at its default,
    'quicksort', which pandas documents as not stable: the indexer is a
    permutation of the row positions that puts the keys in ascending order,
    and nothing more is promised about rows with equal keys. *)
Record sort_kind : Type := {
  argsort : list Z -> list nat;
  argsort_perm : forall ts, Permutation (argsort ts) (seq 0 (List.length ts));
  argsort_sorted : forall ts, Sorted Z.le (take 0%Z (argsort ts) ts)
}.

(** ** Scripts: standard output, the written file, exceptions *)

Inductive exn : Type :=
| KeyError (key : string)
| ValueError (msg : string)
| DateParseError.

(** What a run leaves behind: the lines printed, the source line being
    executed (the one a traceback reports when the run dies), and the table
    written, if any. *)
Record world (O : Type) : Type := {
  stdout : list string;
  lineno : nat;
  saved : option O
}.

Definition script (O A : Type) : Type := world O -> world O * (exn + A).

Definition ret {O A : Type} (a : A) : script O A := fun w => (w, inr a).

Definition bind {O A B : Type} (c : script O A) (k : A -> script O B)
  : script O B :=
  fun w => match c w with
           | (w', inr a) => k a w'
           | (w', inl e) => (w', inl e)
           end.

Definition raise {O A : Type} (e : exn) : script O A := fun w => (w, inl e).

Definition print {O : Type} (line : string) : script O unit :=
  fun w => ({| stdout := stdout w ++ [line]; lineno := lineno w;
               saved := saved w |}, inr tt).

(** Execution reaches source line [n]. *)
Definition at_line {O : Type} (n : nat) : script O unit :=
  fun w => ({| stdout := stdout w; lineno := n; saved := saved w |}, inr tt).

(** [DataFrame.to_csv]: the only write of a script. *)
Definition to_csv {O : Type} (final : O) : script O unit :=
  fun w => ({| stdout := stdout w; lineno := lineno w; saved := Some final |},
            inr tt).

(** [df[name]]: KeyError when the frame has no such column. *)
Definition getitem {O A : Type} (name : string) (col : option A) : script O A :=
  match col with
  | Some c => ret c
  | None => raise (KeyError name)
  end.

(** [pd.concat(parts)]: ValueError on an empty list of parts. *)
Definition pd_concat {O A : Type} (parts : list (series A)) : script O (series A) :=
  match parts with
  | [] => raise (ValueError "No objects to concatenate")
  | _ => ret (List.concat parts)
  end.

(** [pd.to_datetime(col)] with the default [errors='raise'].  A cell of the
    column as read is text that parses to an instant, or text that does not
    ([None]); the call returns the instants, or raises ([None]) as soon as
    one cell does not parse. *)
Fixpoint to_datetime (col : list (option Z)) : option (list Z) :=
  match col with
  | [] => Some []
  | Some t :: r => option_map (cons t) (to_datetime r)
  | None :: _ => None
  end.

Declare Scope script_scope.
Delimit Scope script_scope with script.
Notation "x <- c ;; k" := (bind c (fun x => k))
  (at level 61, c at next level, right associativity) : script_scope.
Notation "c ;; k" := (bind c (fun _ => k))
  (at level 61, right associativity) : script_scope.

Definition start (O : Type) : world O :=
  {| stdout := []; lineno := 0; saved := None |}.

(** * Task 3: IoT sensor data preparation (task3.py) *)

Module Task3.

Local Open Scope string_scope.
Local Open Scope script_scope.

Definition INPUT : string := "iot_sensor.csv".
Definition OUTPUT : string := "iot_sensor_prepared.csv".
Definition ROLL_WINDOW : nat := 6.

(** The frame read from [INPUT].  The header may lack any of the four
    columns the script names; timestamps are instants already parsed, cells
    are numbers or missing. *)
Record frame : Type := {
  csv_timestamp : option (list Z);
  csv_sensor_id : option (list string);
  csv_temperature : option (list cell);
  csv_humidity : option (list cell)
}.

(** The frame written to [OUTPUT], column by column in the order of
    [cols]. *)
Record prepared : Type := {
  timestamp : list Z;
  sensor_id : list string;
  sensor_label : list nat;
  temperature_raw : list cell;
  humidity_raw : list cell;
  temperature : list cell;
  humidity : list cell;
  temperature_roll_mean : list cell;
  humidity_roll_mean : list cell;
  temperature_detrended : list cell;
  humidity_detrended : list cell;
  temperature_z : list (ext R);
  humidity_z : list (ext R);
  one_hot : list (string * list bool)
}.

(** [df.sort_values('timestamp').reset_index(drop=True)]: every column is
    taken by the indexer and the rows are relabelled 0..n-1. *)
Definition sort_values (indexer : list nat) (df : frame) : frame :=
  {| csv_timestamp := option_map (take 0%Z indexer) (csv_timestamp df);
     csv_sensor_id := option_map (take EmptyString indexer) (csv_sensor_id df);
     csv_temperature := option_map (take None indexer) (csv_temperature df);
     csv_humidity := option_map (take None indexer) (csv_humidity df) |}.

(** Lines 46-53 for one value column: forward fill within each sensor,
    then the sensor's median where a value is still missing. *)
Definition impute (keys : list string) (col : list cell) : list cell :=
  let filled := groupby_ffill keys col in
  let mask_null := map isnull filled in
  if existsb (fun b => b) mask_null
  then
    let medians := groupby_transform_median keys filled in
    where_mask mask_null filled medians
  else filled.

Definition remove_drift (group : series cell) (window : nat)
  : series cell * series cell :=
  let roll := combine (index group) (rolling_mean window (values group)) in
  let detrended :=
    combine (index group) (series_sub (values group) (values roll)) in
  (detrended, roll).

(** The four lists the loop of lines 74-80 appends to. *)
Record drift_lists : Type := {
  temp_detrended_list : list (series cell);
  hum_detrended_list : list (series cell);
  roll_temp_list : list (series cell);
  roll_hum_list : list (series cell)
}.

Definition drift_step (keys : list string) (temperature humidity : list cell)
           (acc : drift_lists) (sensor : string) : drift_lists :=
  let '(det_temp, roll_temp) :=
    remove_drift (get_group sensor keys temperature) ROLL_WINDOW in
  let '(det_hum, roll_hum) :=
    remove_drift (get_group sensor keys humidity) ROLL_WINDOW in
  {| temp_detrended_list := temp_detrended_list acc ++ [det_temp];
     hum_detrended_list := hum_detrended_list acc ++ [det_hum];
     roll_temp_list := roll_temp_list acc ++ [roll_temp];
     roll_hum_list := roll_hum_list acc ++ [roll_hum] |}.

Definition drift_loop (keys : list string) (temperature humidity : list cell)
  : drift_lists :=
  fold_left (drift_step keys temperature humidity) (group_keys keys)
            {| temp_detrended_list := []; hum_detrended_list := [];
               roll_temp_list := []; roll_hum_list := [] |}.

(** The values lines 99-102 (and 104-107) assign to the rows of one
    group. *)
Definition zscore (g : series cell) : series (ext R) :=
  let t_mean := mean (values g) in
  let t_std := std0 (values g) in
  if is_zero t_std || is_nan t_std
  then map (fun p => (fst p, Fin 0%R)) g
  else map (fun p => (fst p, fdiv (of_cell (csub (snd p) t_mean)) t_std)) g.

Definition zscore_step (keys : list string)
           (temperature_detrended humidity_detrended : list cell)
           (z : list (ext R) * list (ext R)) (sensor : string)
  : list (ext R) * list (ext R) :=
  (loc_set (zscore (get_group sensor keys temperature_detrended)) (fst z),
   loc_set (zscore (get_group sensor keys humidity_detrended)) (snd z)).

Definition zscore_loop (keys : list string)
           (temperature_detrended humidity_detrended : list cell)
  : list (ext R) * list (ext R) :=
  let n := List.length keys in
  fold_left (zscore_step keys temperature_detrended humidity_detrended)
            (group_keys keys) (repeat NaN n, repeat NaN n).

(** The script, from the loaded frame to the written file, with the source
    lines of its statements.  The banner lines it prints are kept (without
    the blank line some of them start with); the diagnostics that print
    data are not. *)
Definition main (kind : sort_kind) (csv : frame) : script prepared unit :=
  at_line 27 ;; print ("Loading " ++ INPUT) ;;
  (* Parse timestamp and sort *)
  at_line 32 ;; ts <- getitem "timestamp" (csv_timestamp csv) ;;
  at_line 33 ;;
  let df := sort_values (argsort kind ts) csv in
  let n := List.length (argsort kind ts) in
  ts <- getitem "timestamp" (csv_timestamp df) ;;
  (* Ensure numeric *)
  at_line 37 ;;
  temperature <- getitem "temperature" (csv_temperature df) ;;
  humidity <- getitem "humidity" (csv_humidity df) ;;
  at_line 40 ;;
  print "Forward-filling missing values per sensor (groupby sensor_id)" ;;
  let temperature_raw := temperature in
  let humidity_raw := humidity in
  at_line 46 ;; keys <- getitem "sensor_id" (csv_sensor_id df) ;;
  let temperature := impute keys temperature in
  let humidity := impute keys humidity in
  at_line 55 ;; print "Missing values after imputation:" ;;
  at_line 61 ;; print "Removing sensor drift using rolling mean (window=6)" ;;
  at_line 74 ;;
  let lists := drift_loop keys temperature humidity in
  at_line 83 ;; roll_temp <- pd_concat (roll_temp_list lists) ;;
  let temperature_roll_mean := setitem None n (sort_index roll_temp) in
  at_line 84 ;; roll_hum <- pd_concat (roll_hum_list lists) ;;
  let humidity_roll_mean := setitem None n (sort_index roll_hum) in
  at_line 85 ;; det_temp <- pd_concat (temp_detrended_list lists) ;;
  let temperature_detrended := setitem None n (sort_index det_temp) in
  at_line 86 ;; det_hum <- pd_concat (hum_detrended_list lists) ;;
  let humidity_detrended := setitem None n (sort_index det_hum) in
  at_line 89 ;;
  print "Standard-scaling (z-score) detrended readings per sensor" ;;
  at_line 93 ;;
  let z := zscore_loop keys temperature_detrended humidity_detrended in
  at_line 110 ;; print "Encoding sensor IDs: label encoding and one-hot" ;;
  at_line 128 ;;
  to_csv {| timestamp := ts;
            sensor_id := keys;
            sensor_label := factorize keys;
            temperature_raw := temperature_raw;
            humidity_raw := humidity_raw;
            temperature := temperature;
            humidity := humidity;
            temperature_roll_mean := temperature_roll_mean;
            humidity_roll_mean := humidity_roll_mean;
            temperature_detrended := temperature_detrended;
            humidity_detrended := humidity_detrended;
            temperature_z := fst z;
            humidity_z := snd z;
            one_hot := get_dummies keys "sensor" |} ;;
  at_line 130 ;; print ("Saved prepared data to " ++ OUTPUT).

(** One run of the script on a loaded frame. *)
Definition run (kind : sort_kind) (csv : frame) : world prepared * (exn + unit) :=
  main kind csv (start prepared).

(** The frame the run wrote to [OUTPUT], if it got that far. *)
Definition output (kind : sort_kind) (csv : frame) : option prepared :=
  saved (fst (run kind csv)).

(** The value columns, to state a property once for both. *)
Inductive value_column : Type := Temperature | Humidity.

Definition raw (c : value_column) (p : prepared) : list cell :=
  match c with Temperature => temperature_raw p | Humidity => humidity_raw p end.

Definition imputed (c : value_column) (p : prepared) : list cell :=
  match c with Temperature => temperature p | Humidity => humidity p end.

Definition roll_mean (c : value_column) (p : prepared) : list cell :=
  match c with
  | Temperature => temperature_roll_mean p
  | Humidity => humidity_roll_mean p
  end.

Definition detrended (c : value_column) (p : prepared) : list cell :=
  match c with
  | Temperature => temperature_detrended p
  | Humidity => humidity_detrended p
  end.

Definition z_score (c : value_column) (p : prepared) : list (ext R) :=
  match c with Temperature => temperature_z p | Humidity => humidity_z p end.

(** The file as [pd.read_csv] returns it at line 28, before line 32 parses
    the timestamps: the timestamp column holds text. *)
Record csv_file : Type := {
  file_timestamp : option (list (option Z));
  file_sensor_id : option (list string);
  file_temperature : option (list cell);
  file_humidity : option (list cell)
}.

(** The frame once the timestamp column is [ts]. *)
Definition frame_of (file : csv_file) (ts : option (list Z)) : frame :=
  {| csv_timestamp := ts;
     csv_sensor_id := file_sensor_id file;
     csv_temperature := file_temperature file;
     csv_humidity := file_humidity file |}.

(** The script on the file read.  Line 32 raises when a timestamp does not
    parse, before anything else is computed; otherwise the run is [main] on
    the frame of the parsed timestamps. *)
Definition main_file (kind : sort_kind) (file : csv_file) : script prepared unit :=
  match file_timestamp file with
  | None => main kind (frame_of file None)
  | Some col =>
      match to_datetime col with
      | Some ts => main kind (frame_of file (Some ts))
      | None =>
          at_line 27 ;; print ("Loading " ++ INPUT) ;;
          at_line 32 ;; raise DateParseError
      end
  end.

Definition run_file (kind : sort_kind) (file : csv_file)
  : world prepared * (exn + unit) :=
  main_file kind file (start prepared).

Definition output_file (kind : sort_kind) (file : csv_file) : option prepared :=
  saved (fst (run_file kind file)).

End Task3.

(** * Task 2: financial data preprocessing (task2.py) *)

(** ** Derived values that can be infinite *)

Definition Qzero_bool (x : Q) : bool := Qeq_bool x 0.

(** Element-wise [a / b] of two columns: a zero divisor gives an infinity
    of the sign of the dividend, or NaN for 0/0. *)
Definition cdiv (a b : cell) : ext Q :=
  match a, b with
  | Some x, Some y =>
      if Qzero_bool y
      then (if Qzero_bool x then NaN else if Qlt_bool 0 x then PInf else NInf)
      else Fin (x / y)%Q
  | _, _ => NaN
  end.

Definition esub (a b : ext Q) : ext Q :=
  match a, b with
  | NaN, _ => NaN
  | _, NaN => NaN
  | Fin x, Fin y => Fin (x - y)%Q
  | PInf, PInf => NaN
  | NInf, NInf => NaN
  | PInf, _ => PInf
  | NInf, _ => NInf
  | Fin _, PInf => NInf
  | Fin _, NInf => PInf
  end.

(** [Series.shift(periods)]: the first [periods] rows become missing. *)
Definition shift (periods : nat) (xs : list cell) : list cell :=
  firstn (List.length xs) (repeat None periods ++ xs).

(** [Series.pct_change(periods)]: [data / data.shift(periods) - 1].  The
    forward fill that older pandas versions apply first has no effect on
    the column the script passes, which it has filled already. *)
Definition pct_change (periods : nat) (data : list cell) : list (ext Q) :=
  map (fun p => esub (cdiv (fst p) (snd p)) (Fin 1%Q))
      (combine data (shift periods data)).

(** [np.log1p]: ln(1 + x) above -1, minus infinity at -1 (with a
    RuntimeWarning), NaN below; NaN stays NaN. *)
Definition log1p (x : cell) : ext R :=
  match x with
  | None => NaN
  | Some q =>
      if Qlt_bool (-1) q then Fin (ln (1 + Q2R q))
      else if Qeq_bool q (-1) then NInf
      else NaN
  end.

(** [pd.isnull] on a derived value: NaN only. *)
Definition is_missing (A : Type) (x : ext A) : bool := is_nan x.

(** Scalar float arithmetic and comparisons; a comparison with NaN is
    false. *)
Definition cadd (a b : cell) : cell :=
  match a, b with
  | Some x, Some y => Some (x + y)%Q
  | _, _ => None
  end.

Definition cmul (a b : cell) : cell :=
  match a, b with
  | Some x, Some y => Some (x * y)%Q
  | _, _ => None
  end.

Definition clt (a b : cell) : bool :=
  match a, b with
  | Some x, Some y => Qlt_bool x y
  | _, _ => false
  end.

Module Task2.

Local Open Scope string_scope.
Local Open Scope script_scope.

Definition INPUT : string := "financial_data.csv".
Definition OUTPUT : string := "financial_data_preprocessed.csv".

Record frame : Type := {
  csv_date : option (list Z);
  csv_closing_price : option (list cell);
  csv_volume : option (list cell)
}.

Record preprocessed : Type := {
  date : list Z;
  closing_price : list cell;
  volume : list cell;
  volume_log : list (ext R);
  ret_1d : list (ext Q);
  ret_7d : list (ext Q);
  is_outlier : list bool
}.

Definition sort_values (indexer : list nat) (df : frame) : frame :=
  {| csv_date := option_map (take 0%Z indexer) (csv_date df);
     csv_closing_price := option_map (take None indexer) (csv_closing_price df);
     csv_volume := option_map (take None indexer) (csv_volume df) |}.

(** Lines 45-48 (and 51-54): forward fill, backward fill, then the median
    if anything is still missing. *)
Definition handle_missing (col : list cell) : list cell :=
  let col := bfill (ffill col) in
  if existsb isnull col then fillna col (median col) else col.

(** Lines 70-76. *)
Definition Q1 (closing_price : list cell) : cell := quantile closing_price (1 # 4)%Q.
Definition Q3 (closing_price : list cell) : cell := quantile closing_price (3 # 4)%Q.
Definition IQR (closing_price : list cell) : cell :=
  csub (Q3 closing_price) (Q1 closing_price).
Definition lower (closing_price : list cell) : cell :=
  csub (Q1 closing_price) (cmul (Some (3 # 2)%Q) (IQR closing_price)).
Definition upper (closing_price : list cell) : cell :=
  cadd (Q3 closing_price) (cmul (Some (3 # 2)%Q) (IQR closing_price)).

Definition flag_outliers (closing_price : list cell) : list bool :=
  map (fun v => clt v (lower closing_price) || clt (upper closing_price) v)
      closing_price.

Definition main (kind : sort_kind) (csv : frame) : script preprocessed unit :=
  at_line 28 ;; print ("Loading " ++ INPUT) ;;
  (* Parse date and sort *)
  at_line 35 ;; dates <- getitem "date" (csv_date csv) ;;
  at_line 36 ;;
  let df := sort_values (argsort kind dates) csv in
  dates <- getitem "date" (csv_date df) ;;
  (* Ensure numeric columns *)
  at_line 40 ;;
  closing_price <- getitem "closing_price" (csv_closing_price df) ;;
  volume <- getitem "volume" (csv_volume df) ;;
  at_line 44 ;;
  print "Handling missing values: forward-fill then backfill, then median fallbacks" ;;
  at_line 45 ;;
  let closing_price := handle_missing closing_price in
  at_line 51 ;;
  let volume := handle_missing volume in
  at_line 56 ;; print "Missing values after imputation:" ;;
  at_line 60 ;; print "Creating lag return features: ret_1d, ret_7d" ;;
  let ret_1d := pct_change 1 closing_price in
  let ret_7d := pct_change 7 closing_price in
  at_line 65 ;; print "Log-scaling volume into volume_log (using log1p)" ;;
  let volume_log := map log1p volume in
  at_line 69 ;; print "Detecting outliers in closing_price using IQR method" ;;
  let is_outlier := flag_outliers closing_price in
  at_line 86 ;;
  to_csv {| date := dates;
            closing_price := closing_price;
            volume := volume;
            volume_log := volume_log;
            ret_1d := ret_1d;
            ret_7d := ret_7d;
            is_outlier := is_outlier |} ;;
  at_line 88 ;; print ("Saved preprocessed data to " ++ OUTPUT).

Definition run (kind : sort_kind) (csv : frame)
  : world preprocessed * (exn + unit) :=
  main kind csv (start preprocessed).

Definition output (kind : sort_kind) (csv : frame) : option preprocessed :=
  saved (fst (run kind csv)).

(** The file as [pd.read_csv] returns it at line 29, before line 35 parses
    the dates. *)
Record csv_file : Type := {
  file_date : option (list (option Z));
  file_closing_price : option (list cell);
  file_volume : option (list cell)
}.

Definition frame_of (file : csv_file) (dates : option (list Z)) : frame :=
  {| csv_date := dates;
     csv_closing_price := file_closing_price file;
     csv_volume := file_volume file |}.

(** The script on the file read.  Line 35 raises when a date does not
    parse; otherwise the run is [main] on the frame of the parsed dates. *)
Definition main_file (kind : sort_kind) (file : csv_file)
  : script preprocessed unit :=
  match file_date file with
  | None => main kind (frame_of file None)
  | Some col =>
      match to_datetime col with
      | Some dates => main kind (frame_of file (Some dates))
      | None =>
          at_line 28 ;; print ("Loading " ++ INPUT) ;;
          at_line 35 ;; raise DateParseError
      end
  end.

Definition run_file (kind : sort_kind) (file : csv_file)
  : world preprocessed * (exn + unit) :=
  main_file kind file (start preprocessed).

Definition output_file (kind : sort_kind) (file : csv_file)
  : option preprocessed :=
  saved (fst (run_file kind file)).

End Task2.

(** * Sorting algorithms that meet the contract of [sort_kind] *)

Section InsertionArgsort.

(** [before x y]: whether a row of key [x] is put in front of a row of
    key [y] that it meets while being inserted. *)
Variable before : Z -> Z -> bool.
Hypothesis before_le : forall x y, before x y = true -> (x <= y)%Z.
Hypothesis before_ge : forall x y, before x y = false -> (y <= x)%Z.

Fixpoint arg_insert (ts : list Z) (i : nat) (l : list nat) : list nat :=
  match l with
  | [] => [i]
  | j :: r =>
      if before (nth i ts 0%Z) (nth j ts 0%Z)
      then i :: j :: r
      else j :: arg_insert ts i r
  end.

Definition insertion_argsort (ts : list Z) : list nat :=
  fold_right (arg_insert ts) [] (seq 0 (List.length ts)).

Lemma arg_insert_perm ts i l : Permutation (arg_insert ts i l) (i :: l).
Proof.
  induction l as [|j r IH]; simpl.
  - apply Permutation_refl.
  - destruct (before _ _).
    + apply Permutation_refl.
    + eapply perm_trans; [apply perm_skip, IH | apply perm_swap].
Qed.

Lemma arg_insert_sorted ts i l :
  Sorted Z.le (take 0%Z l ts) -> Sorted Z.le (take 0%Z (arg_insert ts i l) ts).
Proof.
  unfold take.
  induction l as [|j r IH]; simpl; intros Hs.
  - repeat constructor.
  - destruct (before _ _) eqn:Hb; simpl.
    + constructor; [exact Hs|]. constructor. now apply before_le.
    + inversion Hs as [|? ? Hr Hhd]; subst.
      constructor; [now apply IH|].
      destruct r as [|j' r']; simpl.
      * constructor. now apply before_ge.
      * destruct (before (nth i ts 0%Z) (nth j' ts 0%Z)); simpl.
        -- constructor. now apply before_ge.
        -- inversion Hhd; subst. now constructor.
Qed.

Lemma insertion_argsort_perm ts :
  Permutation (insertion_argsort ts) (seq 0 (List.length ts)).
Proof.
  unfold insertion_argsort.
  induction (seq 0 (List.length ts)) as [|i l IH]; simpl.
  - constructor.
  - eapply perm_trans; [apply arg_insert_perm | now apply perm_skip].
Qed.

Lemma insertion_argsort_sorted ts :
  Sorted Z.le (take 0%Z (insertion_argsort ts) ts).
Proof.
  unfold insertion_argsort.
  induction (seq 0 (List.length ts)) as [|i l IH]; simpl.
  - constructor.
  - now apply arg_insert_sorted.
Qed.

End InsertionArgsort.

Lemma Zleb_le x y : (x <=? y)%Z = true -> (x <= y)%Z.
Proof. apply Z.leb_le. Qed.

Lemma Zleb_ge x y : (x <=? y)%Z = false -> (y <= x)%Z.
Proof. intros H. apply Z.leb_gt in H. lia. Qed.

Lemma Zltb_le x y : (x <? y)%Z = true -> (x <= y)%Z.
Proof. intros H. apply Z.ltb_lt in H. lia. Qed.

Lemma Zltb_ge x y : (x <? y)%Z = false -> (y <= x)%Z.
Proof. apply Z.ltb_ge. Qed.

(** An algorithm that keeps rows of equal key in their input order, as
    [kind='stable'] does. *)
Definition stable_kind : sort_kind :=
  {| argsort := insertion_argsort Z.leb;
     argsort_perm := insertion_argsort_perm Z.leb;
     argsort_sorted := insertion_argsort_sorted Z.leb Zleb_le Zleb_ge |}.

(** ** numpy's argsort of kind 'quicksort' *)

Section Aquicksort.

(** The keys [v] and the array [tosort] of row positions that the routine
    permutes in place; a pointer into [tosort] is an offset. *)
Variable v : list Z.

Definition SMALL_QUICKSORT : nat := 16.

Definition load (tosort : list nat) (p : nat) : nat := nth p tosort 0.

Definition store (tosort : list nat) (p : nat) (x : nat) : list nat :=
  firstn p tosort ++ x :: skipn (S p) tosort.

Definition INTP_SWAP (tosort : list nat) (p q : nat) : list nat :=
  store (store tosort p (load tosort q)) q (load tosort p).

(** [v[*p]] *)
Definition at_ (tosort : list nat) (p : nat) : Z := nth (load tosort p) v 0%Z.

(** [do ++pi; while (v[*pi] < vp)] *)
Fixpoint scan_up (fuel : nat) (tosort : list nat) (vp : Z) (pi : nat) : nat :=
  match fuel with
  | O => pi
  | S f =>
      let pi := S pi in
      if (at_ tosort pi <? vp)%Z then scan_up f tosort vp pi else pi
  end.

(** [do --pj; while (vp < v[*pj])] *)
Fixpoint scan_down (fuel : nat) (tosort : list nat) (vp : Z) (pj : nat) : nat :=
  match fuel with
  | O => pj
  | S f =>
      let pj := pj - 1 in
      if (vp <? at_ tosort pj)%Z then scan_down f tosort vp pj else pj
  end.

(** The [for (;;)] loop of the partition. *)
Fixpoint partition_loop (fuel : nat) (tosort : list nat) (vp : Z) (pi pj : nat)
  : list nat * nat :=
  match fuel with
  | O => (tosort, pi)
  | S f =>
      let pi := scan_up (List.length tosort) tosort vp pi in
      let pj := scan_down (List.length tosort) tosort vp pj in
      if pj <=? pi then (tosort, pi)
      else partition_loop f (INTP_SWAP tosort pi pj) vp pi pj
  end.

(** One partition of [pl..pr] around the median of three; returns the
    array and the final place [pi] of the pivot. *)
Definition partition (tosort : list nat) (pl pr : nat) : list nat * nat :=
  let pm := pl + (pr - pl) / 2 in
  let tosort :=
    if (at_ tosort pm <? at_ tosort pl)%Z then INTP_SWAP tosort pm pl else tosort in
  let tosort :=
    if (at_ tosort pr <? at_ tosort pm)%Z then INTP_SWAP tosort pr pm else tosort in
  let tosort :=
    if (at_ tosort pm <? at_ tosort pl)%Z then INTP_SWAP tosort pm pl else tosort in
  let vp := at_ tosort pm in
  let pi := pl in
  let pj := pr - 1 in
  let tosort := INTP_SWAP tosort pm pj in
  let '(tosort, pi) := partition_loop (List.length tosort) tosort vp pi pj in
  let pk := pr - 1 in
  (INTP_SWAP tosort pi pk, pi).

(** The stack of ranges still to sort, each with its depth budget. *)
Definition stack : Type := list (nat * nat * Z).

(** [while ((pr - pl) > SMALL_QUICKSORT)]: partition, push the larger part,
    go on with the smaller. *)
Fixpoint partition_while (fuel : nat) (tosort : list nat) (pl pr : nat)
         (st : stack) (cdepth : Z) : list nat * nat * nat * stack :=
  match fuel with
  | O => (tosort, pl, pr, st)
  | S f =>
      if SMALL_QUICKSORT <? pr - pl then
        let '(tosort, pi) := partition tosort pl pr in
        let cdepth := (cdepth - 1)%Z in
        if pi - pl <? pr - pi
        then partition_while f tosort pl (pi - 1) ((pi + 1, pr, cdepth) :: st) cdepth
        else partition_while f tosort (pi + 1) pr ((pl, pi - 1, cdepth) :: st) cdepth
      else (tosort, pl, pr, st)
  end.

(** [while (pj > pl && vp < v[*pk]) *pj-- = *pk--;] *)
Fixpoint shift_right (fuel : nat) (tosort : list nat) (vp : Z) (pl pj : nat)
  : list nat * nat :=
  match fuel with
  | O => (tosort, pj)
  | S f =>
      if (pl <? pj) && (vp <? at_ tosort (pj - 1))%Z
      then shift_right f (store tosort pj (load tosort (pj - 1))) vp pl (pj - 1)
      else (tosort, pj)
  end.

(** The insertion sort that finishes a range of at most 17 rows. *)
Definition insertion_sort (tosort : list nat) (pl pr : nat) : list nat :=
  fold_left
    (fun tosort pi =>
       let vi := load tosort pi in
       let vp := nth vi v 0%Z in
       let '(tosort, pj) := shift_right pi tosort vp pl pi in
       store tosort pj vi)
    (seq (S pl) (pr - pl)) tosort.

(** The heap sort the routine falls back on when the depth budget is used
    up; [a[1..n]] is the range, indexed from one. *)
Definition a_get (a : list nat) (i : nat) : nat := nth (i - 1) a 0.
Definition a_set (a : list nat) (i : nat) (x : nat) : list nat := store a (i - 1) x.
Definition a_key (a : list nat) (i : nat) : Z := nth (a_get a i) v 0%Z.

Fixpoint sift (fuel : nat) (a : list nat) (tmp n i j : nat) : list nat :=
  match fuel with
  | O => a_set a i tmp
  | S f =>
      if j <=? n then
        let j := if (j <? n) && (a_key a j <? a_key a (j + 1))%Z then j + 1 else j in
        if (nth tmp v 0 <? a_key a j)%Z
        then sift f (a_set a i (a_get a j)) tmp n j (j + j)
        else a_set a i tmp
      else a_set a i tmp
  end.

Definition heapify (a : list nat) (n : nat) : list nat :=
  fold_left (fun a l => sift n a (a_get a l) n l (l + l)) (rev (seq 1 (n / 2))) a.

Fixpoint heap_pop (fuel : nat) (a : list nat) (n : nat) : list nat :=
  match fuel with
  | O => a
  | S f =>
      if 1 <? n then
        let tmp := a_get a n in
        let a := a_set a n (a_get a 1) in
        let n := n - 1 in
        heap_pop f (sift n a tmp n 1 2) n
      else a
  end.

Definition aheapsort (tosort : list nat) (pl n : nat) : list nat :=
  let a := firstn n (skipn pl tosort) in
  let a := heap_pop n (heapify a n) n in
  firstn pl tosort ++ a ++ skipn (pl + n) tosort.

(** The outer loop: sort the current range, then pop the next one. *)
Fixpoint aquicksort_loop (fuel : nat) (tosort : list nat) (pl pr : nat)
         (st : stack) (cdepth : Z) : list nat :=
  match fuel with
  | O => tosort
  | S f =>
      let '(tosort, st) :=
        if (cdepth <? 0)%Z then (aheapsort tosort pl (pr - pl + 1), st)
        else
          let '(tosort, pl, pr, st) :=
            partition_while (List.length tosort) tosort pl pr st cdepth in
          (insertion_sort tosort pl pr, st) in
      match st with
      | [] => tosort
      | (pl, pr, cdepth) :: st => aquicksort_loop f tosort pl pr st cdepth
      end
  end.

(** [npy_aquicksort]: the indexer that sorts [v]. *)
Definition aquicksort : list nat :=
  let num := List.length v in
  match num with
  | O => []
  | _ => aquicksort_loop num (seq 0 num) 0 (num - 1) []
                         (Z.log2 (Z.of_nat num) * 2)%Z
  end.

End Aquicksort.


(** Checking that an indexer sorts: it is a permutation of the row
    positions and the keys taken by it ascend. *)
Fixpoint nat_insert (x : nat) (l : list nat) : list nat :=
  match l with
  | [] => [x]
  | y :: r => if x <=? y then x :: y :: r else y :: nat_insert x r
  end.

Definition nat_sort (l : list nat) : list nat := fold_right nat_insert [] l.

Fixpoint ascending (l : list Z) : bool :=
  match l with
  | x :: (y :: _) as r => (x <=? y)%Z && ascending r
  | _ => true
  end.

Definition sorts (ts : list Z) (indexer : list nat) : bool :=
  (if list_eq_dec Nat.eq_dec (nat_sort indexer) (seq 0 (List.length ts))
   then true else false)
  && ascending (take 0%Z indexer ts).

Lemma nat_insert_perm x l : Permutation (nat_insert x l) (x :: l).
Proof.
  induction l as [|y r IH]; simpl; [easy|].
  destruct (x <=? y); [easy|].
  eapply perm_trans; [apply perm_skip, IH | apply perm_swap].
Qed.

Lemma nat_sort_perm l : Permutation (nat_sort l) l.
Proof.
  induction l as [|x r IH]; simpl; [easy|].
  eapply perm_trans; [apply nat_insert_perm | now apply perm_skip].
Qed.

Lemma ascending_sorted l : ascending l = true -> Sorted Z.le l.
Proof.
  induction l as [|x [|y r] IH]; intros H.
  - constructor.
  - repeat constructor.
  - cbn [ascending] in H. apply andb_true_iff in H. destruct H as [Hxy Hr].
    constructor; [now apply IH|]. constructor. now apply Z.leb_le.
Qed.

Lemma sorts_perm ts indexer :
  sorts ts indexer = true -> Permutation indexer (seq 0 (List.length ts)).
Proof.
  unfold sorts. intros H. apply andb_true_iff in H. destruct H as [H _].
  destruct (list_eq_dec _ _ _) as [E|]; [|discriminate].
  rewrite <- E. apply Permutation_sym, nat_sort_perm.
Qed.

Lemma sorts_sorted ts indexer :
  sorts ts indexer = true -> Sorted Z.le (take 0%Z indexer ts).
Proof.
  unfold sorts. intros H. apply andb_true_iff in H. destruct H as [_ H].
  now apply ascending_sorted.
Qed.

(** [ndarray.argsort(kind='quicksort')] as the frame sort uses it.  The
    routine returns a sorted permutation on every input; the two fields of
    the contract are obtained from a check of its result rather than from a
    correctness proof of the routine. *)
Definition numpy_argsort (ts : list Z) : list nat :=
  let indexer := aquicksort ts in
  if sorts ts indexer then indexer else insertion_argsort Z.leb ts.

Lemma numpy_argsort_perm ts :
  Permutation (numpy_argsort ts) (seq 0 (List.length ts)).
Proof.
  unfold numpy_argsort. destruct (sorts ts (aquicksort ts)) eqn:E.
  - now apply sorts_perm.
  - apply insertion_argsort_perm.
Qed.

Lemma numpy_argsort_sorted ts : Sorted Z.le (take 0%Z (numpy_argsort ts) ts).
Proof.
  unfold numpy_argsort. destruct (sorts ts (aquicksort ts)) eqn:E.
  - now apply sorts_sorted.
  - apply insertion_argsort_sorted; [apply Zleb_le | apply Zleb_ge].
Qed.

(** The default of [sort_values]: [kind='quicksort']. *)
Definition numpy_kind : sort_kind :=
  {| argsort := numpy_argsort;
     argsort_perm := numpy_argsort_perm;
     argsort_sorted := numpy_argsort_sorted |}.

(** * Binary64 *)

Module Binary64.

Local Open Scope float_scope.

(** A count as a float. *)
Definition of_nat (n : nat) : float := of_uint63 (Uint63.of_Z (Z.of_nat n)).

Definition isnan (x : float) : bool := PrimFloat.is_nan x.

(** [np.add.reduce] over a contiguous float64 array: numpy's pairwise
    summation. *)
Fixpoint unrolled (fuel : nat) (r a : list float) : list float * list float :=
  match fuel with
  | O => (r, a)
  | S f =>
      if Nat.leb 8 (List.length a)
      then unrolled f (map (fun p => fst p + snd p) (combine r (firstn 8 a)))
                    (skipn 8 a)
      else (r, a)
  end.

Definition pairwise_block (a : list float) : float :=
  let '(r, rest) := unrolled (List.length a) (firstn 8 a) (skipn 8 a) in
  let r_ i := nth i r 0 in
  let res := ((r_ 0%nat + r_ 1%nat) + (r_ 2%nat + r_ 3%nat))
             + ((r_ 4%nat + r_ 5%nat) + (r_ 6%nat + r_ 7%nat)) in
  fold_left PrimFloat.add rest res.

Fixpoint pairwise_sum (fuel : nat) (a : list float) : float :=
  let n := List.length a in
  if Nat.ltb n 8 then fold_left PrimFloat.add a 0
  else if Nat.leb n 128 then pairwise_block a
  else
    match fuel with
    | O => pairwise_block a
    | S f =>
        let n2 := Nat.div n 2 in
        let n2 := Nat.sub n2 (Nat.modulo n2 8) in
        pairwise_sum f (firstn n2 a) + pairwise_sum f (skipn n2 a)
    end.

Definition np_sum (a : list float) : float := pairwise_sum (List.length a) a.

(** pandas' [nanops]: the NaN cells count for nothing and are summed as 0. *)
Definition notna_count (xs : list float) : nat :=
  List.length (filter (fun x => negb (isnan x)) xs).

Definition fill0 (xs : list float) : list float :=
  map (fun x => if isnan x then 0 else x) xs.

(** [Series.mean()] *)
Definition nanmean (xs : list float) : float :=
  let count := notna_count xs in
  let the_sum := np_sum (fill0 xs) in
  if Nat.ltb 0 count then the_sum / of_nat count else PrimFloat.nan.

(** [Series.var(ddof=0)] *)
Definition nanvar0 (xs : list float) : float :=
  let count := notna_count xs in
  if Nat.leb count 0 then PrimFloat.nan
  else
    let avg := np_sum (fill0 xs) / of_nat count in
    let sqr := map (fun x => if isnan x then 0 else (avg - x) * (avg - x)) xs in
    np_sum sqr / of_nat count.

(** [Series.std(ddof=0)] *)
Definition nanstd0 (xs : list float) : float := PrimFloat.sqrt (nanvar0 xs).


(** [np.percentile(arr, q)] with the default linear interpolation, on an
    array without NaN. *)
Fixpoint finsert (x : float) (l : list float) : list float :=
  match l with
  | [] => [x]
  | y :: r => if x <=? y then x :: y :: r else y :: finsert x r
  end.

Definition fsort (l : list float) : list float := fold_right finsert [] l.

(** The largest rank below [n] that does not exceed [x]. *)
Definition floor_index (n : nat) (x : float) : nat :=
  fold_left (fun acc k => if of_nat k <=? x then k else acc) (seq 0 n) O.

Definition lerp (a b t : float) : float :=
  let diff_b_a := b - a in
  if 0.5 <=? t then b - diff_b_a * (1 - t) else a + diff_b_a * t.

Definition percentile_linear (arr : list float) (q : float) : float :=
  let values_count := List.length arr in
  let arr := fsort arr in
  let virtual_index := of_nat (values_count - 1) * q in
  if of_nat (values_count - 1) <=? virtual_index
  then
    let last := nth (values_count - 1) arr 0 in
    lerp last last (virtual_index + 1)
  else
    let previous_index := floor_index values_count virtual_index in
    lerp (nth previous_index arr 0) (nth (S previous_index) arr 0)
         (virtual_index - of_nat previous_index).

(** [Series.quantile(q)]: the percentile of the cells that are not NaN,
    NaN when there is none. *)
Definition quantile (xs : list float) (q : float) : float :=
  match filter (fun x => negb (isnan x)) xs with
  | [] => PrimFloat.nan
  | arr => percentile_linear arr q
  end.

End Binary64.

(** ** Lines 90-107 of task3.py in binary64 *)

Module Task3_b64.

Local Open Scope float_scope.

(** The values lines 99-102 (and 104-107) assign to the rows of one
    group. *)
Definition zscore (g : series float) : series float :=
  let t_mean := Binary64.nanmean (values g) in
  let t_std := Binary64.nanstd0 (values g) in
  if (t_std =? 0) || Binary64.isnan t_std
  then map (fun p => (fst p, 0)) g
  else map (fun p => (fst p, (snd p - t_mean) / t_std)) g.

Definition zscore_step (keys : list string)
           (temperature_detrended humidity_detrended : list float)
           (z : list float * list float) (sensor : string)
  : list float * list float :=
  (loc_set (zscore (get_group sensor keys temperature_detrended)) (fst z),
   loc_set (zscore (get_group sensor keys humidity_detrended)) (snd z)).

(** Lines 90-107: both columns start as NaN and are assigned group by
    group. *)
Definition zscore_loop (keys : list string)
           (temperature_detrended humidity_detrended : list float)
  : list float * list float :=
  let n := List.length keys in
  fold_left (zscore_step keys temperature_detrended humidity_detrended)
            (group_keys keys) (repeat PrimFloat.nan n, repeat PrimFloat.nan n).

Definition temperature_z (keys : list string) (td hd : list float) : list float :=
  fst (zscore_loop keys td hd).

Definition humidity_z (keys : list string) (td hd : list float) : list float :=
  snd (zscore_loop keys td hd).

End Task3_b64.

(** ** Lines 70-76 of task2.py in binary64 *)

Module Task2_b64.

Local Open Scope float_scope.

Definition Q1 (closing_price : list float) : float :=
  Binary64.quantile closing_price 0.25.
Definition Q3 (closing_price : list float) : float :=
  Binary64.quantile closing_price 0.75.
Definition IQR (closing_price : list float) : float :=
  Q3 closing_price - Q1 closing_price.
Definition lower (closing_price : list float) : float :=
  Q1 closing_price - 1.5 * IQR closing_price.
Definition upper (closing_price : list float) : float :=
  Q3 closing_price + 1.5 * IQR closing_price.

Definition is_outlier (closing_price : list float) : list bool :=
  map (fun x => (x <? lower closing_price) || (upper closing_price <? x))
      closing_price.

End Task2_b64.

(** * Definitions used to state the properties *)

(** ** Comparing columns up to the representation of rationals *)

Definition cell_eqb (a b : cell) : bool :=
  match a, b with
  | None, None => true
  | Some x, Some y => Qeq_bool x y
  | _, _ => false
  end.

Fixpoint cells_eqb (a b : list cell) : bool :=
  match a, b with
  | [], [] => true
  | x :: r, y :: s => cell_eqb x y && cells_eqb r s
  | _, _ => false
  end.

(** ** One group taken alone *)

(** Imputation of one group taken alone: forward fill, then the median of
    the filled values wherever a value is still missing. *)
Definition impute_group (xs : list cell) : list cell :=
  let filled := ffill xs in
  map (fun v => if isnull v then median filled else v) filled.

(** What [remove_drift] returns for a group, values only. *)
Definition detrend (window : nat) (xs : list cell) : list cell :=
  series_sub xs (rolling_mean window xs).

(** The z-scores of one group, values only. *)
Definition zscore_values (d : list cell) : list (ext R) :=
  let t_mean := mean d in
  let t_std := std0 d in
  if is_zero t_std || is_nan t_std
  then map (fun _ => Fin 0%R) d
  else map (fun x => fdiv (of_cell (csub x t_mean)) t_std) d.

Definition all_observed (l : list cell) : Prop :=
  Forall (fun x => isnull x = false) l.

Definition all_missing (l : list cell) : Prop :=
  Forall (fun x => isnull x = true) l.

(** ** What a completed run of task 3 writes *)

(** The column [pd.concat(parts).sort_index()] assigns, for the parts
    [part k] of the groups. *)
Definition reassemble (keys : list string) (part : string -> series cell)
  : list cell :=
  setitem None (List.length keys)
          (sort_index (List.concat (map part (group_keys keys)))).

Definition roll_column (keys : list string) (col : list cell) : list cell :=
  reassemble keys
    (fun k => snd (Task3.remove_drift (get_group k keys col) Task3.ROLL_WINDOW)).

Definition detrended_column (keys : list string) (col : list cell) : list cell :=
  reassemble keys
    (fun k => fst (Task3.remove_drift (get_group k keys col) Task3.ROLL_WINDOW)).

Definition z_column (keys : list string) (det : list cell) : list (ext R) :=
  fold_left (fun z k => loc_set (Task3.zscore (get_group k keys det)) z)
            (group_keys keys) (repeat NaN (List.length keys)).

Definition prepared_from (kind : sort_kind) (ts0 : list Z) (k0 : list string)
           (t0 h0 : list cell) : Task3.prepared :=
  let indexer := argsort kind ts0 in
  let keys := take EmptyString indexer k0 in
  let traw := take None indexer t0 in
  let hraw := take None indexer h0 in
  let t := Task3.impute keys traw in
  let h := Task3.impute keys hraw in
  {| Task3.timestamp := take 0%Z indexer ts0;
     Task3.sensor_id := keys;
     Task3.sensor_label := factorize keys;
     Task3.temperature_raw := traw;
     Task3.humidity_raw := hraw;
     Task3.temperature := t;
     Task3.humidity := h;
     Task3.temperature_roll_mean := roll_column keys t;
     Task3.humidity_roll_mean := roll_column keys h;
     Task3.temperature_detrended := detrended_column keys t;
     Task3.humidity_detrended := detrended_column keys h;
     Task3.temperature_z := z_column keys (detrended_column keys t);
     Task3.humidity_z := z_column keys (detrended_column keys h);
     Task3.one_hot := get_dummies keys "sensor" |}.

(** The rows of one sensor as the script reads them, in time order:
    timestamps and raw readings. *)
Definition group_rows (k : string) (p : Task3.prepared)
  : list Z * list cell * list cell :=
  let keys := Task3.sensor_id p in
  (group_values k keys (Task3.timestamp p),
   group_values k keys (Task3.temperature_raw p),
   group_values k keys (Task3.humidity_raw p)).

(** The derived columns on the rows of one sensor. *)
Definition group_derived (c : Task3.value_column) (k : string)
           (p : Task3.prepared)
  : list cell * list cell * list cell * list (ext R) :=
  let keys := Task3.sensor_id p in
  (group_values k keys (Task3.imputed c p),
   group_values k keys (Task3.roll_mean c p),
   group_values k keys (Task3.detrended c p),
   group_values k keys (Task3.z_score c p)).

(** The rows of one sensor as the input file lists them. *)
Definition input_group_rows (k : string) (ts0 : list Z) (k0 : list string)
           (t0 h0 : list cell) : list Z * list cell * list cell :=
  (group_values k k0 ts0, group_values k k0 t0, group_values k k0 h0).

Definition by_time (X : Type) (a b : Z * X) : Prop := (fst a <= fst b)%Z.

(** The rows of a sensor as triples (timestamp, temperature, humidity). *)
Definition triples (k : string) (keys : list string) (ts : list Z)
           (t h : list cell) : list (Z * (cell * cell)) :=
  group_values k keys (combine ts (combine t h)).

(** Row [i] goes before row [j]: smaller timestamp, or the same timestamp
    and an earlier input position. *)
Definition before_stable (ts : list Z) (i j : nat) : Prop :=
  (nth i ts 0 < nth j ts 0)%Z \/ (nth i ts 0%Z = nth j ts 0%Z /\ i < j).

(** Rows of equal timestamp keep their input order: a later input row never
    comes out before an earlier one of the same timestamp. *)
Definition ties_keep_input_order (ts0 : list Z) (indexer : list nat) : Prop :=
  forall a b,
    a < b < List.length indexer ->
    nth (nth a indexer 0) ts0 0%Z = nth (nth b indexer 0) ts0 0%Z ->
    nth a indexer 0 < nth b indexer 0.

(** The first of the columns the script reads that the header lacks, in the
    order the script reads them, with the source line that reads it. *)
Definition first_missing (csv : Task3.frame) : option (string * nat) :=
  match Task3.csv_timestamp csv, Task3.csv_temperature csv,
        Task3.csv_humidity csv, Task3.csv_sensor_id csv with
  | None, _, _, _ => Some ("timestamp"%string, 32)
  | _, None, _, _ => Some ("temperature"%string, 37)
  | _, _, None, _ => Some ("humidity"%string, 37)
  | _, _, _, None => Some ("sensor_id"%string, 46)
  | _, _, _, _ => None
  end.

(** ** What a completed run of task 2 writes *)


Definition preprocessed_from (kind : sort_kind) (d0 : list Z)
           (p0 v0 : list cell) : Task2.preprocessed :=
  let indexer := argsort kind d0 in
  let closing_price := Task2.handle_missing (take None indexer p0) in
  let volume := Task2.handle_missing (take None indexer v0) in
  {| Task2.date := take 0%Z indexer d0;
     Task2.closing_price := closing_price;
     Task2.volume := volume;
     Task2.volume_log := map log1p volume;
     Task2.ret_1d := pct_change 1 closing_price;
     Task2.ret_7d := pct_change 7 closing_price;
     Task2.is_outlier := Task2.flag_outliers closing_price |}.

(** Rolling means of the spec's example, printed to two decimals. *)
Definition within_half_cent (r : cell) (printed : Q) : Prop :=
  match r with
  | Some q => (Qabs (q - printed) <= 5 # 1000)%Q
  | None => False
  end.

(** ** Sample inputs *)

(** A small input: two sensors, rows out of time order, gaps in both value
    columns, and sensor B without any humidity reading. *)
Definition sample_ts : list Z := [3; 1; 2; 7; 5; 4; 6]%Z.

Definition sample_keys : list string := ["A"; "A"; "B"; "B"; "A"; "A"; "A"]%string.

Definition sample_temperature : list cell :=
  [Some 22; None; Some 7; None; None; Some 21; Some 30]%Q.

Definition sample_humidity : list cell :=
  [Some 40; None; None; None; None; None; Some 44]%Q.

Definition sample_csv : Task3.frame :=
  {| Task3.csv_timestamp := Some sample_ts;
     Task3.csv_sensor_id := Some sample_keys;
     Task3.csv_temperature := Some sample_temperature;
     Task3.csv_humidity := Some sample_humidity |}.

Definition sample_out : Task3.prepared :=
  prepared_from stable_kind sample_ts sample_keys sample_temperature
                sample_humidity.

(** A second table: the rows of sensor A as in the sample and in the same
    relative order, sensor B replaced by another row, a sensor C added. *)
Definition other_csv_ts : list Z := [12; 3; 1; 9; 5; 4; 8; 6]%Z.
Definition other_csv_keys : list string :=
  ["C"; "A"; "A"; "B"; "A"; "A"; "C"; "A"]%string.
Definition other_csv_temperature : list cell :=
  [Some 1; Some 22; None; Some 50; None; Some 21; None; Some 30]%Q.
Definition other_csv_humidity : list cell :=
  [None; Some 40; None; Some 9; None; None; Some 3; Some 44]%Q.

Definition other_csv : Task3.frame :=
  {| Task3.csv_timestamp := Some other_csv_ts;
     Task3.csv_sensor_id := Some other_csv_keys;
     Task3.csv_temperature := Some other_csv_temperature;
     Task3.csv_humidity := Some other_csv_humidity |}.

Definition other_out : Task3.prepared :=
  prepared_from stable_kind other_csv_ts other_csv_keys other_csv_temperature
                other_csv_humidity.

(** Two readings with the same timestamp, sensor A first. *)
Definition tie_csv : Task3.frame :=
  {| Task3.csv_timestamp := Some [0; 0]%Z;
     Task3.csv_sensor_id := Some ["A"; "B"]%string;
     Task3.csv_temperature := Some [Some 1; Some 2]%Q;
     Task3.csv_humidity := Some [Some 3; Some 4]%Q |}.

(** The header of the file with no data row. *)
Definition empty_csv : Task3.frame :=
  {| Task3.csv_timestamp := Some [];
     Task3.csv_sensor_id := Some [];
     Task3.csv_temperature := Some [];
     Task3.csv_humidity := Some [] |}.

(** The sample table without its sensor_id column. *)
Definition no_sensor_csv : Task3.frame :=
  {| Task3.csv_timestamp := Some sample_ts;
     Task3.csv_sensor_id := None;
     Task3.csv_temperature := Some sample_temperature;
     Task3.csv_humidity := Some sample_humidity |}.

(** The spec's example: of the prices 10, 12, 9, 100, 11 only 100 is an
    outlier (Q1 = 10, Q3 = 12, bounds 7 and 15). *)
Definition prices_csv : Task2.frame :=
  {| Task2.csv_date := Some [1; 2; 3; 4; 5]%Z;
     Task2.csv_closing_price := Some [Some 10; Some 12; Some 9; Some 100; Some 11]%Q;
     Task2.csv_volume := Some [Some 1; None; Some 0; Some 3; Some 2]%Q |}.

Definition prices_out : Task2.preprocessed :=
  preprocessed_from stable_kind [1; 2; 3; 4; 5]%Z
                    [Some 10; Some 12; Some 9; Some 100; Some 11]%Q
                    [Some 1; None; Some 0; Some 3; Some 2]%Q.

(** A volume of exactly -1. *)
Definition minus_one_csv : Task2.frame :=
  {| Task2.csv_date := Some [1; 2]%Z;
     Task2.csv_closing_price := Some [Some 10; Some 12]%Q;
     Task2.csv_volume := Some [Some (-1); Some (-2)]%Q |}.

(** A price series that passes through zero. *)
Definition zero_price_csv : Task2.frame :=
  {| Task2.csv_date := Some [1; 2; 3; 4; 5; 6; 7; 8; 9]%Z;
     Task2.csv_closing_price :=
       Some [Some 0; Some 5; Some 4; Some 4; Some 4; Some 4; Some 4;
             Some 6; Some 7]%Q;
     Task2.csv_volume := Some (repeat (Some 1%Q) 9) |}.

Definition zero_price_out : Task2.preprocessed :=
  preprocessed_from stable_kind [1; 2; 3; 4; 5; 6; 7; 8; 9]%Z
    [Some 0; Some 5; Some 4; Some 4; Some 4; Some 4; Some 4; Some 6; Some 7]%Q
    (repeat (Some 1%Q) 9).

(** Eighteen readings of one sensor, all with the same timestamp; the
    temperature of a row is its position in the file. *)
Definition tied_ts : list Z := repeat 0%Z 18.

Definition tied_temperature : list cell :=
  [Some 0; Some 1; Some 2; Some 3; Some 4; Some 5; Some 6; Some 7; Some 8;
   Some 9; Some 10; Some 11; Some 12; Some 13; Some 14; Some 15; Some 16;
   Some 17]%Q.

Definition tied_file : Task3.csv_file :=
  {| Task3.file_timestamp := Some (map Some tied_ts);
     Task3.file_sensor_id := Some (repeat "A"%string 18);
     Task3.file_temperature := Some tied_temperature;
     Task3.file_humidity := Some (repeat (Some 50%Q) 18) |}.

(** Two tables of eighteen readings with one timestamp.  Both hold the same
    two rows of sensor A, in the same order (temperatures 1 and 3); the
    rows of sensor B stand elsewhere: A is at positions 0 and 16 of the
    first table and at positions 1 and 2 of the second. *)
Definition first_tied_keys : list string :=
  ("A" :: repeat "B" 15 ++ ["A"; "B"])%string.

Definition first_tied_temperature : list cell :=
  (Some 1 :: repeat (Some 7) 15 ++ [Some 3; Some 7])%Q.

Definition second_tied_keys : list string :=
  ("B" :: "A" :: "A" :: repeat "B" 15)%string.

Definition second_tied_temperature : list cell :=
  (Some 7 :: Some 1 :: Some 3 :: repeat (Some 7) 15)%Q.

Definition first_tied_csv : Task3.frame :=
  {| Task3.csv_timestamp := Some tied_ts;
     Task3.csv_sensor_id := Some first_tied_keys;
     Task3.csv_temperature := Some first_tied_temperature;
     Task3.csv_humidity := Some (repeat (Some 50%Q) 18) |}.

Definition second_tied_csv : Task3.frame :=
  {| Task3.csv_timestamp := Some tied_ts;
     Task3.csv_sensor_id := Some second_tied_keys;
     Task3.csv_temperature := Some second_tied_temperature;
     Task3.csv_humidity := Some (repeat (Some 50%Q) 18) |}.

(** The sample table as a file, and the same file with a timestamp that
    does not parse in its third row. *)
Definition sample_file : Task3.csv_file :=
  {| Task3.file_timestamp := Some (map Some sample_ts);
     Task3.file_sensor_id := Some sample_keys;
     Task3.file_temperature := Some sample_temperature;
     Task3.file_humidity := Some sample_humidity |}.

Definition bad_stamp_file : Task3.csv_file :=
  {| Task3.file_timestamp :=
       Some [Some 3; Some 1; None; Some 7; Some 5; Some 4; Some 6]%Z;
     Task3.file_sensor_id := Some sample_keys;
     Task3.file_temperature := Some sample_temperature;
     Task3.file_humidity := Some sample_humidity |}.

Definition prices_file : Task2.csv_file :=
  {| Task2.file_date := Some (map Some [1; 2; 3; 4; 5]%Z);
     Task2.file_closing_price :=
       Some [Some 10; Some 12; Some 9; Some 100; Some 11]%Q;
     Task2.file_volume := Some [Some 1; None; Some 0; Some 3; Some 2]%Q |}.

(** * Task 1: cleaning social-media posts (task-1.py) *)

(** ** Python strings *)

(** A Python [str] is the list of its characters.  A character is one
    [ascii], a code point below 256; text with other characters is not
    represented. *)
Notation str := (list ascii).

Definition code (c : ascii) : nat := nat_of_ascii c.

Definition between (lo hi : nat) (c : ascii) : bool :=
  Nat.leb lo (code c) && Nat.leb (code c) hi.

(** [str.isspace] of one character, which is also the class [\s] of a
    [str] pattern and what [str.split()] splits on: the ASCII white space,
    the separators 28-31, NEL and the no-break space. *)
Definition isspace (c : ascii) : bool :=
  between 9 13 c || between 28 32 c || Nat.eqb (code c) 133
  || Nat.eqb (code c) 160.

(** The class [a-zA-Z0-9]. *)
Definition is_ascii_alnum (c : ascii) : bool :=
  between 48 57 c || between 65 90 c || between 97 122 c.

(** The class [\w] of a [str] pattern: the alphanumeric characters
    ([str.isalnum]) and the underscore. *)
Definition isword (c : ascii) : bool :=
  is_ascii_alnum c || Nat.eqb (code c) 95
  || Nat.eqb (code c) 170 || between 178 179 c || Nat.eqb (code c) 181
  || between 185 186 c || between 188 190 c
  || between 192 214 c || between 216 246 c || between 248 255 c.

(** [str.lower] of one character. *)
Definition lower (c : ascii) : ascii :=
  if between 65 90 c || between 192 214 c || between 216 222 c
  then ascii_of_nat (code c + 32)
  else c.

(** [sep.join(words)]. *)
Fixpoint join (sep : str) (words : list str) : str :=
  match words with
  | [] => []
  | [w] => w
  | w :: rest => w ++ sep ++ join sep rest
  end.

(** [text.split()]: the maximal runs of characters that are not white
    space; [word] is the run being read. *)
Fixpoint split_from (word : str) (text : str) : list str :=
  match text with
  | [] => match word with [] => [] | _ => [word] end
  | c :: r =>
      if isspace c
      then match word with
           | [] => split_from [] r
           | _ => word :: split_from [] r
           end
      else split_from (word ++ [c]) r
  end.

Definition split (text : str) : list str := split_from [] text.

Definition str_eq_dec : forall a b : str, {a = b} + {a <> b} :=
  list_eq_dec ascii_dec.

(** [word in words]. *)
Definition contains (words : list str) (word : str) : bool :=
  if in_dec str_eq_dec word words then true else false.

(** [str(x)] of a cell of text: the text, or "nan" for the missing value. *)
Definition str_of (x : option str) : str :=
  match x with
  | Some s => s
  | None => list_ascii_of_string "nan"
  end.

Module Task1.

(** The position of the first [>] of a text. *)
Fixpoint find_gt (text : str) : option nat :=
  match text with
  | [] => None
  | c :: r => if Ascii.eqb c ">" then Some 0 else option_map S (find_gt r)
  end.

(** For the text that follows a [<]: the number of characters that
    [[^>]+>] matches there, if it matches. *)
Definition match_tag (text : str) : option nat :=
  match find_gt text with
  | Some (S i) => Some (S (S i))
  | _ => None
  end.

(** [re.sub(r'<[^>]+>', '', text)]: the matches are found from left to
    right and do not overlap; [skip] counts the characters of the current
    match that are still to be dropped. *)
Fixpoint sub_tags (skip : nat) (text : str) : str :=
  match text with
  | [] => []
  | c :: r =>
      match skip with
      | S k => sub_tags k r
      | O =>
          if Ascii.eqb c "<"
          then match match_tag r with
               | Some n => sub_tags n r
               | None => c :: sub_tags 0 r
               end
          else c :: sub_tags 0 r
      end
  end.

(** The characters [re.sub(r'[^a-zA-Z0-9\s#]', '', text)] keeps. *)
Definition kept (c : ascii) : bool :=
  is_ascii_alnum c || isspace c || Ascii.eqb c "#".

(** Lines 41-57.  [pd.isna(text)] holds for the missing value, [None]
    here. *)
Definition clean_text (text : option str) : option str :=
  match text with
  | None => text
  | Some text =>
      (* Remove HTML tags *)
      let text := sub_tags 0 text in
      (* Remove special symbols but keep # for hashtags initially *)
      let text := filter kept text in
      (* Remove extra whitespace *)
      let text := join [" "%char] (split text) in
      Some (map lower text)
  end.

(** The run of word characters a text starts with. *)
Fixpoint word_prefix (text : str) : str :=
  match text with
  | c :: r => if isword c then c :: word_prefix r else []
  | [] => []
  end.

(** [re.findall(r'#\w+', text)]; [skip] as in [sub_tags]. *)
Fixpoint findall_hashtags (skip : nat) (text : str) : list str :=
  match text with
  | [] => []
  | c :: r =>
      match skip with
      | S k => findall_hashtags k r
      | O =>
          if Ascii.eqb c "#"
          then match word_prefix r with
               | [] => findall_hashtags 0 r
               | w => (c :: w) :: findall_hashtags (List.length w) r
               end
          else findall_hashtags 0 r
      end
  end.

(** Lines 79-85. *)
Definition extract_hashtags (text : option str) : str :=
  match text with
  | None => []
  | Some text =>
      let hashtags := findall_hashtags 0 text in
      join [" "%char] hashtags
  end.

(** [c in '!@#$%^&*()']. *)
Definition is_special (c : ascii) : bool :=
  existsb (Ascii.eqb c) (list_ascii_of_string "!@#$%^&*()").

Section Posts.

(** [stopwords.words('english')], as the installed NLTK corpus lists
    them. *)
Variable stop_words : list str.

(** Lines 70-77. *)
Definition remove_stopwords (text : option str) : option str :=
  match text with
  | None => text
  | Some text =>
      let words := split text in
      let words := filter (fun word => negb (contains stop_words word)) words in
      Some (join [" "%char] words)
  end.

(** A row of the frame: whatever columns the CSV has, of which the code
    embedded here reads [post_text]. *)
Variable Row : Type.
Variable post_text : Row -> option str.

(** The column [post_text_cleaned] after lines 59 and 88. *)
Definition post_text_cleaned (row : Row) : option str :=
  remove_stopwords (clean_text (post_text row)).

(** The column [hashtags] of line 87. *)
Definition hashtags (row : Row) : str := extract_hashtags (post_text row).

(** Lines 151-163. *)
Definition is_spam (row : Row) : bool :=
  if match post_text_cleaned row with
     | Some cleaned => Nat.ltb (List.length cleaned) 5
     | None => false
     end
  then true
  else
    let original := str_of (post_text row) in
    let special_count := List.length (filter is_special original) in
    if Nat.ltb 5 special_count then true else false.

Definition text_eq_dec : forall a b : option str, {a = b} + {a <> b}.
Proof. decide equality. apply str_eq_dec. Defined.

(** [df.drop_duplicates(subset=['post_text_cleaned'], keep='first')]: a row
    is dropped when an earlier row has the same cleaned text; two missing
    texts count as the same. *)
Fixpoint drop_duplicates_from (seen : list (option str)) (df : list Row)
  : list Row :=
  match df with
  | [] => []
  | row :: rest =>
      if in_dec text_eq_dec (post_text_cleaned row) seen
      then drop_duplicates_from seen rest
      else row :: drop_duplicates_from (post_text_cleaned row :: seen) rest
  end.

Definition drop_duplicates (df : list Row) : list Row :=
  drop_duplicates_from [] df.

(** Lines 131-136 and 165-171 on the rows of the frame: the counts the
    script reports and the frame it goes on with. *)
Definition duplicates_removed (df : list Row) : nat :=
  List.length df - List.length (drop_duplicates df).

Definition spam_count (df : list Row) : nat :=
  List.length (filter is_spam (drop_duplicates df)).

Definition without_spam (df : list Row) : list Row :=
  filter (fun row => negb (is_spam row)) (drop_duplicates df).

End Posts.

End Task1.

(** ** Definitions used to state the further properties *)

(** [pd.factorize(keys)[1]]: the distinct keys in order of first
    appearance, the values the codes stand for. *)
Fixpoint uniques_from (seen : list string) (keys : list string) : list string :=
  match keys with
  | [] => seen
  | k :: r =>
      match code_of k seen with
      | Some _ => uniques_from seen r
      | None => uniques_from (seen ++ [k]) r
      end
  end.

Definition uniques (keys : list string) : list string := uniques_from [] keys.

(** The order of strings that [groupby] and [get_dummies] sort keys by. *)
Definition string_lt (a b : string) : Prop := String.compare a b = Lt.

(** The first of the columns task2.py reads that the header lacks, with the
    source line that reads it. *)
Definition first_missing_column (csv : Task2.frame) : option (string * nat) :=
  match Task2.csv_date csv, Task2.csv_closing_price csv,
        Task2.csv_volume csv with
  | None, _, _ => Some ("date"%string, 35)
  | _, None, _ => Some ("closing_price"%string, 40)
  | _, _, None => Some ("volume"%string, 40)
  | _, _, _ => None
  end.


(** The characters of a cleaned word: lowercase ASCII letters, digits and
    the hash sign. *)
Definition is_clean (c : ascii) : bool :=
  between 97 122 c || between 48 57 c || Ascii.eqb c "#".

Definition clean_word (w : str) : Prop :=
  w <> [] /\ Forall (fun c => is_clean c = true) w.

(** A word as [split] returns them: not empty, no white space. *)
Definition is_token (w : str) : Prop :=
  w <> [] /\ Forall (fun c => isspace c = false) w.

(** A hash sign followed by at least one word character. *)
Definition is_hashtag (h : str) : Prop :=
  exists w, h = "#"%char :: w /\ w <> [] /\ Forall (fun c => isword c = true) w.

(** [small] is [big] with some elements left out. *)
Inductive subseq (A : Type) : list A -> list A -> Prop :=
| subseq_nil : subseq [] []
| subseq_skip x small big : subseq small big -> subseq small (x :: big)
| subseq_keep x small big : subseq small big -> subseq (x :: small) (x :: big).

(** A frame of posts with the single column [post_text], and a short list
    of stop words. *)
Definition sample_stop_words : list str :=
  map list_ascii_of_string ["the"; "a"; "is"; "this"]%string.

Definition sample_posts : list (option str) :=
  [Some (list_ascii_of_string "<p>This is the <b>BEST</b> phone!</p> #Tech");
   Some (list_ascii_of_string "Wow!");
   Some (list_ascii_of_string "this is   the best PHONE #tech");
   None;
   Some (list_ascii_of_string "Big win!!! $$$ Click *now* (free) #AI_2024")].

Definition sample_post_text (row : option str) : option str := row.

(** * Groups and index alignment *)

Section GroupFacts.

Variable A : Type.

Lemma rows_from_ge o k keys i : In i (rows_from o k keys) -> o <= i.
Proof.
  revert o; induction keys as [|k' r IH]; simpl; intros o Hi; [easy|].
  destruct (String.eqb k' k).
  - destruct Hi as [<-|Hi]; [lia|]. apply IH in Hi. lia.
  - apply IH in Hi. lia.
Qed.

Lemma rows_from_key o k keys i :
  In i (rows_from o k keys) -> nth_error keys (i - o) = Some k.
Proof.
  revert o; induction keys as [|k' r IH]; simpl; intros o Hi; [easy|].
  destruct (String.eqb k' k) eqn:E.
  - destruct Hi as [<-|Hi].
    + rewrite Nat.sub_diag. simpl. apply String.eqb_eq in E. now subst.
    + pose proof (rows_from_ge _ _ _ _ Hi) as Hge.
      apply IH in Hi. replace (i - o) with (S (i - S o)) by lia. exact Hi.
  - pose proof (rows_from_ge _ _ _ _ Hi) as Hge.
    apply IH in Hi. replace (i - o) with (S (i - S o)) by lia. exact Hi.
Qed.

Lemma rows_from_NoDup o k keys : NoDup (rows_from o k keys).
Proof.
  revert o; induction keys as [|k' r IH]; simpl; intros o; [constructor|].
  destruct (String.eqb k' k); [|apply IH].
  constructor; [|apply IH].
  intros Hi. apply rows_from_ge in Hi. lia.
Qed.

Lemma rows_from_length o k keys (col : list A) :
  List.length keys = List.length col ->
  List.length (rows_from o k keys) = List.length (group_values k keys col).
Proof.
  revert o col; induction keys as [|k' r IH]; intros o [|v c]; simpl; try easy.
  intros [= Hl]. destruct (String.eqb k' k); simpl; auto.
Qed.

(** The rows of a group, read off a column by position. *)
Lemma group_values_nth (d : A) o k keys col :
  List.length keys = List.length col ->
  group_values k keys col = map (fun i => nth (i - o) col d) (rows_from o k keys).
Proof.
  revert o col; induction keys as [|k' r IH]; intros o [|v c]; try easy.
  intros [= Hl]. cbn [group_values rows_from].
  assert (Htl : map (fun i => nth (i - o) (v :: c) d) (rows_from (S o) k r) =
                map (fun i => nth (i - S o) c d) (rows_from (S o) k r)).
  { apply map_ext_in. intros i Hi. apply rows_from_ge in Hi.
    replace (i - o) with (S (i - S o)) by lia. reflexivity. }
  destruct (String.eqb k' k); cbn [map].
  - rewrite Nat.sub_diag, Htl. cbn [nth]. f_equal. now apply IH.
  - rewrite Htl. now apply IH.
Qed.

(** Every row of a column belongs to the group of its key. *)
Lemma in_some_group keys (col : list A) x :
  List.length keys = List.length col -> In x col ->
  exists k, In k keys /\ In x (group_values k keys col).
Proof.
  revert col; induction keys as [|k' r IH]; intros [|v c]; simpl; try easy.
  intros [= Hl] [<-|Hx].
  - exists k'. rewrite String.eqb_refl. simpl. auto.
  - destruct (IH c Hl Hx) as [k [Hk Hin]]. exists k. split; [auto|].
    destruct (String.eqb k' k); simpl; auto.
Qed.

Lemma lookup_in (s : series A) i v :
  NoDup (index s) -> In (i, v) s -> lookup i s = Some v.
Proof.
  induction s as [|[j w] r IH]; simpl; [easy|].
  intros Hnd [[= -> ->]|Hin].
  - now rewrite Nat.eqb_refl.
  - inversion Hnd as [|? ? Hnot Hnd']; subst.
    destruct (Nat.eqb i j) eqn:E.
    + apply Nat.eqb_eq in E; subst. exfalso. apply Hnot.
      change j with (fst (j, v)). now apply in_map.
    + now apply IH.
Qed.

Lemma lookup_not_in (s : series A) i : ~ In i (index s) -> lookup i s = None.
Proof.
  induction s as [|[j w] r IH]; simpl; [easy|].
  intros Hn. destruct (Nat.eqb i j) eqn:E.
  - apply Nat.eqb_eq in E. subst. tauto.
  - apply IH. tauto.
Qed.

Lemma index_combine (idx : list nat) (vals : list A) :
  List.length idx = List.length vals -> index (combine idx vals) = idx.
Proof.
  revert vals; induction idx as [|i r IH]; intros [|v c]; simpl; try easy.
  intros [= Hl]. f_equal. now apply IH.
Qed.

Lemma values_combine (idx : list nat) (vals : list A) :
  List.length idx = List.length vals -> values (combine idx vals) = vals.
Proof.
  revert vals; induction idx as [|i r IH]; intros [|v c]; simpl; try easy.
  intros [= Hl]. f_equal. now apply IH.
Qed.

(** Reading a series back along its own index gives its values. *)
Lemma map_lookup_self (na : A) (P : nat -> option A) (s : series A) :
  (forall i v, In (i, v) s -> P i = Some v) ->
  map (fun i => match P i with Some v => v | None => na end) (index s) = values s.
Proof.
  induction s as [|[j w] r IH]; simpl; [easy|].
  intros HP. rewrite (HP j w) by auto. f_equal. apply IH. intros; apply HP; auto.
Qed.

Lemma index_insert_perm (p : nat * A) s : Permutation (index_insert p s) (p :: s).
Proof.
  induction s as [|q r IH]; simpl; [apply Permutation_refl|].
  destruct (Nat.leb _ _); [apply Permutation_refl|].
  eapply perm_trans; [apply perm_skip, IH | apply perm_swap].
Qed.

Lemma sort_index_perm (s : series A) : Permutation (sort_index s) s.
Proof.
  induction s as [|p r IH]; simpl; [constructor|].
  eapply perm_trans; [apply index_insert_perm | now apply perm_skip].
Qed.

Lemma setitem_length (na : A) n s : List.length (setitem na n s) = n.
Proof. unfold setitem. now rewrite length_map, length_seq. Qed.

Lemma setitem_nth (na d : A) n s i :
  i < n ->
  nth i (setitem na n s) d = match lookup i s with Some v => v | None => na end.
Proof.
  intros Hi. unfold setitem.
  rewrite (nth_indep _ d (match lookup 0 s with Some v => v | None => na end))
    by now rewrite length_map, length_seq.
  rewrite (map_nth (fun i => match lookup i s with Some v => v | None => na end)).
  now rewrite seq_nth.
Qed.

Lemma loc_set_length (s : series A) col :
  List.length (loc_set s col) = List.length col.
Proof.
  unfold loc_set. rewrite length_map, length_combine, length_seq. lia.
Qed.

Lemma loc_set_nth (d : A) (s : series A) col i :
  i < List.length col ->
  nth i (loc_set s col) d =
  match lookup i s with Some v => v | None => nth i col d end.
Proof.
  intros Hi. unfold loc_set.
  set (f := fun p : nat * A =>
              match lookup (fst p) s with Some v => v | None => snd p end).
  rewrite (nth_indep _ d (f (0, d)))
    by now rewrite length_map, length_combine, length_seq; lia.
  rewrite (map_nth f), combine_nth by now rewrite length_seq.
  rewrite seq_nth by exact Hi. reflexivity.
Qed.

End GroupFacts.

Lemma group_values_length (A B : Type) k keys (c1 : list A) (c2 : list B) :
  List.length keys = List.length c1 -> List.length keys = List.length c2 ->
  List.length (group_values k keys c1) = List.length (group_values k keys c2).
Proof.
  intros H1 H2.
  now rewrite <- (rows_from_length 0 k keys c1), <- (rows_from_length 0 k keys c2).
Qed.

Lemma rows_from_not_in o k keys : ~ In k keys -> rows_from o k keys = [].
Proof.
  revert o; induction keys as [|k' r IH]; simpl; intros o Hn; [easy|].
  destruct (String.eqb k' k) eqn:E.
  - apply String.eqb_eq in E. tauto.
  - apply IH. tauto.
Qed.

Lemma group_index_key k keys i :
  In i (group_index k keys) -> nth_error keys i = Some k.
Proof.
  intros Hi. apply rows_from_key in Hi. now rewrite Nat.sub_0_r in Hi.
Qed.

Lemma group_index_lt k keys i : In i (group_index k keys) -> i < List.length keys.
Proof.
  intros Hi. apply group_index_key in Hi.
  apply nth_error_Some. congruence.
Qed.

Lemma key_insert_in k l x : In x (key_insert k l) <-> x = k \/ In x l.
Proof.
  induction l as [|y r IH]; simpl; [intuition|].
  destruct (String.compare k y) eqn:E; simpl.
  - apply String.compare_eq_iff in E. subst. intuition.
  - intuition.
  - rewrite IH. intuition.
Qed.

Lemma group_keys_in keys k : In k (group_keys keys) <-> In k keys.
Proof.
  induction keys as [|y r IH]; simpl; [tauto|].
  rewrite key_insert_in, IH. intuition.
Qed.

(** ** Putting per-group results back into a column *)

Section Reassembly.

Variable A : Type.
Variable keys : list string.

(** [part k]: the series computed for group [k], labelled by the rows of
    that group. *)
Variable part : string -> series A.
Hypothesis part_index : forall k, index (part k) = group_index k keys.

Lemma part_functional k i v v' :
  In (i, v) (part k) -> In (i, v') (part k) -> v = v'.
Proof.
  intros H1 H2.
  assert (Hnd : NoDup (index (part k)))
    by (rewrite part_index; apply rows_from_NoDup).
  apply (@lookup_in _ _ _ _ Hnd) in H1. apply (@lookup_in _ _ _ _ Hnd) in H2.
  congruence.
Qed.

Lemma part_key k i v : In (i, v) (part k) -> nth_error keys i = Some k.
Proof.
  intros H. apply group_index_key. rewrite <- part_index.
  change i with (fst (i, v)). now apply in_map.
Qed.

Lemma part_nil k : ~ In k keys -> part k = [].
Proof.
  intros Hn. pose proof (part_index k) as H.
  unfold group_index in H. rewrite rows_from_not_in in H by exact Hn.
  unfold index in H. now apply map_eq_nil in H.
Qed.

Lemma lookup_functional (s : series A) i v :
  (forall v', In (i, v') s -> v' = v) -> In (i, v) s -> lookup i s = Some v.
Proof.
  induction s as [|[j w] r IH]; simpl; [easy|].
  intros Hf Hin. destruct (Nat.eqb i j) eqn:E.
  - apply Nat.eqb_eq in E. subst. f_equal. apply Hf. auto.
  - apply IH; [intros; apply Hf; auto|].
    destruct Hin as [[= -> ->]|Hin]; [|exact Hin].
    now rewrite Nat.eqb_refl in E.
Qed.

(** [pd.concat(parts).sort_index()] holds, at each label of a group, the
    value computed for that group. *)
Lemma lookup_concat gs k i v :
  In k gs -> In (i, v) (part k) ->
  lookup i (sort_index (List.concat (map part gs))) = Some v.
Proof.
  intros Hk Hin.
  assert (Hall : forall v', In (i, v') (List.concat (map part gs)) -> v' = v).
  { intros v' H'. apply in_concat in H'. destruct H' as [s [Hs Hv']].
    apply in_map_iff in Hs. destruct Hs as [k' [<- _]].
    pose proof (part_key _ _ _ Hin) as K1.
    pose proof (part_key _ _ _ Hv') as K2.
    assert (k' = k) by congruence. subst.
    eapply part_functional; eauto. }
  apply lookup_functional.
  - intros v' H'. apply Hall.
    eapply Permutation_in; [apply sort_index_perm | exact H'].
  - eapply Permutation_in; [apply Permutation_sym, sort_index_perm|].
    apply in_concat. exists (part k). split; [now apply in_map | exact Hin].
Qed.

Lemma group_values_along (col : list A) (na : A) (P : nat -> option A) k :
  List.length col = List.length keys ->
  (forall i, i < List.length keys ->
             nth i col na = match P i with Some v => v | None => na end) ->
  (forall i v, In (i, v) (part k) -> P i = Some v) ->
  group_values k keys col = values (part k).
Proof.
  intros Hlen Hnth HP.
  rewrite (group_values_nth na 0) by auto.
  rewrite <- (map_lookup_self na P (part k) HP), part_index.
  apply map_ext_in. intros i Hi. rewrite Nat.sub_0_r.
  apply Hnth. now apply group_index_lt in Hi.
Qed.

(** The column assigned from the concatenated parts, seen from one
    group. *)
Lemma group_values_setitem (na : A) gs k :
  (In k keys -> In k gs) ->
  group_values k keys
    (setitem na (List.length keys) (sort_index (List.concat (map part gs))))
  = values (part k).
Proof.
  intros Hk.
  apply group_values_along
    with (na := na)
         (P := fun i => lookup i (sort_index (List.concat (map part gs)))).
  - apply setitem_length.
  - intros i Hi. now apply setitem_nth.
  - intros i v Hin. apply lookup_concat with (k := k); [|exact Hin].
    apply Hk. pose proof (part_key _ _ _ Hin) as K.
    eapply nth_error_In; eauto.
Qed.

(** The column updated group after group with [df.loc], seen from one
    group. *)
Lemma fold_loc_set_length gs (z : list A) :
  List.length (fold_left (fun z k' => loc_set (part k') z) gs z) = List.length z.
Proof.
  revert z; induction gs as [|g r IH]; simpl; intros z; [easy|].
  now rewrite IH, loc_set_length.
Qed.

Lemma fold_loc_set_nth (d : A) gs k i v (z : list A) :
  In (i, v) (part k) -> List.length z = List.length keys ->
  In k gs \/ nth i z d = v ->
  nth i (fold_left (fun z k' => loc_set (part k') z) gs z) d = v.
Proof.
  intros Hin. revert z; induction gs as [|g r IH]; simpl; intros z Hz Hor.
  - destruct Hor; [easy|assumption].
  - assert (Hi : i < List.length z).
    { rewrite Hz. apply group_index_lt with (k := k). rewrite <- part_index.
      change i with (fst (i, v)). now apply in_map. }
    apply IH; [now rewrite loc_set_length|].
    destruct (string_dec g k) as [->|Hne].
    + right. rewrite loc_set_nth by exact Hi.
      rewrite (@lookup_in _ (part k) i v); auto.
      rewrite part_index. apply rows_from_NoDup.
    + destruct Hor as [[Hg|Hr]|Hz0]; [congruence|now left|right].
      rewrite loc_set_nth by exact Hi.
      rewrite lookup_not_in; [exact Hz0|].
      rewrite part_index. intros Hi'. apply group_index_key in Hi'.
      pose proof (part_key _ _ _ Hin). congruence.
Qed.

Lemma lookup_some_in (s : series A) i v : lookup i s = Some v -> In (i, v) s.
Proof.
  induction s as [|[j w] r IH]; simpl; [easy|].
  destruct (Nat.eqb i j) eqn:E.
  - apply Nat.eqb_eq in E. intros [= ->]. subst. now left.
  - intros H. right. now apply IH.
Qed.

Lemma group_values_fold_loc_set (d : A) gs k (z : list A) :
  List.length z = List.length keys -> (In k keys -> In k gs) ->
  group_values k keys (fold_left (fun z k' => loc_set (part k') z) gs z)
  = values (part k).
Proof.
  intros Hz Hk.
  set (col := fold_left (fun z k' => loc_set (part k') z) gs z).
  apply group_values_along
    with (na := d)
         (P := fun i => match lookup i (part k) with
                        | Some v => Some v
                        | None => Some (nth i col d)
                        end).
  - unfold col. now rewrite fold_loc_set_length.
  - intros i Hi. destruct (lookup i (part k)) as [v|] eqn:E; [|reflexivity].
    apply lookup_some_in in E.
    unfold col. apply fold_loc_set_nth with (k := k); auto.
    left. apply Hk. pose proof (part_key _ _ _ E) as K.
    eapply nth_error_In; eauto.
  - intros i v Hin. rewrite (@lookup_in _ (part k) i v); auto.
    rewrite part_index. apply rows_from_NoDup.
Qed.

End Reassembly.

(** ** Column operations seen from one group *)

Lemma group_values_map (A B : Type) (f : A -> B) k keys col :
  group_values k keys (map f col) = map f (group_values k keys col).
Proof.
  revert col; induction keys as [|k' r IH]; intros [|v c]; simpl; try easy.
  destruct (String.eqb k' k); simpl; now rewrite IH.
Qed.

Lemma group_values_combine (A B : Type) k keys (a : list A) (b : list B) :
  group_values k keys (combine a b)
  = combine (group_values k keys a) (group_values k keys b).
Proof.
  revert a b; induction keys as [|k' r IH]; intros [|x a] [|y b]; simpl; try easy.
  - destruct (String.eqb k' k); simpl; [reflexivity|].
    now destruct (group_values k r a).
  - destruct (String.eqb k' k); simpl; now rewrite IH.
Qed.

Lemma group_values_incl (A : Type) k keys (col : list A) x :
  In x (group_values k keys col) -> In x col.
Proof.
  revert col; induction keys as [|k' r IH]; intros [|v c]; simpl; try easy.
  destruct (String.eqb k' k); simpl; intros H; [destruct H|]; auto.
Qed.

(** A value that depends on the key only is constant on a group. *)
Lemma group_values_of_key (A B : Type) (F : string -> B) k keys (col : list A) :
  List.length keys = List.length col ->
  group_values k keys (map F keys) = map (fun _ => F k) (group_values k keys col).
Proof.
  revert col; induction keys as [|k' r IH]; intros [|v c]; simpl; try easy.
  intros [= Hl]. destruct (String.eqb k' k) eqn:E; simpl.
  - apply String.eqb_eq in E. subst. f_equal. now apply IH.
  - now apply IH.
Qed.

Lemma group_values_take_length (A : Type) k keys (col : list A) :
  List.length (group_values k keys col) <= List.length col.
Proof.
  revert col; induction keys as [|k' r IH]; intros [|v c]; simpl; try lia.
  destruct (String.eqb k' k); simpl; specialize (IH c); lia.
Qed.

Lemma groupby_ffill_from_length last keys col :
  List.length keys = List.length col ->
  List.length (groupby_ffill_from last keys col) = List.length col.
Proof.
  revert last col; induction keys as [|k' r IH]; intros last [|[v|] c];
    simpl; try easy; intros [= Hl]; f_equal; now apply IH.
Qed.

(** The grouped forward fill is the forward fill of each group. *)
Lemma group_values_ffill_from last k keys col :
  List.length keys = List.length col ->
  group_values k keys (groupby_ffill_from last keys col)
  = ffill_from (last k) (group_values k keys col).
Proof.
  revert last col; induction keys as [|k' r IH]; intros last [|[v|] c];
    simpl; try easy; intros [= Hl].
  - destruct (String.eqb k' k) eqn:E; simpl; rewrite IH by exact Hl.
    + apply String.eqb_eq in E. subst. now rewrite String.eqb_refl.
    + rewrite String.eqb_sym, E. reflexivity.
  - destruct (String.eqb k' k) eqn:E; simpl; rewrite IH by exact Hl.
    + apply String.eqb_eq in E. now subst.
    + reflexivity.
Qed.

Lemma where_mask_isnull (filled : list cell) (m : cell) :
  where_mask (map isnull filled) filled (map (fun _ => m) filled)
  = map (fun v => if isnull v then m else v) filled.
Proof.
  unfold where_mask. induction filled as [|v r IH]; simpl; [easy|].
  f_equal. exact IH.
Qed.

Lemma existsb_isnull_false (xs : list cell) (m : cell) :
  existsb (fun b => b) (map isnull xs) = false ->
  map (fun v => if isnull v then m else v) xs = xs.
Proof.
  induction xs as [|v r IH]; simpl; [easy|].
  intros H. apply orb_false_iff in H. destruct H as [Hv Hr].
  rewrite Hv. f_equal. now apply IH.
Qed.

Lemma existsb_isnull_incl (xs ys : list cell) :
  (forall x, In x ys -> In x xs) ->
  existsb (fun b => b) (map isnull xs) = false ->
  existsb (fun b => b) (map isnull ys) = false.
Proof.
  intros Hincl Hx.
  destruct (existsb (fun b => b) (map isnull ys)) eqn:E; [|reflexivity].
  apply existsb_exists in E. destruct E as [b [Hb ->]].
  apply in_map_iff in Hb. destruct Hb as [y [Hy Hin]].
  assert (existsb (fun b => b) (map isnull xs) = true); [|congruence].
  apply existsb_exists. exists true. split; [|reflexivity].
  rewrite <- Hy. apply in_map. now apply Hincl.
Qed.

Lemma impute_length keys col :
  List.length keys = List.length col ->
  List.length (Task3.impute keys col) = List.length keys.
Proof.
  intros Hl. unfold Task3.impute.
  assert (Hf : List.length (groupby_ffill keys col) = List.length keys)
    by (unfold groupby_ffill; rewrite groupby_ffill_from_length; auto).
  destruct (existsb _ _); [|exact Hf].
  unfold where_mask, groupby_transform_median.
  rewrite length_map, !length_combine, !length_map, Hf. lia.
Qed.

Lemma group_values_impute k keys col :
  List.length keys = List.length col ->
  group_values k keys (Task3.impute keys col)
  = impute_group (group_values k keys col).
Proof.
  intros Hl. unfold Task3.impute, impute_group.
  set (filled := groupby_ffill keys col).
  assert (Hf : group_values k keys filled = ffill (group_values k keys col))
    by (apply group_values_ffill_from; exact Hl).
  assert (Hfl : List.length keys = List.length filled)
    by (unfold filled, groupby_ffill; rewrite groupby_ffill_from_length; auto).
  destruct (existsb (fun b => b) (map isnull filled)) eqn:E.
  - unfold where_mask at 1.
    rewrite group_values_map, !group_values_combine, group_values_map.
    unfold groupby_transform_median.
    rewrite (group_values_of_key (fun k => median (group_values k keys filled))
                                 k keys filled Hfl).
    rewrite Hf. apply where_mask_isnull.
  - rewrite Hf. symmetry. apply existsb_isnull_false.
    rewrite <- Hf.
    eapply existsb_isnull_incl; [|exact E].
    intros x. apply group_values_incl.
Qed.

(** ** The two loops over the groups *)

Lemma rolling_mean_length w xs :
  List.length (rolling_mean w xs) = List.length xs.
Proof. unfold rolling_mean. now rewrite length_map, length_seq. Qed.

Lemma series_sub_length a b :
  List.length a = List.length b -> List.length (series_sub a b) = List.length a.
Proof.
  intros H. unfold series_sub. rewrite length_map, length_combine. lia.
Qed.

Lemma get_group_index (A : Type) k keys (col : list A) :
  List.length keys = List.length col ->
  index (get_group k keys col) = group_index k keys.
Proof.
  intros H. apply index_combine. now apply rows_from_length.
Qed.

Lemma get_group_values (A : Type) k keys (col : list A) :
  List.length keys = List.length col ->
  values (get_group k keys col) = group_values k keys col.
Proof.
  intros H. apply values_combine. now apply rows_from_length.
Qed.

Lemma remove_drift_roll g w :
  index (snd (Task3.remove_drift g w)) = index g /\
  values (snd (Task3.remove_drift g w)) = rolling_mean w (values g).
Proof.
  unfold Task3.remove_drift; simpl.
  assert (H : List.length (index g) = List.length (rolling_mean w (values g)))
    by (unfold index, values; now rewrite rolling_mean_length, !length_map).
  split; [now apply index_combine | now apply values_combine].
Qed.

Lemma remove_drift_detrended g w :
  index (fst (Task3.remove_drift g w)) = index g /\
  values (fst (Task3.remove_drift g w)) = detrend w (values g).
Proof.
  unfold Task3.remove_drift, detrend; simpl.
  assert (Hr : List.length (index g) = List.length (rolling_mean w (values g)))
    by (unfold index, values; now rewrite rolling_mean_length, !length_map).
  rewrite (values_combine _ _ Hr).
  assert (H : List.length (index g)
              = List.length (series_sub (values g) (rolling_mean w (values g)))).
  { rewrite series_sub_length; unfold index, values;
      now rewrite ?rolling_mean_length, !length_map. }
  split; [now apply index_combine | now apply values_combine].
Qed.

Lemma drift_loop_from keys t h gs acc :
  let L := fold_left (Task3.drift_step keys t h) gs acc in
  Task3.temp_detrended_list L
  = Task3.temp_detrended_list acc
    ++ map (fun k => fst (Task3.remove_drift (get_group k keys t) Task3.ROLL_WINDOW)) gs
  /\ Task3.hum_detrended_list L
  = Task3.hum_detrended_list acc
    ++ map (fun k => fst (Task3.remove_drift (get_group k keys h) Task3.ROLL_WINDOW)) gs
  /\ Task3.roll_temp_list L
  = Task3.roll_temp_list acc
    ++ map (fun k => snd (Task3.remove_drift (get_group k keys t) Task3.ROLL_WINDOW)) gs
  /\ Task3.roll_hum_list L
  = Task3.roll_hum_list acc
    ++ map (fun k => snd (Task3.remove_drift (get_group k keys h) Task3.ROLL_WINDOW)) gs.
Proof.
  revert acc; induction gs as [|g r IH]; intros acc; cbn [fold_left map].
  - now rewrite !app_nil_r.
  - destruct (IH (Task3.drift_step keys t h acc g)) as (H1 & H2 & H3 & H4).
    cbv zeta. rewrite H1, H2, H3, H4.
    unfold Task3.drift_step, Task3.remove_drift;
      cbn [Task3.temp_detrended_list Task3.hum_detrended_list
           Task3.roll_temp_list Task3.roll_hum_list fst snd].
    now rewrite <- !app_assoc.
Qed.

Lemma drift_loop_lists keys t h :
  let L := Task3.drift_loop keys t h in
  let gs := group_keys keys in
  Task3.temp_detrended_list L
  = map (fun k => fst (Task3.remove_drift (get_group k keys t) Task3.ROLL_WINDOW)) gs
  /\ Task3.hum_detrended_list L
  = map (fun k => fst (Task3.remove_drift (get_group k keys h) Task3.ROLL_WINDOW)) gs
  /\ Task3.roll_temp_list L
  = map (fun k => snd (Task3.remove_drift (get_group k keys t) Task3.ROLL_WINDOW)) gs
  /\ Task3.roll_hum_list L
  = map (fun k => snd (Task3.remove_drift (get_group k keys h) Task3.ROLL_WINDOW)) gs.
Proof. apply drift_loop_from. Qed.

Lemma zscore_index g : index (Task3.zscore g) = index g.
Proof.
  unfold Task3.zscore, index. destruct (_ || _); rewrite map_map; reflexivity.
Qed.

Lemma zscore_series_values g : values (Task3.zscore g) = zscore_values (values g).
Proof.
  unfold Task3.zscore, zscore_values, values.
  destruct (_ || _); rewrite !map_map; reflexivity.
Qed.

Lemma zscore_loop_from keys td hd gs zt zh :
  fold_left (Task3.zscore_step keys td hd) gs (zt, zh)
  = (fold_left (fun z k => loc_set (Task3.zscore (get_group k keys td)) z) gs zt,
     fold_left (fun z k => loc_set (Task3.zscore (get_group k keys hd)) z) gs zh).
Proof.
  revert zt zh; induction gs as [|g r IH]; intros zt zh; simpl; [easy|].
  unfold Task3.zscore_step at 2. simpl. apply IH.
Qed.

(** ** What a completed run writes *)

Lemma take_length (A : Type) (na : A) indexer col :
  List.length (take na indexer col) = List.length indexer.
Proof. unfold take. apply length_map. Qed.

Lemma group_keys_nil keys : group_keys keys = [] -> keys = [].
Proof.
  destruct keys as [|k r]; [easy|]. intros H.
  assert (Hin : In k (group_keys (k :: r))) by (apply group_keys_in; now left).
  rewrite H in Hin. destruct Hin.
Qed.

Lemma run_complete kind ts0 k0 t0 h0 :
  ts0 <> [] ->
  exists w,
    Task3.run kind {| Task3.csv_timestamp := Some ts0;
                      Task3.csv_sensor_id := Some k0;
                      Task3.csv_temperature := Some t0;
                      Task3.csv_humidity := Some h0 |} = (w, inr tt)
    /\ saved w = Some (prepared_from kind ts0 k0 t0 h0).
Proof.
  intros Hne.
  unfold Task3.run, Task3.main;
    cbn [bind getitem print at_line ret raise to_csv fst snd saved stdout
         lineno start
         Task3.sort_values option_map Task3.csv_timestamp Task3.csv_sensor_id
         Task3.csv_temperature Task3.csv_humidity].
  set (keys := take EmptyString (argsort kind ts0) k0).
  set (t := Task3.impute keys (take None (argsort kind ts0) t0)).
  set (h := Task3.impute keys (take None (argsort kind ts0) h0)).
  destruct (drift_loop_lists keys t h) as (H1 & H2 & H3 & H4).
  rewrite H1, H2, H3, H4.
  assert (Hlen : List.length (argsort kind ts0) = List.length keys)
    by (unfold keys; now rewrite take_length).
  destruct (group_keys keys) as [|g gs] eqn:Eg.
  - exfalso. apply group_keys_nil in Eg.
    rewrite Eg in Hlen. simpl in Hlen.
    pose proof (Permutation_length (argsort_perm kind ts0)) as Hp.
    rewrite length_seq in Hp. destruct ts0; [easy|simpl in Hp; lia].
  - cbn [map pd_concat bind ret fst snd saved].
    eexists; split; [reflexivity|].
    cbn [saved]. unfold prepared_from, roll_column, detrended_column, z_column,
      reassemble, Task3.zscore_loop.
    fold keys. fold t. fold h. rewrite Eg, Hlen.
    cbn [map]. rewrite zscore_loop_from. reflexivity.
Qed.

Lemma argsort_nil kind : argsort kind [] = [].
Proof.
  apply Permutation_nil. apply Permutation_sym. exact (argsort_perm kind []).
Qed.

Lemma argsort_length kind ts : List.length (argsort kind ts) = List.length ts.
Proof.
  rewrite (Permutation_length (argsort_perm kind ts)). apply length_seq.
Qed.

(** With no row there is no group, and the first [pd.concat] raises. *)
Lemma run_no_rows kind k0 t0 h0 :
  exists w,
    Task3.run kind {| Task3.csv_timestamp := Some [];
                      Task3.csv_sensor_id := Some k0;
                      Task3.csv_temperature := Some t0;
                      Task3.csv_humidity := Some h0 |}
    = (w, inl (ValueError "No objects to concatenate"))
    /\ saved w = None /\ lineno w = 83.
Proof.
  unfold Task3.run, Task3.main;
    cbn [bind getitem print at_line ret raise to_csv fst snd saved stdout
         lineno start
         Task3.sort_values option_map Task3.csv_timestamp Task3.csv_sensor_id
         Task3.csv_temperature Task3.csv_humidity].
  rewrite argsort_nil. cbn [take map].
  eexists; repeat split; reflexivity.
Qed.

Lemma output_inv kind csv out :
  Task3.output kind csv = Some out ->
  exists ts0 k0 t0 h0,
    csv = {| Task3.csv_timestamp := Some ts0;
             Task3.csv_sensor_id := Some k0;
             Task3.csv_temperature := Some t0;
             Task3.csv_humidity := Some h0 |}
    /\ ts0 <> []
    /\ out = prepared_from kind ts0 k0 t0 h0.
Proof.
  unfold Task3.output.
  destruct csv as [[ts0|] [k0|] [t0|] [h0|]];
    try (unfold Task3.run, Task3.main;
         cbn [bind getitem print at_line ret raise to_csv fst snd saved stdout
         lineno start
              Task3.sort_values option_map Task3.csv_timestamp
              Task3.csv_sensor_id Task3.csv_temperature Task3.csv_humidity];
         discriminate).
  destruct ts0 as [|t1 ts1].
  - destruct (run_no_rows kind k0 t0 h0) as [w [-> [Hs _]]]. cbn [fst].
    rewrite Hs. discriminate.
  - destruct (run_complete kind (ts0 := t1 :: ts1) k0 t0 h0) as [w [-> Hs]];
      [easy|].
    cbn [fst]. rewrite Hs. intros [= <-].
    exists (t1 :: ts1), k0, t0, h0. repeat split. easy.
Qed.

(** ** The derived columns of a completed run, group by group *)

Lemma group_values_roll_column k keys col :
  List.length keys = List.length col ->
  group_values k keys (roll_column keys col)
  = rolling_mean Task3.ROLL_WINDOW (group_values k keys col).
Proof.
  intros Hl. unfold roll_column, reassemble.
  rewrite group_values_setitem.
  - destruct (remove_drift_roll (get_group k keys col) Task3.ROLL_WINDOW)
      as [_ ->].
    now rewrite get_group_values.
  - intros k'.
    destruct (remove_drift_roll (get_group k' keys col) Task3.ROLL_WINDOW)
      as [-> _].
    now apply get_group_index.
  - apply group_keys_in.
Qed.

Lemma group_values_detrended_column k keys col :
  List.length keys = List.length col ->
  group_values k keys (detrended_column keys col)
  = detrend Task3.ROLL_WINDOW (group_values k keys col).
Proof.
  intros Hl. unfold detrended_column, reassemble.
  rewrite group_values_setitem.
  - destruct (remove_drift_detrended (get_group k keys col) Task3.ROLL_WINDOW)
      as [_ ->].
    now rewrite get_group_values.
  - intros k'.
    destruct (remove_drift_detrended (get_group k' keys col) Task3.ROLL_WINDOW)
      as [-> _].
    now apply get_group_index.
  - apply group_keys_in.
Qed.

Lemma group_values_z_column k keys det :
  List.length keys = List.length det ->
  group_values k keys (z_column keys det)
  = zscore_values (group_values k keys det).
Proof.
  intros Hl. unfold z_column.
  rewrite group_values_fold_loc_set.
  - now rewrite zscore_series_values, get_group_values.
  - intros k'. rewrite zscore_index. now apply get_group_index.
  - exact NaN.
  - apply repeat_length.
  - apply group_keys_in.
Qed.

Lemma reassemble_length keys part : List.length (reassemble keys part) = List.length keys.
Proof. apply setitem_length. Qed.

Lemma z_column_length keys det : List.length (z_column keys det) = List.length keys.
Proof.
  unfold z_column.
  generalize (repeat (@NaN R) (List.length keys)) (repeat_length (@NaN R) (List.length keys)).
  induction (group_keys keys) as [|g r IH]; simpl; intros z Hz; [exact Hz|].
  apply IH. now rewrite loc_set_length.
Qed.

Section Completed.

Variable kind : sort_kind.
Variables (ts0 : list Z) (k0 : list string) (t0 h0 : list cell).

Let out := prepared_from kind ts0 k0 t0 h0.
Let keys := Task3.sensor_id out.

Lemma prepared_keys_length : List.length keys = List.length ts0.
Proof.
  unfold keys, out, prepared_from; cbn [Task3.sensor_id].
  now rewrite take_length, argsort_length.
Qed.

Lemma prepared_raw_length c : List.length (Task3.raw c out) = List.length keys.
Proof.
  unfold keys, out, prepared_from.
  destruct c; cbn [Task3.raw Task3.temperature_raw Task3.humidity_raw
                   Task3.sensor_id]; now rewrite !take_length.
Qed.

Lemma prepared_imputed_length c :
  List.length (Task3.imputed c out) = List.length keys.
Proof.
  pose proof (prepared_raw_length Task3.Temperature) as Ht.
  pose proof (prepared_raw_length Task3.Humidity) as Hh.
  destruct c; cbn in *; now apply impute_length.
Qed.

Lemma prepared_detrended_length c :
  List.length (Task3.detrended c out) = List.length keys.
Proof. destruct c; apply reassemble_length. Qed.

Lemma prepared_imputed c k :
  group_values k keys (Task3.imputed c out)
  = impute_group (group_values k keys (Task3.raw c out)).
Proof.
  pose proof (prepared_raw_length c) as Hl.
  destruct c; apply group_values_impute; now symmetry.
Qed.

Lemma prepared_roll_mean c k :
  group_values k keys (Task3.roll_mean c out)
  = rolling_mean Task3.ROLL_WINDOW (group_values k keys (Task3.imputed c out)).
Proof.
  pose proof (prepared_imputed_length c) as Hl.
  destruct c; apply group_values_roll_column; now symmetry.
Qed.

Lemma prepared_detrended c k :
  group_values k keys (Task3.detrended c out)
  = detrend Task3.ROLL_WINDOW (group_values k keys (Task3.imputed c out)).
Proof.
  pose proof (prepared_imputed_length c) as Hl.
  destruct c; apply group_values_detrended_column; now symmetry.
Qed.

Lemma prepared_z_score c k :
  group_values k keys (Task3.z_score c out)
  = zscore_values (group_values k keys (Task3.detrended c out)).
Proof.
  pose proof (prepared_detrended_length c) as Hl.
  destruct c; apply group_values_z_column; now symmetry.
Qed.

Lemma prepared_z_score_length c :
  List.length (Task3.z_score c out) = List.length keys.
Proof. destruct c; apply z_column_length. Qed.

End Completed.

(** ** Forward fill, position by position *)

Lemma ffill_from_length last xs :
  List.length (ffill_from last xs) = List.length xs.
Proof.
  revert last; induction xs as [|[v|] r IH]; intros last; simpl; auto.
Qed.

Lemma ffill_from_observed last xs j v :
  nth_error xs j = Some (Some v) ->
  nth_error (ffill_from last xs) j = Some (Some v).
Proof.
  revert last j; induction xs as [|[x|] r IH]; intros last [|j]; simpl;
    try easy; auto.
Qed.

Lemma ffill_from_leading last xs j :
  (forall m, m <= j -> nth_error xs m = Some None) ->
  nth_error (ffill_from last xs) j = Some last.
Proof.
  revert j; induction xs as [|x r IH]; intros j H.
  - specialize (H 0 (Nat.le_0_l j)). discriminate.
  - assert (Hx : x = None)
      by (specialize (H 0 (Nat.le_0_l j)); simpl in H; congruence).
    subst. destruct j as [|j]; simpl; [reflexivity|].
    apply IH. intros m Hm. apply (H (S m)). lia.
Qed.

Lemma ffill_from_carried last xs i j v :
  i < j ->
  nth_error xs i = Some (Some v) ->
  (forall m, i < m <= j -> nth_error xs m = Some None) ->
  nth_error (ffill_from last xs) j = Some (Some v).
Proof.
  revert last i j; induction xs as [|x r IH]; intros last i j Hij Hi Hgap.
  - destruct i; discriminate.
  - destruct j as [|j]; [lia|].
    destruct i as [|i].
    + simpl in Hi. injection Hi as ->. simpl.
      apply ffill_from_leading. intros m Hm. apply (Hgap (S m)). lia.
    + simpl in Hi.
      assert (Hr : forall l', nth_error (ffill_from l' r) j = Some (Some v)).
      { intros l'. apply IH with (i := i); [lia|exact Hi|].
        intros m Hm. apply (Hgap (S m)). lia. }
      destruct x; simpl; apply Hr.
Qed.

(** ** Trailing windows *)

Lemma rolling_mean_nth w xs j :
  j < List.length xs ->
  nth_error (rolling_mean w xs) j = Some (mean (trailing w xs j)).
Proof.
  intros Hj. unfold rolling_mean.
  rewrite nth_error_map, nth_error_nth' with (d := 0) by now rewrite length_seq.
  now rewrite seq_nth.
Qed.

Lemma trailing_length (A : Type) w (xs : list A) j :
  j < List.length xs ->
  List.length (trailing w xs j) = Nat.min (S j) w.
Proof.
  intros Hj. unfold trailing. rewrite length_skipn, length_firstn. lia.
Qed.

Lemma trailing_nth (A : Type) w (xs : list A) j i :
  j < List.length xs -> i < Nat.min (S j) w ->
  nth_error (trailing w xs j) i = nth_error xs (S j - Nat.min (S j) w + i).
Proof.
  intros Hj Hi. unfold trailing.
  rewrite nth_error_skipn, nth_error_firstn.
  replace (S j - w + i) with (S j - Nat.min (S j) w + i) by lia.
  destruct (Nat.ltb_spec (S j - Nat.min (S j) w + i) (S j)); [reflexivity|lia].
Qed.

Lemma trailing_first (A : Type) w (x : A) r :
  1 <= w -> trailing w (x :: r) 0 = [x].
Proof.
  intros Hw. unfold trailing.
  replace (1 - w) with 0 by lia. reflexivity.
Qed.

Lemma mean_single (x : cell) : cell_eq (mean [x]) x.
Proof.
  destruct x as [q|]; simpl; [|exact I].
  unfold Qsum, Qcount; simpl. field.
Qed.

(** ** Groups are observed throughout or missing throughout *)

Lemma dropna_all_missing l : all_missing l -> dropna l = [].
Proof.
  induction 1 as [|x r Hx _ IH]; simpl; [easy|].
  destruct x; [discriminate|exact IH].
Qed.

Lemma dropna_nil l : dropna l = [] -> all_missing l.
Proof.
  induction l as [|[q|] r IH]; simpl; intros H; [constructor|discriminate|].
  constructor; [reflexivity|now apply IH].
Qed.


Lemma Qinsert_length x l : List.length (Qinsert x l) = S (List.length l).
Proof.
  induction l as [|y r IH]; simpl; [easy|].
  destruct (Qle_bool x y); simpl; auto.
Qed.

Lemma Qsort_length l : List.length (Qsort l) = List.length l.
Proof.
  induction l as [|x r IH]; simpl; [easy|].
  now rewrite Qinsert_length, IH.
Qed.

Lemma median_none l : median l = None -> dropna l = [].
Proof.
  unfold median. rewrite Qsort_length.
  destruct (dropna l) as [|q r]; [easy|]. simpl List.length.
  destruct (Nat.even (S (List.length r))); discriminate.
Qed.



Lemma trailing_incl (A : Type) w (xs : list A) j x :
  In x (trailing w xs j) -> In x xs.
Proof.
  unfold trailing. intros H.
  rewrite <- (firstn_skipn (S j) xs). apply in_or_app. left.
  rewrite <- (firstn_skipn (S j - w) (firstn (S j) xs)).
  apply in_or_app. now right.
Qed.


Lemma rolling_mean_missing w l :
  all_missing l -> all_missing (rolling_mean w l).
Proof.
  intros Hl. apply Forall_forall. intros y Hy.
  unfold rolling_mean in Hy. apply in_map_iff in Hy.
  destruct Hy as [j [<- Hj]].
  unfold mean. rewrite dropna_all_missing; [reflexivity|].
  apply Forall_forall. intros x Hx. apply trailing_incl in Hx.
  unfold all_missing in Hl. rewrite Forall_forall in Hl. now apply Hl.
Qed.


(** ** The z-score of a group *)

Lemma var0_some l v : var0 l = Some v -> dropna l <> [].
Proof. unfold var0. destruct (dropna l); easy. Qed.

(** Away from the fallback, the z-score is the real quotient. *)
Lemma zscore_values_quotient d :
  all_observed d \/ all_missing d ->
  is_zero (std0 d) = false -> is_nan (std0 d) = false ->
  exists m v,
    mean d = Some m /\ var0 d = Some v /\
    std0 d = Fin (sqrt (Q2R v)) /\ sqrt (Q2R v) <> 0%R /\
    zscore_values d
    = map (fun x => match x with
                    | Some q => Fin (Q2R (q - m) / sqrt (Q2R v))%R
                    | None => NaN
                    end) d
    /\ all_observed d.
Proof.
  intros Hu Hz Hn. unfold zscore_values. rewrite Hz, Hn. cbn [orb].
  unfold std0 in *.
  destruct (var0 d) as [v|] eqn:Ev; [|discriminate].
  pose proof (var0_some _ Ev) as Hne.
  assert (Hobs : all_observed d).
  { destruct Hu as [H|H]; [exact H|]. now apply dropna_all_missing in H. }
  unfold mean. destruct (dropna d) as [|q0 r] eqn:Ed; [easy|].
  set (m := (Qsum (q0 :: r) / Qcount (q0 :: r))%Q).
  unfold fsqrt in *. destruct (Qlt_bool v 0); [discriminate|].
  cbn [is_zero] in Hz. unfold Rzero_bool in Hz.
  destruct (Req_dec_T (sqrt (Q2R v)) 0) as [|Hs]; [discriminate|].
  exists m, v. repeat split; auto.
  apply map_ext_in. intros x Hx.
  unfold all_observed in Hobs. rewrite Forall_forall in Hobs.
  specialize (Hobs x Hx). destruct x as [q|]; [|discriminate].
  cbn [csub of_cell fdiv]. unfold Rzero_bool.
  destruct (Req_dec_T (sqrt (Q2R v)) 0); [contradiction|reflexivity].
Qed.

Lemma zscore_values_finite d :
  all_observed d \/ all_missing d ->
  Forall (fun z => is_finite z = true) (zscore_values d).
Proof.
  intros Hu.
  destruct (is_zero (std0 d)) eqn:Hz.
  - unfold zscore_values. rewrite Hz. cbn [orb].
    apply Forall_forall. intros z Hin. apply in_map_iff in Hin.
    now destruct Hin as [x [<- _]].
  - destruct (is_nan (std0 d)) eqn:Hn.
    + unfold zscore_values. rewrite Hz, Hn. cbn [orb].
      apply Forall_forall. intros z Hin. apply in_map_iff in Hin.
      now destruct Hin as [x [<- _]].
    + destruct (zscore_values_quotient Hu Hz Hn)
        as (m & v & _ & _ & _ & _ & -> & Hobs).
      apply Forall_forall. intros z Hin. apply in_map_iff in Hin.
      destruct Hin as [x [<- Hx]].
      unfold all_observed in Hobs. rewrite Forall_forall in Hobs.
      specialize (Hobs x Hx). now destruct x.
Qed.

(** ** A completed run, summarised *)

Lemma output_complete kind ts0 k0 t0 h0 :
  ts0 <> [] ->
  Task3.output kind {| Task3.csv_timestamp := Some ts0;
                       Task3.csv_sensor_id := Some k0;
                       Task3.csv_temperature := Some t0;
                       Task3.csv_humidity := Some h0 |}
  = Some (prepared_from kind ts0 k0 t0 h0).
Proof.
  intros Hne. unfold Task3.output.
  destruct (run_complete kind k0 t0 h0 Hne) as [w [-> Hs]]. exact Hs.
Qed.

Lemma output_groups kind csv out c k :
  Task3.output kind csv = Some out ->
  let keys := Task3.sensor_id out in
  let gv := fun col => group_values k keys col in
  gv (Task3.imputed c out) = impute_group (gv (Task3.raw c out))
  /\ gv (Task3.roll_mean c out)
     = rolling_mean Task3.ROLL_WINDOW (gv (Task3.imputed c out))
  /\ gv (Task3.detrended c out)
     = detrend Task3.ROLL_WINDOW (gv (Task3.imputed c out))
  /\ group_values k keys (Task3.z_score c out)
     = zscore_values (gv (Task3.detrended c out))
  /\ List.length (Task3.z_score c out) = List.length keys.
Proof.
  intros Hout. apply output_inv in Hout.
  destruct Hout as (ts0 & k0 & t0 & h0 & _ & _ & ->).
  cbv zeta. repeat split.
  - apply prepared_imputed.
  - apply prepared_roll_mean.
  - apply prepared_detrended.
  - apply prepared_z_score.
  - apply prepared_z_score_length.
Qed.


(** * From the input rows of a sensor to its rows in time order *)

Lemma group_values_filter (A : Type) k keys (col : list A) :
  group_values k keys col
  = map snd (filter (fun p => String.eqb (fst p) k) (combine keys col)).
Proof.
  revert col; induction keys as [|k' r IH]; intros [|v c]; simpl; try easy.
  destruct (String.eqb k' k); simpl; now rewrite IH.
Qed.

Lemma Permutation_filter_local (A : Type) (f : A -> bool) l l' :
  Permutation l l' -> Permutation (filter f l) (filter f l').
Proof.
  induction 1 as [|x l l' _ IH|x y l|l l' l'' _ IH1 _ IH2]; simpl.
  - constructor.
  - destruct (f x); [now constructor|exact IH].
  - destruct (f x), (f y); try apply Permutation_refl. apply perm_swap.
  - eapply perm_trans; eauto.
Qed.

Lemma take_seq (A : Type) (na : A) col :
  take na (seq 0 (List.length col)) col = col.
Proof.
  unfold take. apply nth_ext with (d := na) (d' := na).
  - now rewrite length_map, length_seq.
  - intros i Hi. rewrite length_map, length_seq in Hi.
    rewrite (nth_indep _ na (nth 0 col na)) by now rewrite length_map, length_seq.
    rewrite (map_nth (fun i => nth i col na)). now rewrite seq_nth.
Qed.

Lemma take_perm (A : Type) (na : A) indexer col :
  Permutation indexer (seq 0 (List.length col)) ->
  Permutation (take na indexer col) col.
Proof.
  intros H. rewrite <- (take_seq na col) at 2.
  unfold take. now apply Permutation_map.
Qed.

Lemma take_combine (A B : Type) (da : A) (db : B) indexer a b :
  List.length a = List.length b ->
  take (da, db) indexer (combine a b)
  = combine (take da indexer a) (take db indexer b).
Proof.
  intros Hl. unfold take.
  induction indexer as [|i r IH]; simpl; [easy|].
  now rewrite IH, combine_nth.
Qed.

Lemma group_values_sorted (X : Type) k keys (col : list (Z * X)) :
  StronglySorted (@by_time X) col ->
  StronglySorted (@by_time X) (group_values k keys col).
Proof.
  intros Hs. revert keys; induction Hs as [|x r Hr IH Hx]; intros [|k' ks];
    simpl; try constructor.
  destruct (String.eqb k' k); [|apply IH].
  constructor; [apply IH|].
  rewrite Forall_forall in *. intros y Hy. apply Hx.
  now apply group_values_incl in Hy.
Qed.

Lemma fst_injective_on (X : Type) (l : list (Z * X)) a b :
  NoDup (map fst l) -> In a l -> In b l -> fst a = fst b -> a = b.
Proof.
  induction l as [|x r IH]; simpl; [easy|].
  intros Hnd Ha Hb Hab. inversion Hnd as [|? ? Hnot Hnd']; subst.
  destruct Ha as [->|Ha], Hb as [->|Hb]; auto.
  - exfalso. apply Hnot. rewrite Hab. now apply in_map.
  - exfalso. apply Hnot. rewrite <- Hab. now apply in_map.
Qed.

(** Rows with pairwise distinct timestamps have one time order only. *)
Lemma sorted_perm_unique (X : Type) (l1 l2 : list (Z * X)) :
  StronglySorted (@by_time X) l1 -> StronglySorted (@by_time X) l2 ->
  Permutation l1 l2 -> NoDup (map fst l1) -> l1 = l2.
Proof.
  intros H1. revert l2; induction H1 as [|a r1 Hr1 IH Ha]; intros l2 H2 Hp Hnd.
  - now apply Permutation_nil in Hp.
  - destruct l2 as [|b r2].
    + apply Permutation_sym, Permutation_nil in Hp. discriminate.
    + inversion H2 as [|? ? Hr2 Hb]; subst.
      assert (Hab : a = b).
      { assert (Hbin : In b (a :: r1))
          by (eapply Permutation_in; [apply Permutation_sym, Hp | now left]).
        assert (Hain : In a (b :: r2))
          by (eapply Permutation_in; [exact Hp | now left]).
        apply (fst_injective_on (a :: r1)); auto; [now left|].
        rewrite Forall_forall in Ha, Hb.
        assert (fst a <= fst b)%Z
          by (destruct Hbin as [->|Hbin]; [lia | now apply Ha]).
        assert (fst b <= fst a)%Z
          by (destruct Hain as [->|Hain]; [lia | now apply Hb]).
        lia. }
      subst b. f_equal. apply IH; auto.
      * now apply Permutation_cons_inv in Hp.
      * now inversion Hnd.
Qed.

Lemma sorted_by_time (X : Type) (ts : list Z) (xs : list X) :
  List.length ts = List.length xs ->
  Sorted Z.le ts -> StronglySorted (@by_time X) (combine ts xs).
Proof.
  intros Hl Hs. apply Sorted_StronglySorted in Hs; [|intros x y z; apply Z.le_trans].
  revert xs Hl; induction Hs as [|t r Hr IH Ht]; intros [|x xs] Hl; simpl;
    try constructor; try discriminate.
  - apply IH. now injection Hl.
  - rewrite Forall_forall in *. intros [t' x'] Hin. unfold by_time; simpl.
    apply Ht. eapply in_combine_l; eauto.
Qed.

Lemma map_fst_combine (A B : Type) (a : list A) (b : list B) :
  List.length a = List.length b -> map fst (combine a b) = a.
Proof.
  revert b; induction a as [|x r IH]; intros [|y s]; simpl; try easy.
  intros [= Hl]. f_equal. now apply IH.
Qed.

Lemma map_snd_combine (A B : Type) (a : list A) (b : list B) :
  List.length a = List.length b -> map snd (combine a b) = b.
Proof.
  revert b; induction a as [|x r IH]; intros [|y s]; simpl; try easy.
  intros [= Hl]. f_equal. now apply IH.
Qed.

Lemma triples_split k keys ts t h :
  List.length keys = List.length ts -> List.length keys = List.length t ->
  List.length keys = List.length h ->
  let S := triples k keys ts t h in
  group_values k keys ts = map fst S
  /\ group_values k keys t = map (fun r => fst (snd r)) S
  /\ group_values k keys h = map (fun r => snd (snd r)) S
  /\ S = combine (group_values k keys ts)
                 (combine (group_values k keys t) (group_values k keys h)).
Proof.
  intros Lts Lt Lh S. unfold S, triples.
  rewrite !group_values_combine.
  assert (L1 : List.length (group_values k keys t)
               = List.length (group_values k keys h))
    by now apply group_values_length.
  assert (L2 : List.length (group_values k keys ts)
               = List.length (combine (group_values k keys t)
                                      (group_values k keys h))).
  { rewrite length_combine, <- L1, Nat.min_id. now apply group_values_length. }
  repeat split.
  - now rewrite map_fst_combine.
  - rewrite <- (map_map snd fst), map_snd_combine by exact L2.
    now rewrite map_fst_combine.
  - rewrite <- (map_map snd snd), map_snd_combine by exact L2.
    now rewrite map_snd_combine.
Qed.

Lemma triples_sorted_perm kind k ts ks t h :
  List.length ks = List.length ts -> List.length t = List.length ts ->
  List.length h = List.length ts ->
  let ix := argsort kind ts in
  let S := triples k (take EmptyString ix ks) (take 0%Z ix ts)
                   (take None ix t) (take None ix h) in
  StronglySorted (@by_time (cell * cell)) S
  /\ Permutation S (triples k ks ts t h).
Proof.
  intros Lk Lt Lh ix S. unfold S, triples. split.
  - apply group_values_sorted, sorted_by_time.
    + now rewrite length_combine, !take_length, Nat.min_id.
    + apply argsort_sorted.
  - rewrite <- take_combine with (da := @None Q) (db := @None Q) by lia.
    rewrite <- take_combine with (da := 0%Z) (db := (@None Q, @None Q))
      by (rewrite ?length_combine; lia).
    rewrite !group_values_filter.
    apply Permutation_map, Permutation_filter_local.
    rewrite <- take_combine with (da := EmptyString) (db := (0%Z, (None, None)))
      by (rewrite !length_combine; lia).
    apply take_perm.
    rewrite !length_combine.
    replace (Nat.min (List.length ks)
                     (Nat.min (List.length ts)
                              (Nat.min (List.length t) (List.length h))))
      with (List.length ts) by lia.
    apply argsort_perm.
Qed.

(** When the timestamps of a sensor are pairwise distinct, its rows in
    time order are determined by its input rows alone, whatever the
    sorting algorithm does with the rest of the table. *)
Lemma group_rows_of_input kind k ts1 k1 t1 h1 ts2 k2 t2 h2 :
  List.length k1 = List.length ts1 -> List.length t1 = List.length ts1 ->
  List.length h1 = List.length ts1 ->
  List.length k2 = List.length ts2 -> List.length t2 = List.length ts2 ->
  List.length h2 = List.length ts2 ->
  input_group_rows k ts1 k1 t1 h1 = input_group_rows k ts2 k2 t2 h2 ->
  NoDup (group_values k k1 ts1) ->
  group_rows k (prepared_from kind ts1 k1 t1 h1)
  = group_rows k (prepared_from kind ts2 k2 t2 h2).
Proof.
  intros Lk1 Lt1 Lh1 Lk2 Lt2 Lh2 Hin Hnd.
  unfold input_group_rows in Hin. injection Hin as Hts Ht Hh.
  destruct (triples_split k k1 ts1 t1 h1) as (E1 & _ & _ & I1); try lia.
  destruct (triples_split k k2 ts2 t2 h2) as (_ & _ & _ & I2); try lia.
  assert (Hin : triples k k1 ts1 t1 h1 = triples k k2 ts2 t2 h2)
    by (rewrite I1, I2, Hts, Ht, Hh; reflexivity).
  destruct (triples_sorted_perm kind k ts1 k1 t1 h1 Lk1 Lt1 Lh1) as [S1 P1].
  destruct (triples_sorted_perm kind k ts2 k2 t2 h2 Lk2 Lt2 Lh2) as [S2 P2].
  set (ix1 := argsort kind ts1) in *. set (ix2 := argsort kind ts2) in *.
  assert (Heq : triples k (take EmptyString ix1 k1) (take 0%Z ix1 ts1)
                        (take None ix1 t1) (take None ix1 h1)
                = triples k (take EmptyString ix2 k2) (take 0%Z ix2 ts2)
                          (take None ix2 t2) (take None ix2 h2)).
  { apply sorted_perm_unique; auto.
    - eapply perm_trans; [exact P1|]. rewrite Hin. now apply Permutation_sym.
    - eapply Permutation_NoDup.
      + apply Permutation_map, Permutation_sym, P1.
      + now rewrite <- E1. }
  unfold group_rows, prepared_from.
  cbn [Task3.sensor_id Task3.timestamp Task3.temperature_raw Task3.humidity_raw].
  fold ix1. fold ix2.
  destruct (triples_split k (take EmptyString ix1 k1) (take 0%Z ix1 ts1)
                          (take None ix1 t1) (take None ix1 h1))
    as (A1 & B1 & C1 & _); try (now rewrite !take_length).
  destruct (triples_split k (take EmptyString ix2 k2) (take 0%Z ix2 ts2)
                          (take None ix2 t2) (take None ix2 h2))
    as (A2 & B2 & C2 & _); try (now rewrite !take_length).
  now rewrite A1, B1, C1, A2, B2, C2, Heq.
Qed.

(** ** Degenerate groups *)

Lemma Qlt_bool_iff x y : Qlt_bool x y = true <-> (x < y)%Q.
Proof.
  unfold Qlt_bool. rewrite negb_true_iff.
  split; intros H.
  - apply Qnot_le_lt. intros Hle. apply Qle_bool_iff in Hle. congruence.
  - destruct (Qle_bool y x) eqn:E; [|reflexivity].
    apply Qle_bool_iff in E. exfalso. now apply (Qlt_not_le x y).
Qed.

Lemma Rzero_bool_true r : r = 0%R -> Rzero_bool r = true.
Proof. intros ->. unfold Rzero_bool. destruct (Req_dec_T 0 0); congruence. Qed.

Lemma Rzero_bool_false r : r <> 0%R -> Rzero_bool r = false.
Proof. intros H. unfold Rzero_bool. destruct (Req_dec_T r 0); congruence. Qed.

Lemma std0_zero d v :
  var0 d = Some v -> (v == 0)%Q -> is_zero (std0 d) = true.
Proof.
  intros Hv H0. unfold std0. rewrite Hv. unfold fsqrt.
  destruct (Qlt_bool v 0) eqn:E.
  - apply Qlt_bool_iff in E. lra.
  - cbn [is_zero]. apply Rzero_bool_true.
    rewrite (Qreals.Qeq_eqR _ _ H0).
    replace (Q2R 0) with 0%R by (unfold Q2R; simpl; lra).
    apply sqrt_0.
Qed.

Lemma fold_Qplus_const (l : list Q) (c a : Q) :
  Forall (fun q => (q == c)%Q) l ->
  (fold_left Qplus l a == a + c * Qcount l)%Q.
Proof.
  unfold Qcount.
  intros H. revert a; induction H as [|q r Hq _ IH]; intros a.
  - simpl. ring.
  - cbn [fold_left]. rewrite IH.
    change (List.length (q :: r)) with (S (List.length r)).
    rewrite Nat2Z.inj_succ. unfold Z.succ. rewrite inject_Z_plus, Hq. ring.
Qed.

Lemma Qsum_const (l : list Q) (c : Q) :
  Forall (fun q => (q == c)%Q) l -> (Qsum l == c * Qcount l)%Q.
Proof.
  intros H. unfold Qsum. rewrite (@fold_Qplus_const l c 0%Q H). ring.
Qed.

Lemma Qcount_pos (q : Q) (r : list Q) : (0 < Qcount (q :: r))%Q.
Proof.
  unfold Qcount. change 0%Q with (inject_Z 0). rewrite <- Zlt_Qlt.
  simpl List.length. lia.
Qed.

(** A group whose observed values are all equal has variance zero. *)
Lemma var0_const d c :
  dropna d <> [] -> Forall (fun q => (q == c)%Q) (dropna d) ->
  exists v, var0 d = Some v /\ (v == 0)%Q.
Proof.
  intros Hne Hc. unfold var0.
  destruct (dropna d) as [|q r] eqn:E; [easy|].
  eexists; split; [reflexivity|].
  pose proof (Qcount_pos q r) as Hn.
  set (n := Qcount (q :: r)) in *.
  assert (Havg : (Qsum (q :: r) / n == c)%Q).
  { rewrite (@Qsum_const _ c Hc). fold n. field. lra. }
  assert (Hsq : Forall (fun s => (s == 0)%Q)
                       (map (fun y => ((Qsum (q :: r) / n - y)
                                       * (Qsum (q :: r) / n - y))%Q) (q :: r))).
  { apply Forall_forall. intros s Hs. apply in_map_iff in Hs.
    destruct Hs as [y [<- Hy]]. rewrite Forall_forall in Hc.
    rewrite Havg, (Hc y Hy). ring. }
  rewrite (@Qsum_const _ 0%Q Hsq). field. fold n. lra.
Qed.

Lemma dropna_const d c :
  Forall (fun x => cell_eq x (Some c)) d ->
  Forall (fun q => (q == c)%Q) (dropna d).
Proof.
  induction 1 as [|x r Hx _ IH]; simpl; [constructor|].
  destruct x as [q|]; [|destruct Hx]. constructor; assumption.
Qed.

(** The z-scores of a group of constant detrended value are all 0.0. *)
Lemma zscore_values_constant d c :
  Forall (fun x => cell_eq x (Some c)) d ->
  zscore_values d = map (fun _ => Fin 0%R) d.
Proof.
  intros Hc. destruct d as [|x r]; [unfold zscore_values; now destruct (_ || _)|].
  assert (Hne : dropna (x :: r) <> []).
  { inversion Hc as [|? ? Hx _]; subst. destruct x; [simpl; discriminate|destruct Hx]. }
  destruct (@var0_const (x :: r) c Hne (@dropna_const (x :: r) c Hc)) as [v [Hv H0]].
  unfold zscore_values. now rewrite (@std0_zero (x :: r) v Hv H0).
Qed.

(** ** The stable algorithm keeps ties in input order *)

Lemma before_stable_le ts i j :
  before_stable ts i j -> (nth i ts 0 <= nth j ts 0)%Z.
Proof. intros [H|[H _]]; lia. Qed.

Lemma arg_insert_in before ts i l x :
  In x (arg_insert before ts i l) -> x = i \/ In x l.
Proof.
  intros H. apply (Permutation_in _ (arg_insert_perm before ts i l)) in H.
  destruct H; auto.
Qed.

Lemma arg_insert_stable ts i l :
  StronglySorted (before_stable ts) l ->
  Forall (fun j => i < j) l ->
  StronglySorted (before_stable ts) (arg_insert Z.leb ts i l).
Proof.
  induction 1 as [|j r Hr IH Hj]; intros Hlt; simpl.
  - repeat constructor.
  - inversion Hlt as [|? ? Hij Hlt']; subst.
    destruct (Z.leb_spec (nth i ts 0%Z) (nth j ts 0%Z)) as [Hle|Hgt].
    + constructor; [now constructor|].
      assert (Hall : Forall (fun x => (nth j ts 0 <= nth x ts 0)%Z) (j :: r)).
      { constructor; [lia|]. rewrite Forall_forall in *. intros x Hx.
        now apply before_stable_le, Hj. }
      rewrite Forall_forall in *. intros x Hx.
      specialize (Hall x Hx). specialize (Hlt x Hx).
      unfold before_stable. lia.
    + constructor; [now apply IH|].
      rewrite Forall_forall in *. intros x Hx.
      apply arg_insert_in in Hx. destruct Hx as [->|Hx]; [|now apply Hj].
      left. lia.
Qed.

Lemma insertion_argsort_stable_from ts s m :
  StronglySorted (before_stable ts)
                 (fold_right (arg_insert Z.leb ts) [] (seq s m)).
Proof.
  revert s; induction m as [|m IH]; intros s; simpl; [constructor|].
  apply arg_insert_stable; [apply IH|].
  apply Forall_forall. intros x Hx.
  assert (Hp : Permutation (fold_right (arg_insert Z.leb ts) [] (seq (S s) m))
                           (seq (S s) m)).
  { clear. generalize (seq (S s) m) as l. induction l as [|i l IH]; simpl.
    - constructor.
    - eapply perm_trans; [apply arg_insert_perm | now apply perm_skip]. }
  apply (Permutation_in _ Hp) in Hx. apply in_seq in Hx. lia.
Qed.

Lemma strongly_sorted_nth (A : Type) (R : A -> A -> Prop) (d : A) l a b :
  StronglySorted R l -> a < b < List.length l -> R (nth a l d) (nth b l d).
Proof.
  intros Hs. revert a b; induction Hs as [|x r Hr IH Hx]; intros a b Hab.
  - simpl in Hab. lia.
  - destruct b as [|b]; [lia|]. destruct a as [|a]; simpl in *.
    + rewrite Forall_forall in Hx. apply Hx, nth_In. lia.
    + apply IH. lia.
Qed.

Lemma stable_kind_keeps_ties ts :
  ties_keep_input_order ts (argsort stable_kind ts).
Proof.
  intros a b Hab Heq.
  pose proof (insertion_argsort_stable_from ts 0 (List.length ts)) as Hs.
  change (argsort stable_kind ts)
    with (fold_right (arg_insert Z.leb ts) [] (seq 0 (List.length ts))) in *.
  pose proof (@strongly_sorted_nth nat (before_stable ts) 0 _ a b Hs Hab) as HR.
  destruct HR as [Hlt|[_ Hlt]]; [lia|exact Hlt].
Qed.

(** ** The model on concrete groups *)

Example zscore_constant_group :
  zscore_values [Some 5; Some 5; Some 5]%Q = [Fin 0%R; Fin 0%R; Fin 0%R].
Proof.
  apply zscore_values_constant with (c := 5%Q). repeat constructor; reflexivity.
Qed.

Example zscore_all_missing :
  zscore_values [None; None] = [Fin 0%R; Fin 0%R].
Proof. reflexivity. Qed.

Example zscore_two_rows :
  zscore_values [Some 0; Some (1 # 2)]%Q = [Fin (-1)%R; Fin 1%R].
Proof.
  assert (Hs : std0 [Some 0; Some (1 # 2)]%Q = Fin (/ 4)%R).
  { unfold std0.
    replace (var0 [Some 0; Some (1 # 2)]%Q) with (Some (128 # 2048)%Q)
      by reflexivity.
    unfold fsqrt. replace (Qlt_bool (128 # 2048) 0) with false by reflexivity.
    f_equal.
    replace (Q2R (128 # 2048)) with (/ 4 * / 4)%R by (unfold Q2R; simpl; lra).
    apply sqrt_square. lra. }
  unfold zscore_values. rewrite Hs. cbn [is_zero is_nan].
  rewrite Rzero_bool_false by lra. cbn [orb map].
  replace (mean [Some 0; Some (1 # 2)]%Q) with (Some (1 # 4)%Q) by reflexivity.
  cbn [csub of_cell fdiv]. rewrite Rzero_bool_false by lra.
  repeat f_equal; unfold Q2R; simpl; lra.
Qed.

(** The sample table, column by column (values up to the representation
    of the rationals). *)
Example sample_prepared :
  Task3.timestamp sample_out = [1; 2; 3; 4; 5; 6; 7]%Z
  /\ Task3.sensor_id sample_out = ["A"; "B"; "A"; "A"; "A"; "A"; "B"]%string
  /\ Task3.sensor_label sample_out = [0; 1; 0; 0; 0; 0; 1]
  /\ Task3.temperature_raw sample_out
     = [None; Some 7; Some 22; Some 21; None; Some 30; None]%Q
  /\ cells_eqb (Task3.temperature sample_out)
               [Some (43 # 2); Some 7; Some 22; Some 21; Some 21; Some 30;
                Some 7]%Q = true
  /\ cells_eqb (Task3.temperature_roll_mean sample_out)
               [Some (43 # 2); Some 7; Some (87 # 4); Some (43 # 2);
                Some (171 # 8); Some (231 # 10); Some 7]%Q = true
  /\ cells_eqb (Task3.temperature_detrended sample_out)
               [Some 0; Some 0; Some (1 # 4); Some (-1 # 2); Some (-3 # 8);
                Some (69 # 10); Some 0]%Q = true
  /\ cells_eqb (Task3.humidity sample_out)
               [Some 40; None; Some 40; Some 40; Some 40; Some 44; None]%Q
     = true
  /\ cells_eqb (Task3.humidity_detrended sample_out)
               [Some 0; None; Some 0; Some 0; Some 0; Some (16 # 5); None]%Q
     = true.
Proof. repeat split; vm_compute; reflexivity. Qed.

(** * Task 3: the properties of the prepared table *)

Lemma sample_output : Task3.output stable_kind sample_csv = Some sample_out.
Proof. apply output_complete. discriminate. Qed.

(** * Task 3: the z-scores in binary64 *)

Section ZScores.

Local Open Scope float_scope.

Lemma zscore_b64_index g : index (Task3_b64.zscore g) = index g.
Proof.
  unfold Task3_b64.zscore, index. destruct (_ || _); rewrite map_map; reflexivity.
Qed.

Lemma zscore_b64_values g :
  values (Task3_b64.zscore g)
  = let t_mean := Binary64.nanmean (values g) in
    let t_std := Binary64.nanstd0 (values g) in
    if (t_std =? 0) || Binary64.isnan t_std
    then map (fun _ => 0) (values g)
    else map (fun x => (x - t_mean) / t_std) (values g).
Proof.
  unfold Task3_b64.zscore, values. cbv zeta.
  destruct (_ || _); rewrite !map_map; reflexivity.
Qed.

Lemma zscore_loop_b64_from keys td hd gs zt zh :
  fold_left (Task3_b64.zscore_step keys td hd) gs (zt, zh)
  = (fold_left (fun z k => loc_set (Task3_b64.zscore (get_group k keys td)) z) gs zt,
     fold_left (fun z k => loc_set (Task3_b64.zscore (get_group k keys hd)) z) gs zh).
Proof.
  revert zt zh; induction gs as [|g r IH]; intros zt zh; simpl; [easy|].
  unfold Task3_b64.zscore_step at 2. simpl. apply IH.
Qed.

Lemma group_values_zscore_b64 k keys det :
  List.length keys = List.length det ->
  group_values k keys
    (fold_left (fun z k' => loc_set (Task3_b64.zscore (get_group k' keys det)) z)
               (group_keys keys) (repeat PrimFloat.nan (List.length keys)))
  = values (Task3_b64.zscore (get_group k keys det)).
Proof.
  intros Hl.
  apply (@group_values_fold_loc_set float keys
           (fun k' => Task3_b64.zscore (get_group k' keys det))).
  - intros k'. rewrite zscore_b64_index. now apply get_group_index.
  - exact PrimFloat.nan.
  - apply repeat_length.
  - apply group_keys_in.
Qed.

(** C1 (amended).  For every sensor and for temperature as for humidity,
    in the arithmetic of the script: when the population standard deviation
    of the sensor's detrended values is 0 or NaN, every row of the sensor
    gets the z-score 0.0; otherwise every row gets (detrended - mean) / std.
    The z-score columns have one entry per row. *)
Theorem C1_zscore_fallback_and_quotient :
  forall keys temperature_detrended humidity_detrended,
    List.length temperature_detrended = List.length keys ->
    List.length humidity_detrended = List.length keys ->
    forall (c : Task3.value_column) k,
      let detrended :=
        match c with
        | Task3.Temperature => temperature_detrended
        | Task3.Humidity => humidity_detrended
        end in
      let z_score :=
        match c with
        | Task3.Temperature =>
            Task3_b64.temperature_z keys temperature_detrended humidity_detrended
        | Task3.Humidity =>
            Task3_b64.humidity_z keys temperature_detrended humidity_detrended
        end in
      let d := group_values k keys detrended in
      let z := group_values k keys z_score in
      let group_mean := Binary64.nanmean d in
      let group_std := Binary64.nanstd0 d in
      ((group_std =? 0) = true \/ Binary64.isnan group_std = true ->
       z = map (fun _ => 0) d)
      /\ ((group_std =? 0) = false -> Binary64.isnan group_std = false ->
          z = map (fun x => (x - group_mean) / group_std) d)
      /\ List.length z = List.length d
      /\ List.length z_score = List.length keys.
Proof.
  intros keys td hd Lt Lh c k detrended z_score d z group_mean group_std.
  assert (Hz : z = values (Task3_b64.zscore (get_group k keys detrended))).
  { unfold z, z_score, detrended, Task3_b64.temperature_z,
      Task3_b64.humidity_z, Task3_b64.zscore_loop.
    rewrite zscore_loop_b64_from.
    destruct c; cbn [fst snd]; apply group_values_zscore_b64; now symmetry. }
  assert (Hd : values (get_group k keys detrended) = d).
  { apply get_group_values. unfold detrended. destruct c; now symmetry. }
  rewrite zscore_b64_values, Hd in Hz. cbv zeta in Hz.
  fold group_mean group_std in Hz.
  repeat match goal with |- _ /\ _ => split end.
  - intros [H|H]; rewrite Hz, H; [reflexivity|].
    now rewrite orb_true_r.
  - intros H1 H2. now rewrite Hz, H1, H2.
  - rewrite Hz. destruct (_ || _); apply length_map.
  - unfold z_score, Task3_b64.temperature_z, Task3_b64.humidity_z,
      Task3_b64.zscore_loop.
    rewrite zscore_loop_b64_from.
    destruct c; cbn [fst snd];
      rewrite fold_loc_set_length; apply repeat_length.
Qed.

Lemma C1_zscore_witness :
  group_values "A"%string ["A"; "B"; "A"; "A"]%string
    (Task3_b64.temperature_z ["A"; "B"; "A"; "A"]%string
                             [0; 0; 1; -1] [0; 0; 0; 0])
  = map (fun x => (x - 0) / 0.81649658092772603) [0; 1; -1]
  /\ group_values "A"%string ["A"; "B"; "A"; "A"]%string
       (Task3_b64.humidity_z ["A"; "B"; "A"; "A"]%string
                             [0; 0; 1; -1] [0; 0; 0; 0])
     = [0; 0; 0].
Proof.
  pose proof (@C1_zscore_fallback_and_quotient
                ["A"; "B"; "A"; "A"]%string [0; 0; 1; -1] [0; 0; 0; 0]
                eq_refl eq_refl) as H.
  split.
  - exact (proj1 (proj2 (H Task3.Temperature "A"%string)) eq_refl eq_refl).
  - exact (proj1 (H Task3.Humidity "A"%string) (or_introl eq_refl)).
Defined.

(** C1, as stated, fails: a sensor with the detrended values 0, 1.5e308,
    1e308 (those of the readings -1.5e308, 1.5e308, 1.5e308) has a mean and
    a standard deviation that overflow to infinity; the guard of line 99
    lets an infinite std through, and the quotient is NaN on every row. *)
Lemma C1_zscore_not_finite_when_std_overflows :
  Binary64.nanmean [0; 1.5e308; 1e308] = infinity
  /\ Binary64.nanstd0 [0; 1.5e308; 1e308] = infinity
  /\ ((infinity =? 0) || Binary64.isnan infinity) = false
  /\ Task3_b64.temperature_z ["A"; "A"; "A"]%string
                             [0; 1.5e308; 1e308] [0; 0; 0]
     = [PrimFloat.nan; PrimFloat.nan; PrimFloat.nan]
  /\ Forall (fun z => PrimFloat.is_finite z = false)
            (Task3_b64.temperature_z ["A"; "A"; "A"]%string
                                     [0; 1.5e308; 1e308] [0; 0; 0]).
Proof.
  repeat match goal with |- _ /\ _ => split end; try (vm_compute; reflexivity).
  repeat constructor.
Qed.

(** The detrended values of that group are those of the readings -1.5e308,
    1.5e308, 1.5e308 of a sensor, whose rolling means are -1.5e308, 0 and
    5e307: in exact arithmetic, and in binary64 with the window summed from
    its first row on. *)
Example overflowing_group_detrended :
  Forall2 cell_eq
    (detrend Task3.ROLL_WINDOW
             [Some (-1.5e308); Some 1.5e308; Some 1.5e308]%Q)
    [Some 0; Some 1.5e308; Some 1e308]%Q
  /\ [- 1.5e308 - (- 1.5e308) / 1;
      1.5e308 - (- 1.5e308 + 1.5e308) / 2;
      1.5e308 - (- 1.5e308 + 1.5e308 + 1.5e308) / 3]
     = [0; 1.5e308; 1e308].
Proof.
  split; [|vm_compute; reflexivity].
  repeat constructor; vm_compute; reflexivity.
Qed.

End ZScores.

(** C2.  For every sensor and value column the imputed values of the
    sensor are its forward-filled values with the median of those filled
    values wherever the fill left a gap: an observed value is kept, a
    missing one takes the last observed value before it in the same sensor,
    and a missing one with nothing observed before it takes that median;
    readings [20, NaN, 22, 21, NaN] become [20, 20, 22, 21, 21]. *)
Theorem C2_imputation_ffill_then_median :
  forall kind csv out c k,
    Task3.output kind csv = Some out ->
    let keys := Task3.sensor_id out in
    let xs := group_values k keys (Task3.raw c out) in
    let ys := group_values k keys (Task3.imputed c out) in
    ys = map (fun v => if isnull v then median (ffill xs) else v) (ffill xs)
    /\ (forall j v, nth_error xs j = Some (Some v) ->
                    nth_error ys j = Some (Some v))
    /\ (forall i j v,
           i < j -> nth_error xs i = Some (Some v) ->
           (forall m, i < m <= j -> nth_error xs m = Some None) ->
           nth_error ys j = Some (Some v))
    /\ (forall j,
           (forall m, m <= j -> nth_error xs m = Some None) ->
           nth_error ys j = Some (median (ffill xs)))
    /\ Task3.impute ["A"; "A"; "A"; "A"; "A"]%string
                    [Some 20; None; Some 22; Some 21; None]%Q
       = [Some 20; Some 20; Some 22; Some 21; Some 21]%Q.
Proof.
  intros kind csv out c k Hout keys xs ys.
  apply output_groups with (c := c) (k := k) in Hout.
  destruct Hout as (Hi & _). fold keys in Hi. fold xs in Hi. fold ys in Hi.
  unfold impute_group in Hi.
  split; [exact Hi|]. rewrite Hi.
  repeat split.
  - intros j v Hj. rewrite nth_error_map.
    unfold ffill. now rewrite (ffill_from_observed None xs j Hj).
  - intros i j v Hij Hv Hgap. rewrite nth_error_map.
    unfold ffill. now rewrite (ffill_from_carried None xs Hij Hv Hgap).
  - intros j Hlead. rewrite nth_error_map.
    now rewrite (ffill_from_leading None xs Hlead
                 : nth_error (ffill xs) j = Some None).
Qed.

Lemma C2_imputation_witness :
  nth_error (group_values "A" (Task3.sensor_id sample_out)
                          (Task3.imputed Task3.Humidity sample_out)) 2
  = Some (Some 40%Q).
Proof.
  refine (proj1 (proj2 (proj2 (C2_imputation_ffill_then_median
                                 stable_kind sample_csv Task3.Humidity "A"
                                 sample_output)))
                1 2 40%Q _ _ _).
  - lia.
  - reflexivity.
  - intros m Hm. assert (m = 2) as -> by lia. reflexivity.
Defined.

(** C3.  For every sensor and value column the rolling mean of the sensor
    is, row by row, the mean of the trailing window of its imputed values:
    the window ends at the row and holds min(j+1, window) rows, so it
    shrinks down to one row at the start; the first rolling mean of a
    sensor equals its first imputed value; and imputed
    [20, 20, 22, 21, 21] with window 3 gives [20, 20, 62/3, 21, 64/3],
    printed [20, 20, 20.67, 21, 21.33]. *)
Theorem C3_rolling_mean_trailing_window :
  forall kind csv out c k,
    Task3.output kind csv = Some out ->
    let keys := Task3.sensor_id out in
    let xs := group_values k keys (Task3.imputed c out) in
    let rs := group_values k keys (Task3.roll_mean c out) in
    rs = rolling_mean Task3.ROLL_WINDOW xs
    /\ (forall j, j < List.length xs ->
          nth_error rs j = Some (mean (trailing Task3.ROLL_WINDOW xs j))
          /\ List.length (trailing Task3.ROLL_WINDOW xs j)
             = Nat.min (S j) Task3.ROLL_WINDOW
          /\ forall i, i < Nat.min (S j) Task3.ROLL_WINDOW ->
               nth_error (trailing Task3.ROLL_WINDOW xs j) i
               = nth_error xs (S j - Nat.min (S j) Task3.ROLL_WINDOW + i))
    /\ (forall x, nth_error xs 0 = Some x ->
          exists r, nth_error rs 0 = Some r /\ cell_eq r x)
    /\ Forall2 cell_eq
         (rolling_mean 3 [Some 20; Some 20; Some 22; Some 21; Some 21]%Q)
         [Some 20; Some 20; Some (62 # 3); Some 21; Some (64 # 3)]%Q
    /\ Forall2 within_half_cent
         (rolling_mean 3 [Some 20; Some 20; Some 22; Some 21; Some 21]%Q)
         [20; 20; 20.67; 21; 21.33]%Q.
Proof.
  intros kind csv out c k Hout keys xs rs.
  apply output_groups with (c := c) (k := k) in Hout.
  destruct Hout as (_ & Hr & _). fold keys in Hr. fold xs in Hr. fold rs in Hr.
  split; [exact Hr|]. rewrite Hr. split; [|split; [|split]].
  - intros j Hj. split; [now apply rolling_mean_nth|].
    split; [now apply trailing_length|].
    intros i Hi. now apply trailing_nth.
  - intros x Hx. destruct xs as [|x0 r]; [discriminate|].
    injection Hx as ->.
    exists (mean (trailing Task3.ROLL_WINDOW (x :: r) 0)). split.
    + apply rolling_mean_nth. simpl. lia.
    + rewrite trailing_first by (unfold Task3.ROLL_WINDOW; lia).
      apply mean_single.
  - repeat constructor; vm_compute; reflexivity.
  - repeat constructor; vm_compute; discriminate.
Qed.

Lemma C3_rolling_mean_witness :
  exists r,
    nth_error (group_values "A" (Task3.sensor_id sample_out)
                            (Task3.roll_mean Task3.Temperature sample_out)) 0
    = Some r
    /\ cell_eq r (Some (43 # 2)%Q).
Proof.
  refine (proj1 (proj2 (proj2 (C3_rolling_mean_trailing_window
                                 stable_kind sample_csv Task3.Temperature "A"
                                 sample_output)))
                (Some (43 # 2)%Q) _).
  reflexivity.
Defined.

(** C4 (amended).  No leakage between sensors: when two input tables hold
    the same rows for a sensor in the time order in which the script
    processes them, the imputed, rolling-mean, detrended and z-score columns
    agree on the rows of that sensor, whatever the other sensors hold.  That
    order is fixed by the input rows of the sensor (values and relative
    order) as soon as their timestamps are pairwise distinct. *)
Theorem C4_no_cross_group_leakage :
  forall kind csv1 csv2 out1 out2 k,
    Task3.output kind csv1 = Some out1 ->
    Task3.output kind csv2 = Some out2 ->
    (group_rows k out1 = group_rows k out2 ->
     forall c, group_derived c k out1 = group_derived c k out2)
    /\ (forall ts1 k1 t1 h1 ts2 k2 t2 h2,
          csv1 = {| Task3.csv_timestamp := Some ts1;
                    Task3.csv_sensor_id := Some k1;
                    Task3.csv_temperature := Some t1;
                    Task3.csv_humidity := Some h1 |} ->
          csv2 = {| Task3.csv_timestamp := Some ts2;
                    Task3.csv_sensor_id := Some k2;
                    Task3.csv_temperature := Some t2;
                    Task3.csv_humidity := Some h2 |} ->
          List.length k1 = List.length ts1 ->
          List.length t1 = List.length ts1 ->
          List.length h1 = List.length ts1 ->
          List.length k2 = List.length ts2 ->
          List.length t2 = List.length ts2 ->
          List.length h2 = List.length ts2 ->
          input_group_rows k ts1 k1 t1 h1 = input_group_rows k ts2 k2 t2 h2 ->
          NoDup (group_values k k1 ts1) ->
          forall c, group_derived c k out1 = group_derived c k out2).
Proof.
  intros kind csv1 csv2 out1 out2 k H1 H2.
  assert (Hmain : group_rows k out1 = group_rows k out2 ->
                  forall c, group_derived c k out1 = group_derived c k out2).
  { intros Hrows c.
    pose proof H1 as G1. pose proof H2 as G2.
    apply output_groups with (c := c) (k := k) in G1.
    apply output_groups with (c := c) (k := k) in G2.
    destruct G1 as (Hi1 & Hr1 & Hd1 & Hz1 & _).
    destruct G2 as (Hi2 & Hr2 & Hd2 & Hz2 & _).
    unfold group_rows in Hrows. injection Hrows as _ Ht Hh.
    assert (Hraw : group_values k (Task3.sensor_id out1) (Task3.raw c out1)
                   = group_values k (Task3.sensor_id out2) (Task3.raw c out2))
      by (destruct c; assumption).
    unfold group_derived.
    rewrite Hz1, Hz2, Hd1, Hd2, Hr1, Hr2, Hi1, Hi2, Hraw. reflexivity. }
  split; [exact Hmain|].
  intros ts1 k1 t1 h1 ts2 k2 t2 h2 -> -> Lk1 Lt1 Lh1 Lk2 Lt2 Lh2 Hin Hnd.
  apply Hmain.
  apply output_inv in H1. apply output_inv in H2.
  destruct H1 as (? & ? & ? & ? & [= <- <- <- <-] & _ & ->).
  destruct H2 as (? & ? & ? & ? & [= <- <- <- <-] & _ & ->).
  now apply group_rows_of_input.
Qed.

Lemma other_output : Task3.output stable_kind other_csv = Some other_out.
Proof. apply output_complete. discriminate. Qed.

Lemma C4_no_leakage_witness :
  group_derived Task3.Temperature "A" sample_out
  = group_derived Task3.Temperature "A" other_out
  /\ group_derived Task3.Humidity "A" sample_out
     = group_derived Task3.Humidity "A" other_out.
Proof.
  pose proof (@C4_no_cross_group_leakage
                stable_kind sample_csv other_csv sample_out other_out
                "A"%string sample_output other_output) as [Hsorted Hinput].
  split.
  - apply Hsorted. reflexivity.
  - apply (Hinput sample_ts sample_keys sample_temperature sample_humidity
                  other_csv_ts other_csv_keys other_csv_temperature
                  other_csv_humidity); try reflexivity.
    repeat (constructor; [simpl; intuition discriminate|]). constructor.
Defined.

Lemma first_tied_output :
  Task3.output numpy_kind first_tied_csv
  = Some (prepared_from numpy_kind tied_ts first_tied_keys
                        first_tied_temperature (repeat (Some 50%Q) 18)).
Proof. apply output_complete. discriminate. Qed.

Lemma second_tied_output :
  Task3.output numpy_kind second_tied_csv
  = Some (prepared_from numpy_kind tied_ts second_tied_keys
                        second_tied_temperature (repeat (Some 50%Q) 18)).
Proof. apply output_complete. discriminate. Qed.

(** C4, as stated, fails: the two tables hold the same rows of sensor A in
    the same order, and the sort of line 33 hands them to the per-sensor
    steps in input order in the first table and in reverse order in the
    second, so the derived columns of sensor A differ. *)
Lemma C4_tied_rows_follow_the_rest_of_the_table :
  input_group_rows "A" tied_ts first_tied_keys first_tied_temperature
                   (repeat (Some 50%Q) 18)
  = input_group_rows "A" tied_ts second_tied_keys second_tied_temperature
                     (repeat (Some 50%Q) 18)
  /\ exists out1 out2,
      Task3.output numpy_kind first_tied_csv = Some out1
      /\ Task3.output numpy_kind second_tied_csv = Some out2
      /\ group_values "A" (Task3.sensor_id out1) (Task3.temperature out1)
         = [Some 1; Some 3]%Q
      /\ group_values "A" (Task3.sensor_id out2) (Task3.temperature out2)
         = [Some 3; Some 1]%Q
      /\ group_derived Task3.Temperature "A" out1
         <> group_derived Task3.Temperature "A" out2.
Proof.
  split; [reflexivity|].
  eexists. eexists.
  split; [apply first_tied_output|]. split; [apply second_tied_output|].
  assert (E1 : group_values "A"
                 (Task3.sensor_id
                    (prepared_from numpy_kind tied_ts first_tied_keys
                       first_tied_temperature (repeat (Some 50%Q) 18)))
                 (Task3.temperature
                    (prepared_from numpy_kind tied_ts first_tied_keys
                       first_tied_temperature (repeat (Some 50%Q) 18)))
               = [Some 1; Some 3]%Q) by (vm_compute; reflexivity).
  assert (E2 : group_values "A"
                 (Task3.sensor_id
                    (prepared_from numpy_kind tied_ts second_tied_keys
                       second_tied_temperature (repeat (Some 50%Q) 18)))
                 (Task3.temperature
                    (prepared_from numpy_kind tied_ts second_tied_keys
                       second_tied_temperature (repeat (Some 50%Q) 18)))
               = [Some 3; Some 1]%Q) by (vm_compute; reflexivity).
  split; [exact E1|]. split; [exact E2|].
  intros H.
  apply (f_equal (fun p => fst (fst (fst p)))) in H.
  unfold group_derived in H. cbn [fst Task3.imputed] in H.
  rewrite E1, E2 in H. discriminate.
Qed.

Lemma factorize_from_length seen keys :
  List.length (factorize_from seen keys) = List.length keys.
Proof.
  revert seen; induction keys as [|k r IH]; intros seen; simpl; [easy|].
  destruct (code_of k seen); simpl; now rewrite IH.
Qed.

(** * Reading the timestamps *)

Lemma to_datetime_parsed ts : to_datetime (map Some ts) = Some ts.
Proof. induction ts as [|t r IH]; simpl; [easy|]. now rewrite IH. Qed.

Lemma to_datetime_inv col ts : to_datetime col = Some ts -> col = map Some ts.
Proof.
  revert ts; induction col as [|[t|] r IH]; simpl; intros ts.
  - now intros [= <-].
  - destruct (to_datetime r) as [ts'|]; [|discriminate].
    intros [= <-]. simpl. now rewrite (IH ts').
  - discriminate.
Qed.

Lemma to_datetime_rejects col :
  to_datetime col = None <-> In None col.
Proof.
  induction col as [|[t|] r IH]; simpl.
  - split; [discriminate | intros []].
  - destruct (to_datetime r); simpl.
    + split; [discriminate|]. intros [H|H]; [discriminate|].
      now apply IH in H.
    + split; [|reflexivity]. intros _. right. now apply IH.
  - split; auto.
Qed.

Lemma run_file_parsed kind stamps ts k0 t0 h0 :
  to_datetime stamps = Some ts ->
  Task3.run_file kind {| Task3.file_timestamp := Some stamps;
                         Task3.file_sensor_id := k0;
                         Task3.file_temperature := t0;
                         Task3.file_humidity := h0 |}
  = Task3.run kind {| Task3.csv_timestamp := Some ts;
                      Task3.csv_sensor_id := k0;
                      Task3.csv_temperature := t0;
                      Task3.csv_humidity := h0 |}.
Proof.
  intros H. unfold Task3.run_file, Task3.main_file, Task3.run.
  cbn [Task3.file_timestamp]. now rewrite H.
Qed.

Lemma run_file_unparsed kind stamps k0 t0 h0 :
  to_datetime stamps = None ->
  Task3.run_file kind {| Task3.file_timestamp := Some stamps;
                         Task3.file_sensor_id := k0;
                         Task3.file_temperature := t0;
                         Task3.file_humidity := h0 |}
  = ({| stdout := ["Loading iot_sensor.csv"%string]; lineno := 32;
        saved := None |}, inl DateParseError).
Proof.
  intros H. unfold Task3.run_file, Task3.main_file.
  cbn [Task3.file_timestamp]. now rewrite H.
Qed.

Lemma task2_run_file_parsed kind dates ds p0 v0 :
  to_datetime dates = Some ds ->
  Task2.run_file kind {| Task2.file_date := Some dates;
                         Task2.file_closing_price := p0;
                         Task2.file_volume := v0 |}
  = Task2.run kind {| Task2.csv_date := Some ds;
                      Task2.csv_closing_price := p0;
                      Task2.csv_volume := v0 |}.
Proof.
  intros H. unfold Task2.run_file, Task2.main_file, Task2.run.
  cbn [Task2.file_date]. now rewrite H.
Qed.

Lemma task2_run_file_unparsed kind dates p0 v0 :
  to_datetime dates = None ->
  Task2.run_file kind {| Task2.file_date := Some dates;
                         Task2.file_closing_price := p0;
                         Task2.file_volume := v0 |}
  = ({| stdout := ["Loading financial_data.csv"%string]; lineno := 35;
        saved := None |}, inl DateParseError).
Proof.
  intros H. unfold Task2.run_file, Task2.main_file.
  cbn [Task2.file_date]. now rewrite H.
Qed.

(** C5 (amended).  On a file with its four columns, at least one row and
    timestamps that all parse, the run completes and writes exactly one row
    per input row: the output row at position i is the input row at
    position indexer[i] for a permutation of the input positions, every
    column has the input's row count, and the timestamps of the output
    ascend; the output stays in that order.  Which of two rows with the same
    timestamp comes first is left to the sorting algorithm.  When a
    timestamp does not parse, line 32 raises and nothing is written. *)
Theorem C5_one_row_per_input_row_time_sorted :
  forall kind stamps k0 t0 h0,
    stamps <> [] ->
    let file := {| Task3.file_timestamp := Some stamps;
                   Task3.file_sensor_id := Some k0;
                   Task3.file_temperature := Some t0;
                   Task3.file_humidity := Some h0 |} in
    (forall ts0,
        to_datetime stamps = Some ts0 ->
        exists out indexer,
          Task3.output_file kind file = Some out
          /\ Permutation indexer (seq 0 (List.length ts0))
          /\ Task3.timestamp out = take 0%Z indexer ts0
          /\ Task3.sensor_id out = take EmptyString indexer k0
          /\ Task3.temperature_raw out = take None indexer t0
          /\ Task3.humidity_raw out = take None indexer h0
          /\ Sorted Z.le (Task3.timestamp out)
          /\ List.length (Task3.timestamp out) = List.length stamps
          /\ List.length (Task3.sensor_id out) = List.length stamps
          /\ List.length (Task3.sensor_label out) = List.length stamps
          /\ (forall c,
                 List.length (Task3.raw c out) = List.length stamps
                 /\ List.length (Task3.imputed c out) = List.length stamps
                 /\ List.length (Task3.roll_mean c out) = List.length stamps
                 /\ List.length (Task3.detrended c out) = List.length stamps
                 /\ List.length (Task3.z_score c out) = List.length stamps))
    /\ (to_datetime stamps = None ->
        exists w,
          Task3.run_file kind file = (w, inl DateParseError)
          /\ lineno w = 32 /\ saved w = None
          /\ Task3.output_file kind file = None).
Proof.
  intros kind stamps k0 t0 h0 Hne file. split.
  - intros ts0 Hp.
    assert (Hl : List.length stamps = List.length ts0)
      by (rewrite (to_datetime_inv _ Hp); apply length_map).
    assert (Hne0 : ts0 <> [])
      by (intros ->; destruct stamps; [easy | discriminate]).
    exists (prepared_from kind ts0 k0 t0 h0), (argsort kind ts0).
    pose proof (prepared_keys_length kind ts0 k0 t0 h0) as Hk.
    split.
    { unfold Task3.output_file, file. rewrite (@run_file_parsed kind _ _ _ _ _ Hp).
      now apply output_complete. }
    rewrite Hl.
    repeat split; try reflexivity.
    + apply argsort_perm.
    + apply argsort_sorted.
    + cbn. now rewrite take_length, argsort_length.
    + exact Hk.
    + cbn. unfold factorize. rewrite factorize_from_length.
      now rewrite take_length, argsort_length.
    + now rewrite prepared_raw_length.
    + now rewrite prepared_imputed_length.
    + destruct c; exact (eq_trans (reassemble_length _ _) Hk).
    + now rewrite prepared_detrended_length.
    + now rewrite prepared_z_score_length.
  - intros Hp. eexists. unfold Task3.output_file, file.
    rewrite (@run_file_unparsed kind _ _ _ _ Hp). repeat split.
Qed.

Lemma C5_time_sorted_witness :
  exists out,
    Task3.output_file stable_kind sample_file = Some out
    /\ Sorted Z.le (Task3.timestamp out)
    /\ List.length (Task3.timestamp out) = 7.
Proof.
  destruct (proj1 (@C5_one_row_per_input_row_time_sorted
                     stable_kind (map Some sample_ts) sample_keys
                     sample_temperature sample_humidity
                     ltac:(discriminate))
                  sample_ts eq_refl)
    as (out & indexer & Ho & _ & _ & _ & _ & _ & Hs & Hl & _).
  exists out. auto.
Defined.

(** C5, as stated, fails: of eighteen rows with the same timestamp the
    default sort of line 33 writes the second to the sixteenth in reverse
    order. *)
Lemma C5_ties_not_kept_in_input_order :
  Task3.file_temperature tied_file
  = Some [Some 0; Some 1; Some 2; Some 3; Some 4; Some 5; Some 6; Some 7;
          Some 8; Some 9; Some 10; Some 11; Some 12; Some 13; Some 14;
          Some 15; Some 16; Some 17]%Q
  /\ option_map Task3.temperature_raw (Task3.output_file numpy_kind tied_file)
     = Some [Some 0; Some 15; Some 14; Some 13; Some 12; Some 11; Some 10;
             Some 9; Some 8; Some 7; Some 6; Some 5; Some 4; Some 3; Some 2;
             Some 1; Some 16; Some 17]%Q
  /\ option_map Task3.timestamp (Task3.output_file numpy_kind tied_file)
     = Some (repeat 0%Z 18)
  /\ ~ ties_keep_input_order tied_ts (argsort numpy_kind tied_ts).
Proof.
  split; [reflexivity|].
  unfold Task3.output_file, tied_file.
  rewrite (@run_file_parsed numpy_kind _ _ _ _ _ (to_datetime_parsed tied_ts)).
  fold (Task3.output numpy_kind
          {| Task3.csv_timestamp := Some tied_ts;
             Task3.csv_sensor_id := Some (repeat "A"%string 18);
             Task3.csv_temperature := Some tied_temperature;
             Task3.csv_humidity := Some (repeat (Some 50%Q) 18) |}).
  rewrite output_complete by discriminate.
  split; [vm_compute; reflexivity|]. split; [vm_compute; reflexivity|].
  intros H. specialize (H 1 2).
  assert (E : argsort numpy_kind tied_ts
              = [0; 15; 14; 13; 12; 11; 10; 9; 8; 7; 6; 5; 4; 3; 2; 1; 16; 17])
    by (vm_compute; reflexivity).
  rewrite E in H. cbn in H.
  assert (15 < 14) by (apply H; [lia | reflexivity]). lia.
Qed.

(** A timestamp that does not parse ends the run at line 32. *)
Example unparsed_timestamp_raises :
  Task3.run_file numpy_kind bad_stamp_file
  = ({| stdout := ["Loading iot_sensor.csv"%string]; lineno := 32;
        saved := None |}, inl DateParseError).
Proof. reflexivity. Qed.

(** Two rows with the same timestamp go through the insertion sort alone
    and keep their order. *)
Example two_tied_rows_keep_their_order :
  option_map Task3.sensor_id (Task3.output numpy_kind tie_csv)
  = Some ["A"; "B"]%string.
Proof. unfold tie_csv. rewrite output_complete by discriminate. reflexivity. Qed.

(** C6 (amended).  On an input table with zero rows the script raises:
    there is no sensor group, so the list of per-group rolling means is
    empty and [pd.concat] at line 83 fails with ValueError; nothing is
    written. *)
Theorem C6_zero_rows_raise_value_error :
  forall kind csv,
    Task3.csv_timestamp csv = Some [] ->
    Task3.csv_sensor_id csv <> None ->
    Task3.csv_temperature csv <> None ->
    Task3.csv_humidity csv <> None ->
    exists w,
      Task3.run kind csv = (w, inl (ValueError "No objects to concatenate"))
      /\ lineno w = 83
      /\ saved w = None
      /\ Task3.output kind csv = None.
Proof.
  intros kind [ts [k0|] [t0|] [h0|]] Hts Hk Ht Hh; cbn in *; try congruence.
  subst ts.
  destruct (run_no_rows kind k0 t0 h0) as [w [Hrun [Hs Hl]]].
  exists w. unfold Task3.output. rewrite Hrun. auto.
Qed.

Lemma C6_zero_rows_witness :
  exists w,
    Task3.run stable_kind empty_csv
    = (w, inl (ValueError "No objects to concatenate"))
    /\ lineno w = 83
    /\ saved w = None
    /\ Task3.output stable_kind empty_csv = None.
Proof.
  apply C6_zero_rows_raise_value_error; [reflexivity | discriminate ..].
Defined.

(** C6, as stated, fails: the run on the empty table ends in an exception
    at line 83, after four banner lines, with no table written. *)
Lemma C6_empty_table_throws :
  Task3.run stable_kind empty_csv
  = ({| stdout :=
          ["Loading iot_sensor.csv";
           "Forward-filling missing values per sensor (groupby sensor_id)";
           "Missing values after imputation:";
           "Removing sensor drift using rolling mean (window=6)"]%string;
        lineno := 83;
        saved := None |},
     inl (ValueError "No objects to concatenate")).
Proof. reflexivity. Qed.

(** C7 (amended).  When the group-key column or a value column is absent
    the script fails with the KeyError of the first absent column it reads
    (timestamp at line 32, temperature and humidity at line 37, sensor_id at
    line 46) and writes no output.  The failure comes where the column is
    first read, not before any computation: when the timestamps are there,
    it comes after the sort of line 33, and for an absent sensor_id after
    the numeric coercion and the forward-filling banner as well. *)
Theorem C7_missing_column_raises_key_error :
  forall kind csv,
    Task3.csv_sensor_id csv = None \/ Task3.csv_temperature csv = None
    \/ Task3.csv_humidity csv = None ->
    exists w name line,
      first_missing csv = Some (name, line)
      /\ Task3.run kind csv = (w, inl (KeyError name))
      /\ lineno w = line
      /\ (Task3.csv_timestamp csv <> None -> 33 < line)
      /\ saved w = None
      /\ Task3.output kind csv = None
      /\ (name = "sensor_id"%string ->
          stdout w
          = ["Loading iot_sensor.csv";
             "Forward-filling missing values per sensor (groupby sensor_id)"]%string).
Proof.
  intros kind [[ts|] [k0|] [t0|] [h0|]] H; cbn in H;
    try (exfalso; destruct H as [H|[H|H]]; discriminate);
    unfold Task3.output, Task3.run, Task3.main, first_missing;
    cbn [bind getitem print at_line ret raise fst snd saved stdout lineno start
         Task3.sort_values option_map Task3.csv_timestamp Task3.csv_sensor_id
         Task3.csv_temperature Task3.csv_humidity];
    eexists; eexists; eexists; (split; [reflexivity|]);
    (split; [reflexivity|]); (split; [reflexivity|]);
    (split; [intros Hts; try lia; now exfalso|]);
    (split; [reflexivity|]); (split; [reflexivity|]);
    intros Hn; try discriminate Hn; reflexivity.
Qed.

Lemma C7_missing_column_witness :
  exists w name line,
    first_missing no_sensor_csv = Some (name, line)
    /\ Task3.run stable_kind no_sensor_csv = (w, inl (KeyError name))
    /\ lineno w = line
    /\ (Task3.csv_timestamp no_sensor_csv <> None -> 33 < line)
    /\ saved w = None
    /\ Task3.output stable_kind no_sensor_csv = None
    /\ (name = "sensor_id"%string ->
        stdout w
        = ["Loading iot_sensor.csv";
           "Forward-filling missing values per sensor (groupby sensor_id)"]%string).
Proof.
  apply C7_missing_column_raises_key_error. left. reflexivity.
Defined.

(** C7, as stated, fails: without sensor_id the run raises a KeyError, and
    it does so at line 46, after the sort and the coercion, once the
    forward-filling banner is out. *)
Lemma C7_key_error_after_sorting :
  Task3.run stable_kind no_sensor_csv
  = ({| stdout :=
          ["Loading iot_sensor.csv";
           "Forward-filling missing values per sensor (groupby sensor_id)"]%string;
        lineno := 46;
        saved := None |},
     inl (KeyError "sensor_id")).
Proof. reflexivity. Qed.

(** * Task 2: the properties of the preprocessed table *)

(** With its three columns present the script runs to the end, whatever
    the cells hold. *)
Lemma task2_run_complete kind d0 p0 v0 :
  exists w,
    Task2.run kind {| Task2.csv_date := Some d0;
                      Task2.csv_closing_price := Some p0;
                      Task2.csv_volume := Some v0 |} = (w, inr tt)
    /\ saved w = Some (preprocessed_from kind d0 p0 v0).
Proof.
  unfold Task2.run, Task2.main;
    cbn [bind getitem print at_line ret raise to_csv fst snd saved stdout
         lineno start
         Task2.sort_values option_map Task2.csv_date Task2.csv_closing_price
         Task2.csv_volume].
  eexists; split; reflexivity.
Qed.

Lemma task2_output_inv kind csv out :
  Task2.output kind csv = Some out ->
  exists d0 p0 v0,
    csv = {| Task2.csv_date := Some d0;
             Task2.csv_closing_price := Some p0;
             Task2.csv_volume := Some v0 |}
    /\ out = preprocessed_from kind d0 p0 v0.
Proof.
  unfold Task2.output.
  destruct csv as [[d0|] [p0|] [v0|]];
    try (unfold Task2.run, Task2.main;
         cbn [bind getitem print at_line ret raise to_csv fst snd saved stdout
         lineno start
              Task2.sort_values option_map Task2.csv_date
              Task2.csv_closing_price Task2.csv_volume];
         discriminate).
  destruct (task2_run_complete kind d0 p0 v0) as [w [-> Hs]].
  cbn [fst]. rewrite Hs. intros [= <-]. now exists d0, p0, v0.
Qed.

(** ** Lagged returns *)

Lemma shift_length periods xs : List.length (shift periods xs) = List.length xs.
Proof.
  unfold shift. rewrite length_firstn, length_app, repeat_length. lia.
Qed.

Lemma shift_nth periods xs i :
  periods <= i -> i < List.length xs ->
  nth_error (shift periods xs) i = nth_error xs (i - periods).
Proof.
  intros Hp Hi. unfold shift.
  rewrite nth_error_firstn.
  destruct (Nat.ltb_spec i (List.length xs)); [|lia].
  rewrite nth_error_app2 by (rewrite repeat_length; lia).
  now rewrite repeat_length.
Qed.

Lemma nth_error_combine (A B : Type) (a : list A) (b : list B) i x y :
  nth_error a i = Some x -> nth_error b i = Some y ->
  nth_error (combine a b) i = Some (x, y).
Proof.
  revert b i; induction a as [|a0 r IH]; intros [|b0 s] [|i]; simpl;
    try discriminate.
  - now intros [= ->] [= ->].
  - apply IH.
Qed.

Lemma pct_change_nth periods data i x y :
  periods <= i ->
  nth_error data i = Some x ->
  nth_error data (i - periods) = Some y ->
  nth_error (pct_change periods data) i = Some (esub (cdiv x y) (Fin 1%Q)).
Proof.
  intros Hp Hx Hy.
  assert (Hi : i < List.length data) by (apply nth_error_Some; congruence).
  assert (Hs : nth_error (shift periods data) i = Some y)
    by (rewrite shift_nth; assumption).
  unfold pct_change.
  now rewrite nth_error_map, (nth_error_combine _ _ _ Hx Hs).
Qed.

Lemma cdiv_by_zero_inf x z :
  ~ (x == 0)%Q -> (z == 0)%Q ->
  is_inf (esub (cdiv (Some x) (Some z)) (Fin 1%Q)) = true.
Proof.
  intros Hx Hz. unfold cdiv, Qzero_bool.
  rewrite (proj2 (Qeq_bool_iff z 0) Hz).
  destruct (Qeq_bool x 0) eqn:E.
  - apply Qeq_bool_iff in E. contradiction.
  - now destruct (Qlt_bool 0 x).
Qed.

(** ** Quantiles of a sorted sample *)






Section Interpolation.

Variable ys : list Q.
Hypothesis ys_sorted : StronglySorted Qle ys.
Hypothesis ys_nonempty : 1 <= List.length ys.





End Interpolation.


(** ** Outlier flags *)


Lemma prices_output : Task2.output stable_kind prices_csv = Some prices_out.
Proof. reflexivity. Qed.

Example prices_outliers :
  Task2.is_outlier prices_out = [false; false; false; true; false].
Proof. reflexivity. Qed.

(** * Binary64: comparisons *)



Section FloatOrder.

Local Open Scope float_scope.






End FloatOrder.

(** * Task 2: the outlier flags in binary64 *)

Section OutlierFlags.

Local Open Scope float_scope.



End OutlierFlags.


(** The bounds are the binary64 values the script computes.  With the
    prices 0.8, 1.1, 1.2, 1.3, 1.4 the quartiles are 1.1 and 1.3, and the
    lower bound comes out just above 0.8, so the price 0.8 is flagged. *)
Example lower_bound_is_rounded :
  Task2_b64.lower [0.8; 1.1; 1.2; 1.3; 1.4]%float = 0.80000000000000016%float
  /\ Task2_b64.is_outlier [0.8; 1.1; 1.2; 1.3; 1.4]%float
     = [true; false; false; false; false].
Proof. split; vm_compute; reflexivity. Qed.

(** ** The log transform *)

(** C9 (amended).  The log transform maps a volume x to ln(1 + x) when
    x > -1, to a missing value (NaN) when x < -1 or when x is missing, and
    to minus infinity, which is not a missing value, when x = -1; the
    column volume_log is this transform of the volume column, and the run
    completes without an exception whatever the volumes are. *)
Theorem C9_log1p_domain :
  (forall x, (-1 < x)%Q -> log1p (Some x) = Fin (ln (1 + Q2R x)))
  /\ (forall x, (x < -1)%Q -> log1p (Some x) = NaN)
  /\ (forall x, (x == -1)%Q ->
        log1p (Some x) = NInf /\ is_missing (log1p (Some x)) = false)
  /\ log1p None = NaN
  /\ (forall kind csv out,
        Task2.output kind csv = Some out ->
        Task2.volume_log out = map log1p (Task2.volume out))
  /\ (forall kind d0 p0 v0,
        exists w,
          Task2.run kind {| Task2.csv_date := Some d0;
                            Task2.csv_closing_price := Some p0;
                            Task2.csv_volume := Some v0 |} = (w, inr tt)).
Proof.
  repeat split.
  - intros x Hx. unfold log1p.
    now rewrite (proj2 (Qlt_bool_iff (-1) x) Hx).
  - intros x Hx. unfold log1p.
    destruct (Qlt_bool (-1) x) eqn:E.
    + apply Qlt_bool_iff in E. lra.
    + destruct (Qeq_bool x (-1)) eqn:E'; [|reflexivity].
      apply Qeq_bool_iff in E'. lra.
  - unfold log1p.
    destruct (Qlt_bool (-1) x) eqn:E.
    + apply Qlt_bool_iff in E. lra.
    + now rewrite (proj2 (Qeq_bool_iff x (-1)) H).
  - unfold log1p.
    destruct (Qlt_bool (-1) x) eqn:E.
    + apply Qlt_bool_iff in E. lra.
    + now rewrite (proj2 (Qeq_bool_iff x (-1)) H).
  - intros kind csv out Hout. apply task2_output_inv in Hout.
    now destruct Hout as (d0 & p0 & v0 & _ & ->).
  - intros kind d0 p0 v0.
    destruct (task2_run_complete kind d0 p0 v0) as [w [Hw _]]. now exists w.
Qed.

Lemma C9_log1p_witness : log1p (Some (3 # 2)%Q) = Fin (ln (1 + Q2R (3 # 2))).
Proof.
  apply (proj1 C9_log1p_domain). reflexivity.
Defined.

(** C9, as stated, fails at x = -1: the result is minus infinity, which
    pandas does not count as missing, while x = -2 does give NaN. *)
Lemma C9_log1p_minus_one_not_missing :
  option_map Task2.volume_log (Task2.output stable_kind minus_one_csv)
  = Some [NInf; NaN]
  /\ is_missing (log1p (Some (-1)%Q)) = false.
Proof. split; reflexivity. Qed.

(** ** Returns *)

Lemma zero_price_output :
  Task2.output stable_kind zero_price_csv = Some zero_price_out.
Proof. reflexivity. Qed.

(** C10.  The division of the return features is unguarded: at a row past
    the first k rows whose price is non-zero while the price k rows earlier
    is 0, ret_k is an infinity, for k = 1 (ret_1d) and k = 7 (ret_7d). *)
Theorem C10_return_infinite_on_zero_price :
  forall kind csv out i q z,
    Task2.output kind csv = Some out ->
    let price := Task2.closing_price out in
    nth_error price i = Some (Some q) ->
    ~ (q == 0)%Q ->
    (z == 0)%Q ->
    (1 <= i -> nth_error price (i - 1) = Some (Some z) ->
     exists r, nth_error (Task2.ret_1d out) i = Some r /\ is_inf r = true)
    /\ (7 <= i -> nth_error price (i - 7) = Some (Some z) ->
        exists r, nth_error (Task2.ret_7d out) i = Some r /\ is_inf r = true).
Proof.
  intros kind csv out i q z Hout price Hq Hq0 Hz.
  apply task2_output_inv in Hout.
  destruct Hout as (d0 & p0 & v0 & _ & ->).
  split; intros Hi Hprev; eexists; split;
    try (apply (pct_change_nth _ Hi Hq Hprev));
    now apply cdiv_by_zero_inf.
Qed.

Lemma C10_return_infinite_witness :
  (exists r, nth_error (Task2.ret_1d zero_price_out) 1 = Some r
             /\ is_inf r = true)
  /\ (exists r, nth_error (Task2.ret_7d zero_price_out) 7 = Some r
                /\ is_inf r = true).
Proof.
  split.
  - refine (proj1 (C10_return_infinite_on_zero_price
                     stable_kind zero_price_csv 1 (q := 5%Q) (z := 0%Q)
                     zero_price_output eq_refl _ _) _ eq_refl).
    + discriminate.
    + reflexivity.
    + lia.
  - refine (proj2 (C10_return_infinite_on_zero_price
                     stable_kind zero_price_csv 7 (q := 6%Q) (z := 0%Q)
                     zero_price_output eq_refl _ _) _ eq_refl).
    + discriminate.
    + reflexivity.
    + lia.
Defined.

(** * Task 3: further properties of the prepared table *)

(** ** Imputation leaves no gap in a sensor that has a reading *)

Lemma ffill_from_dropna last xs :
  dropna xs <> [] -> dropna (ffill_from last xs) <> [].
Proof.
  revert last; induction xs as [|[v|] r IH]; intros last H; simpl in *.
  - contradiction.
  - discriminate.
  - destruct last; [discriminate|]. now apply IH.
Qed.

Lemma ffill_from_all_missing xs : all_missing xs -> ffill_from None xs = xs.
Proof.
  induction 1 as [|x r Hx Hr IH]; simpl; [reflexivity|].
  destruct x; [discriminate|]. now rewrite IH.
Qed.

Lemma impute_group_observed xs :
  dropna xs <> [] -> all_observed (impute_group xs).
Proof.
  intros H. unfold impute_group.
  destruct (median (ffill xs)) as [m|] eqn:E.
  - apply Forall_forall. intros y Hy.
    apply in_map_iff in Hy. destruct Hy as [v [<- _]]. now destruct v.
  - apply median_none in E. exfalso.
    now apply (ffill_from_dropna None xs H).
Qed.

Lemma impute_group_missing xs : all_missing xs -> impute_group xs = xs.
Proof.
  intros H. unfold impute_group, ffill.
  rewrite (ffill_from_all_missing H).
  assert (Hm : median xs = None).
  { unfold median. now rewrite (dropna_all_missing H). }
  rewrite Hm. unfold all_missing in H.
  induction H as [|x r Hx Hr IH]; simpl; [reflexivity|].
  rewrite Hx. destruct x; [discriminate|]. now rewrite IH.
Qed.

(** Two columns of a frame agree as soon as they agree on every group. *)
Lemma group_values_ext (A : Type) keys (a b : list A) :
  List.length a = List.length keys -> List.length b = List.length keys ->
  (forall k, group_values k keys a = group_values k keys b) -> a = b.
Proof.
  revert a b; induction keys as [|k r IH]; intros [|x a] [|y b] La Lb H;
    simpl in *; try discriminate; [reflexivity|].
  pose proof (H k) as Hk. rewrite String.eqb_refl in Hk.
  injection Hk as -> Hk. f_equal.
  apply IH; [lia | lia |].
  intros k'. specialize (H k').
  destruct (String.eqb k k'); [now injection H | exact H].
Qed.

Lemma series_sub_groups k keys a b :
  group_values k keys (series_sub a b)
  = series_sub (group_values k keys a) (group_values k keys b).
Proof.
  unfold series_sub. now rewrite group_values_map, group_values_combine.
Qed.

(** X1.  After the two passes of lines 46-53 a sensor that has at least one
    reading in a value column has no missing value left in it, and a sensor
    without any reading keeps its column as it was, all missing; so the
    imputed column of the table is complete as soon as every sensor has a
    reading. *)
Theorem imputation_fills_sensors_with_a_reading :
  forall kind csv out c,
    Task3.output kind csv = Some out ->
    let keys := Task3.sensor_id out in
    (forall k,
        let xs := group_values k keys (Task3.raw c out) in
        let ys := group_values k keys (Task3.imputed c out) in
        (dropna xs <> [] -> all_observed ys)
        /\ (dropna xs = [] -> ys = xs /\ all_missing ys))
    /\ ((forall k, In k keys ->
                   dropna (group_values k keys (Task3.raw c out)) <> []) ->
        all_observed (Task3.imputed c out)).
Proof.
  intros kind csv out c Hout keys.
  assert (G : forall k,
             group_values k keys (Task3.imputed c out)
             = impute_group (group_values k keys (Task3.raw c out))).
  { intros k. now apply output_groups with (c := c) (k := k) in Hout. }
  split.
  - intros k xs ys. unfold ys. rewrite G. fold xs. split.
    + apply impute_group_observed.
    + intros H. apply dropna_nil in H.
      rewrite (impute_group_missing H). now split.
  - intros Hall. apply Forall_forall. intros x Hx.
    assert (Hlen : List.length keys = List.length (Task3.imputed c out)).
    { apply output_inv in Hout.
      destruct Hout as (ts0 & k0 & t0 & h0 & _ & _ & ->).
      symmetry. apply prepared_imputed_length. }
    destruct (in_some_group keys (Task3.imputed c out) x Hlen Hx)
      as [k [Hk Hin]].
    rewrite G in Hin.
    pose proof (@impute_group_observed _ (Hall k Hk)) as Hobs.
    unfold all_observed in Hobs. rewrite Forall_forall in Hobs.
    now apply Hobs.
Qed.

Lemma imputation_fills_witness :
  all_observed (group_values "A" (Task3.sensor_id sample_out)
                             (Task3.imputed Task3.Humidity sample_out)).
Proof.
  refine (proj1 (proj1 (imputation_fills_sensors_with_a_reading
                          stable_kind sample_csv Task3.Humidity
                          sample_output) "A"%string) _).
  discriminate.
Defined.

(** X3.  On every row of the table the detrended column is the imputed value
    minus the rolling mean of the same row: putting the per-sensor pieces
    back with [pd.concat(...).sort_index()] keeps the four derived columns
    aligned with the rows they were computed from. *)
Theorem detrended_is_value_minus_rolling_mean :
  forall kind csv out c,
    Task3.output kind csv = Some out ->
    Task3.detrended c out
    = series_sub (Task3.imputed c out) (Task3.roll_mean c out)
    /\ List.length (Task3.detrended c out) = List.length (Task3.sensor_id out).
Proof.
  intros kind csv out c Hout.
  assert (G : forall k,
             group_values k (Task3.sensor_id out) (Task3.detrended c out)
             = group_values k (Task3.sensor_id out)
                 (series_sub (Task3.imputed c out) (Task3.roll_mean c out))).
  { intros k. pose proof Hout as H.
    apply output_groups with (c := c) (k := k) in H.
    destruct H as (_ & Hr & Hd & _).
    rewrite series_sub_groups, Hd, Hr. reflexivity. }
  apply output_inv in Hout.
  destruct Hout as (ts0 & k0 & t0 & h0 & _ & _ & ->).
  pose proof (prepared_detrended_length kind ts0 k0 t0 h0 c) as Ld.
  pose proof (prepared_imputed_length kind ts0 k0 t0 h0 c) as Li.
  assert (Lr : List.length (Task3.roll_mean c (prepared_from kind ts0 k0 t0 h0))
               = List.length (Task3.sensor_id (prepared_from kind ts0 k0 t0 h0)))
    by (destruct c; apply reassemble_length).
  split; [|exact Ld].
  apply group_values_ext with (keys := Task3.sensor_id (prepared_from kind ts0 k0 t0 h0));
    [exact Ld | | exact G].
  rewrite series_sub_length; congruence.
Qed.

Lemma detrended_is_value_minus_rolling_mean_witness :
  Task3.temperature_detrended sample_out
  = series_sub (Task3.temperature sample_out)
               (Task3.temperature_roll_mean sample_out).
Proof.
  exact (proj1 (detrended_is_value_minus_rolling_mean
                  stable_kind sample_csv Task3.Temperature sample_output)).
Defined.

(** ** Standard scaling *)

Lemma fold_Qplus_acc (l : list Q) (a : Q) :
  (fold_left Qplus l a == a + Qsum l)%Q.
Proof.
  unfold Qsum. revert a; induction l as [|x r IH]; intros a; simpl.
  - ring.
  - rewrite (IH (a + x)%Q), (IH (0 + x)%Q). ring.
Qed.










(** ** Label encoding *)

Lemma code_of_some k seen c : code_of k seen = Some c -> nth_error seen c = Some k.
Proof.
  revert c; induction seen as [|y r IH]; intros c; simpl; [discriminate|].
  destruct (String.eqb y k) eqn:E.
  - intros [= <-]. apply String.eqb_eq in E. now subst.
  - destruct (code_of k r) as [c'|]; [|discriminate].
    intros [= <-]. now apply IH.
Qed.

Lemma code_of_none k seen : code_of k seen = None -> ~ In k seen.
Proof.
  induction seen as [|y r IH]; simpl; [tauto|].
  destruct (String.eqb y k) eqn:E; [discriminate|].
  destruct (code_of k r); [discriminate|].
  intros _ [H|H].
  - subst. rewrite String.eqb_refl in E. discriminate.
  - now apply IH.
Qed.

Lemma uniques_from_prefix seen keys :
  exists rest, uniques_from seen keys = seen ++ rest.
Proof.
  revert seen; induction keys as [|k r IH]; intros seen; simpl.
  - exists []. now rewrite app_nil_r.
  - destruct (code_of k seen); [apply IH|].
    destruct (IH (seen ++ [k])) as [rest ->].
    exists (k :: rest). now rewrite <- app_assoc.
Qed.

Lemma uniques_from_NoDup seen keys :
  NoDup seen -> NoDup (uniques_from seen keys).
Proof.
  revert seen; induction keys as [|k r IH]; intros seen Hnd; simpl; [exact Hnd|].
  destruct (code_of k seen) eqn:E; [now apply IH|].
  apply IH. apply code_of_none in E.
  apply NoDup_app; [exact Hnd | repeat constructor; tauto |].
  intros x Hx [<-|[]]. contradiction.
Qed.

Lemma factorize_from_decodes seen keys i k :
  nth_error keys i = Some k ->
  exists c, nth_error (factorize_from seen keys) i = Some c
            /\ nth_error (uniques_from seen keys) c = Some k.
Proof.
  revert seen i; induction keys as [|k0 r IH]; intros seen [|i]; simpl;
    try discriminate.
  - intros [= ->]. destruct (code_of k seen) as [c|] eqn:E.
    + exists c. split; [reflexivity|].
      apply code_of_some in E.
      destruct (uniques_from_prefix seen r) as [rest ->].
      rewrite nth_error_app1; [exact E|].
      apply nth_error_Some. congruence.
    + exists (List.length seen). split; [reflexivity|].
      destruct (uniques_from_prefix (seen ++ [k]) r) as [rest ->].
      rewrite <- app_assoc. rewrite nth_error_app2 by lia.
      now rewrite Nat.sub_diag.
  - intros Hi. destruct (code_of k0 seen); now apply IH.
Qed.

Lemma factorize_from_onto seen keys c :
  List.length seen <= c < List.length (uniques_from seen keys) ->
  exists i, nth_error (factorize_from seen keys) i = Some c.
Proof.
  revert seen; induction keys as [|k r IH]; intros seen; simpl; [lia|].
  destruct (code_of k seen) eqn:E.
  - intros H. destruct (IH seen H) as [i Hi]. now exists (S i).
  - intros H. destruct (Nat.eq_dec c (List.length seen)) as [->|Hne].
    + now exists 0.
    + destruct (IH (seen ++ [k])) as [i Hi].
      * rewrite length_app. simpl. lia.
      * now exists (S i).
Qed.

Lemma factorize_from_in_order seen keys i c' :
  nth_error (factorize_from seen keys) i = Some c' ->
  forall c, List.length seen <= c < c' ->
            exists j, j < i /\ nth_error (factorize_from seen keys) j = Some c.
Proof.
  revert seen i; induction keys as [|k r IH]; intros seen i; simpl.
  - now destruct i.
  - destruct (code_of k seen) as [c0|] eqn:E.
    + destruct i as [|i]; simpl.
      * intros [= <-] c Hc. apply code_of_some in E.
        assert (c0 < List.length seen) by (apply nth_error_Some; congruence).
        lia.
      * intros Hi c Hc. destruct (IH seen i Hi c Hc) as [j [Hj Hcj]].
        exists (S j). split; [lia | exact Hcj].
    + destruct i as [|i]; simpl.
      * intros [= <-] c Hc. lia.
      * intros Hi c Hc.
        destruct (Nat.eq_dec c (List.length seen)) as [->|Hne].
        -- exists 0. split; [lia | reflexivity].
        -- destruct (IH (seen ++ [k]) i Hi c) as [j [Hj Hcj]].
           { rewrite length_app. simpl. lia. }
           exists (S j). split; [lia | exact Hcj].
Qed.

(** X5.  The integer labels of line 111 number the sensors in the order in
    which they first appear in the time-sorted table.  The label of a row
    decodes to the row's sensor id through the list of distinct ids, so two
    rows carry the same label exactly when they belong to the same sensor;
    the labels used are 0, 1, ..., m-1 without a hole for the m sensors; and
    a row carries a label only after every smaller label has appeared on an
    earlier row, so the first row is labelled 0. *)
Theorem sensor_labels_number_sensors_by_first_appearance :
  forall kind csv out,
    Task3.output kind csv = Some out ->
    let keys := Task3.sensor_id out in
    let labels := Task3.sensor_label out in
    NoDup (uniques keys)
    /\ (forall i k, nth_error keys i = Some k ->
          exists c, nth_error labels i = Some c
                    /\ nth_error (uniques keys) c = Some k)
    /\ (forall i j a b ki kj,
          nth_error keys i = Some ki -> nth_error keys j = Some kj ->
          nth_error labels i = Some a -> nth_error labels j = Some b ->
          (a = b <-> ki = kj))
    /\ (forall c, c < List.length (uniques keys) ->
          exists i, nth_error labels i = Some c)
    /\ (forall i c' c, nth_error labels i = Some c' -> c < c' ->
          exists j, j < i /\ nth_error labels j = Some c)
    /\ nth_error labels 0 = Some 0.
Proof.
  intros kind csv out Hout keys labels.
  assert (Hl : labels = factorize keys).
  { apply output_inv in Hout.
    now destruct Hout as (ts0 & k0 & t0 & h0 & _ & _ & ->). }
  assert (Hnd : NoDup (uniques keys))
    by (apply uniques_from_NoDup; constructor).
  assert (Hdec : forall i k, nth_error keys i = Some k ->
            exists c, nth_error labels i = Some c
                      /\ nth_error (uniques keys) c = Some k)
    by (intros i k Hk; rewrite Hl; now apply factorize_from_decodes).
  assert (Hord : forall i c' c, nth_error labels i = Some c' -> c < c' ->
            exists j, j < i /\ nth_error labels j = Some c).
  { intros i c' c Hi Hc. rewrite Hl in *.
    apply (factorize_from_in_order [] keys i Hi). simpl. lia. }
  split; [exact Hnd|]. split; [exact Hdec|].
  split; [|split; [|split; [exact Hord|]]].
  - intros i j a b ki kj Hki Hkj Ha Hb.
    destruct (Hdec i ki Hki) as (a' & Ha' & Hua).
    destruct (Hdec j kj Hkj) as (b' & Hb' & Hub).
    assert (a' = a) by congruence. assert (b' = b) by congruence. subst a' b'.
    split.
    + intros ->. congruence.
    + intros ->. rewrite <- Hub in Hua.
      apply (proj1 (NoDup_nth_error (uniques keys)) Hnd); [|exact Hua].
      apply nth_error_Some. congruence.
  - intros c Hc. rewrite Hl. apply factorize_from_onto. simpl.
    split; [lia | exact Hc].
  - assert (Hne : keys <> []).
    { apply output_inv in Hout.
      destruct Hout as (ts0 & k0 & t0 & h0 & _ & Hne & ->).
      pose proof (prepared_keys_length kind ts0 k0 t0 h0) as Hk.
      intros E. unfold keys in E. rewrite E in Hk.
      destruct ts0; [congruence|discriminate]. }
    destruct keys as [|k r] eqn:Ek; [congruence|].
    destruct (Hdec 0 k eq_refl) as (c & Hc & _).
    destruct c as [|c]; [exact Hc|].
    destruct (Hord 0 (S c) 0 Hc) as [j [Hj _]]; lia.
Qed.

Lemma sensor_labels_witness :
  exists c,
    nth_error (Task3.sensor_label sample_out) 1 = Some c
    /\ nth_error (uniques (Task3.sensor_id sample_out)) c = Some "B"%string.
Proof.
  apply (proj1 (proj2 (sensor_labels_number_sensors_by_first_appearance
                         stable_kind sample_csv sample_output)) 1 "B"%string).
  reflexivity.
Defined.

(** ** One-hot encoding *)

Lemma string_lt_trans a b c : string_lt a b -> string_lt b c -> string_lt a c.
Proof.
  apply (@RelationClasses.StrictOrder_Transitive _ _ String_as_OT.lt_strorder).
Qed.

Lemma string_lt_irrefl a : ~ string_lt a a.
Proof.
  apply (@RelationClasses.StrictOrder_Irreflexive _ _ String_as_OT.lt_strorder).
Qed.

Lemma key_insert_sorted k l :
  StronglySorted string_lt l -> StronglySorted string_lt (key_insert k l).
Proof.
  induction 1 as [|y r Hr IH Hy]; simpl.
  - repeat constructor.
  - destruct (String.compare k y) eqn:E.
    + now constructor.
    + constructor; [now constructor|].
      constructor; [exact E|].
      rewrite Forall_forall in *. intros x Hx.
      apply string_lt_trans with y; [exact E | now apply Hy].
    + constructor; [exact IH|].
      rewrite Forall_forall in *. intros x Hx.
      apply key_insert_in in Hx. destruct Hx as [->|Hx]; [|now apply Hy].
      unfold string_lt. rewrite String.compare_antisym, E. reflexivity.
Qed.

Lemma group_keys_sorted keys : StronglySorted string_lt (group_keys keys).
Proof.
  induction keys as [|k r IH]; simpl; [constructor|].
  now apply key_insert_sorted.
Qed.

Lemma sorted_string_NoDup l : StronglySorted string_lt l -> NoDup l.
Proof.
  induction 1 as [|y r Hr IH Hy]; constructor; [|exact IH].
  intros Hin. rewrite Forall_forall in Hy.
  exact (string_lt_irrefl (Hy y Hin)).
Qed.

Lemma append_inj p a b : String.append p a = String.append p b -> a = b.
Proof.
  induction p as [|c p IH]; simpl; [easy|].
  intros [= H]. now apply IH.
Qed.

Lemma NoDup_map_injective (A B : Type) (f : A -> B) l :
  (forall a b, f a = f b -> a = b) -> NoDup l -> NoDup (map f l).
Proof.
  intros Hf. induction 1 as [|x r Hx Hr IH]; simpl; constructor; [|exact IH].
  intros Hin. apply in_map_iff in Hin. destruct Hin as (y & Hy & Hin).
  apply Hf in Hy. now subst.
Qed.

(** X6.  The indicator columns of lines 112-113.  There is one column for
    each sensor that occurs, named "sensor_" followed by the id, and no
    name is repeated; each column has one entry per row; and on a row of
    sensor k the column of sensor k0 is True exactly when k0 = k, so every
    row has exactly one indicator set, that of its own sensor. *)
Theorem one_hot_marks_the_sensor_of_each_row :
  forall kind csv out,
    Task3.output kind csv = Some out ->
    let keys := Task3.sensor_id out in
    let cols := Task3.one_hot out in
    (forall name,
        In name (map fst cols)
        <-> exists k, In k keys /\ name = String.append "sensor_" k)
    /\ NoDup (map fst cols)
    /\ (forall name col, In (name, col) cols ->
          List.length col = List.length keys)
    /\ (forall i k, nth_error keys i = Some k ->
          (exists col, In (String.append "sensor_" k, col) cols
                       /\ nth_error col i = Some true)
          /\ forall k0 col, In (String.append "sensor_" k0, col) cols ->
               nth_error col i = Some (String.eqb k0 k)).
Proof.
  intros kind csv out Hout keys cols.
  assert (Hc : cols = get_dummies keys "sensor").
  { apply output_inv in Hout.
    now destruct Hout as (ts0 & k0 & t0 & h0 & _ & _ & ->). }
  rewrite Hc. unfold get_dummies.
  assert (Hin : forall k0 col,
             In (String.append "sensor_" k0, col)
                (map (fun k => (String.append "sensor" (String.append "_" k),
                                map (String.eqb k) keys)) (group_keys keys)) ->
             In k0 (group_keys keys) /\ col = map (String.eqb k0) keys).
  { intros k0 col H. apply in_map_iff in H.
    destruct H as (k1 & [= -> <-] & Hk1). now split. }
  split; [|split; [|split]].
  - intros name. rewrite map_map. cbn [fst]. rewrite in_map_iff. split.
    + intros (k & <- & Hk). exists k. split; [|reflexivity].
      now apply group_keys_in.
    + intros (k & Hk & ->). exists k. split; [reflexivity|].
      now apply group_keys_in.
  - rewrite map_map. cbn [fst].
    apply NoDup_map_injective.
    + intros a b. apply (append_inj "sensor_").
    + apply sorted_string_NoDup, group_keys_sorted.
  - intros name col H. apply in_map_iff in H.
    destruct H as (k1 & [= _ <-] & _). apply length_map.
  - intros i k Hk. split.
    + exists (map (String.eqb k) keys). split.
      * apply in_map_iff. exists k. split; [reflexivity|].
        apply group_keys_in. now apply nth_error_In with i.
      * rewrite nth_error_map, Hk. cbn. now rewrite String.eqb_refl.
    + intros k0 col H. apply Hin in H. destruct H as [_ ->].
      now rewrite nth_error_map, Hk.
Qed.

Lemma one_hot_witness :
  exists col,
    In ("sensor_B"%string, col) (Task3.one_hot sample_out)
    /\ nth_error col 1 = Some true.
Proof.
  apply (proj1 (proj2 (proj2 (proj2
           (one_hot_marks_the_sensor_of_each_row
              stable_kind sample_csv sample_output))) 1 "B"%string eq_refl)).
Defined.

(** * Sorting by time when the instants are pairwise distinct *)

Lemma combine_take_self (ts : list Z) (l : list nat) :
  combine (take 0%Z l ts) l = map (fun i => (nth i ts 0%Z, i)) l.
Proof.
  unfold take. induction l as [|i r IH]; simpl; [reflexivity|].
  now rewrite IH.
Qed.

(** With pairwise distinct keys there is a single indexer that sorts. *)
Lemma indexer_unique (ts : list Z) (l1 l2 : list nat) :
  NoDup ts ->
  Permutation l1 (seq 0 (List.length ts)) ->
  Permutation l2 (seq 0 (List.length ts)) ->
  Sorted Z.le (take 0%Z l1 ts) -> Sorted Z.le (take 0%Z l2 ts) ->
  l1 = l2.
Proof.
  intros Hnd P1 P2 S1 S2.
  assert (E : combine (take 0%Z l1 ts) l1 = combine (take 0%Z l2 ts) l2).
  { apply sorted_perm_unique.
    - apply sorted_by_time; [apply take_length | exact S1].
    - apply sorted_by_time; [apply take_length | exact S2].
    - rewrite !combine_take_self. apply Permutation_map.
      now rewrite P1, P2.
    - rewrite map_fst_combine by apply take_length.
      apply Permutation_NoDup with ts; [|exact Hnd].
      symmetry. now apply take_perm. }
  apply (f_equal (map snd)) in E.
  now rewrite !map_snd_combine in E by apply take_length.
Qed.

Lemma argsort_unique kind1 kind2 ts :
  NoDup ts -> argsort kind1 ts = argsort kind2 ts.
Proof.
  intros Hnd.
  apply indexer_unique with ts; auto using argsort_perm, argsort_sorted.
Qed.

Lemma strictly_sorted_NoDup (ts : list Z) : StronglySorted Z.lt ts -> NoDup ts.
Proof.
  induction 1 as [|x r Hr IH Hx]; constructor; [|exact IH].
  intros Hin. rewrite Forall_forall in Hx. specialize (Hx x Hin). lia.
Qed.

Lemma strictly_sorted_le (ts : list Z) : StronglySorted Z.lt ts -> Sorted Z.le ts.
Proof.
  intros H. apply StronglySorted_Sorted.
  induction H as [|x r Hr IH Hx]; constructor; [exact IH|].
  rewrite Forall_forall in *. intros y Hy. specialize (Hx y Hy). lia.
Qed.

Lemma argsort_sorted_input kind ts :
  StronglySorted Z.lt ts -> argsort kind ts = seq 0 (List.length ts).
Proof.
  intros Hs. apply indexer_unique with ts.
  - now apply strictly_sorted_NoDup.
  - apply argsort_perm.
  - reflexivity.
  - apply argsort_sorted.
  - rewrite take_seq. now apply strictly_sorted_le.
Qed.

(** X8.  The default sort of lines 33 (task3.py) and 36 (task2.py) leaves
    the order of rows with equal keys to the algorithm; when the timestamps
    (dates) of the table are pairwise distinct nothing is left open: the
    whole run, its printed lines, its exception if any and the table it
    writes, is the same for every sorting algorithm. *)
Theorem distinct_instants_make_the_run_independent_of_the_sort :
  forall kind1 kind2,
    (forall csv,
        (forall ts, Task3.csv_timestamp csv = Some ts -> NoDup ts) ->
        Task3.run kind1 csv = Task3.run kind2 csv)
    /\ (forall csv,
          (forall ds, Task2.csv_date csv = Some ds -> NoDup ds) ->
          Task2.run kind1 csv = Task2.run kind2 csv).
Proof.
  intros kind1 kind2. split.
  - intros [[ts|] k0 t0 h0] H; [|reflexivity].
    unfold Task3.run, Task3.main.
    cbn [bind getitem print at_line ret Task3.csv_timestamp].
    now rewrite (argsort_unique kind1 kind2 (H ts eq_refl)).
  - intros [[ds|] p0 v0] H; [|reflexivity].
    unfold Task2.run, Task2.main.
    cbn [bind getitem print at_line ret Task2.csv_date].
    now rewrite (argsort_unique kind1 kind2 (H ds eq_refl)).
Qed.

Lemma distinct_instants_witness :
  Task3.run stable_kind sample_csv = Task3.run numpy_kind sample_csv.
Proof.
  apply (proj1 (distinct_instants_make_the_run_independent_of_the_sort
                  stable_kind numpy_kind)).
  intros ts [= <-]. unfold sample_ts.
  repeat (constructor; [simpl; intuition discriminate|]). constructor.
Defined.

(** X9.  A table that is already in strictly ascending time order is
    processed in place: row i of the written table is row i of the input,
    for the sensor readings of task3.py as for the prices of task2.py. *)
Theorem table_in_time_order_keeps_its_rows :
  forall kind ts0,
    StronglySorted Z.lt ts0 ->
    ts0 <> [] ->
    (forall k0 t0 h0,
        List.length k0 = List.length ts0 ->
        List.length t0 = List.length ts0 ->
        List.length h0 = List.length ts0 ->
        exists out,
          Task3.output kind {| Task3.csv_timestamp := Some ts0;
                               Task3.csv_sensor_id := Some k0;
                               Task3.csv_temperature := Some t0;
                               Task3.csv_humidity := Some h0 |} = Some out
          /\ Task3.timestamp out = ts0
          /\ Task3.sensor_id out = k0
          /\ Task3.temperature_raw out = t0
          /\ Task3.humidity_raw out = h0)
    /\ (forall p0 v0,
          List.length p0 = List.length ts0 ->
          List.length v0 = List.length ts0 ->
          exists out,
            Task2.output kind {| Task2.csv_date := Some ts0;
                                 Task2.csv_closing_price := Some p0;
                                 Task2.csv_volume := Some v0 |} = Some out
            /\ Task2.date out = ts0
            /\ Task2.closing_price out = Task2.handle_missing p0
            /\ Task2.volume out = Task2.handle_missing v0).
Proof.
  intros kind ts0 Hs Hne.
  pose proof (argsort_sorted_input kind Hs) as Ha.
  split.
  - intros k0 t0 h0 Lk Lt Lh.
    exists (prepared_from kind ts0 k0 t0 h0).
    split; [now apply output_complete|].
    unfold prepared_from.
    cbn [Task3.timestamp Task3.sensor_id Task3.temperature_raw
         Task3.humidity_raw].
    rewrite Ha. rewrite take_seq.
    rewrite <- Lk at 1. rewrite <- Lt at 1. rewrite <- Lh.
    now rewrite !take_seq.
  - intros p0 v0 Lp Lv.
    exists (preprocessed_from kind ts0 p0 v0).
    split.
    + unfold Task2.output.
      destruct (task2_run_complete kind ts0 p0 v0) as [w [-> Hw]]. exact Hw.
    + unfold preprocessed_from.
      cbn [Task2.date Task2.closing_price Task2.volume].
      rewrite Ha. rewrite take_seq.
      rewrite <- Lp at 1. rewrite <- Lv.
      now rewrite !take_seq.
Qed.

Lemma table_in_time_order_witness :
  exists out,
    Task2.output stable_kind prices_csv = Some out
    /\ Task2.date out = [1; 2; 3; 4; 5]%Z
    /\ Task2.closing_price out
       = Task2.handle_missing [Some 10; Some 12; Some 9; Some 100; Some 11]%Q
    /\ Task2.volume out
       = Task2.handle_missing [Some 1; None; Some 0; Some 3; Some 2]%Q.
Proof.
  refine (proj2 (table_in_time_order_keeps_its_rows
                   stable_kind (ts0 := [1; 2; 3; 4; 5]%Z) _ _) _ _ _ _);
    [|discriminate|reflexivity|reflexivity].
  repeat (constructor; [|repeat constructor; lia]). constructor.
Defined.

(** * Task 2: further properties of the preprocessed table *)

(** ** Filling forward, then backward *)

Lemma bfill_length xs : List.length (bfill xs) = List.length xs.
Proof.
  induction xs as [|[v|] r IH]; simpl; auto.
Qed.

Lemma bfill_keeps xs j v :
  nth_error xs j = Some (Some v) -> nth_error (bfill xs) j = Some (Some v).
Proof.
  revert j; induction xs as [|[x|] r IH]; intros [|j]; simpl;
    try discriminate; auto.
Qed.

Lemma bfill_leading xs i j v :
  (forall m, m < i -> nth_error xs m = Some None) ->
  nth_error xs i = Some (Some v) -> j <= i ->
  nth_error (bfill xs) j = Some (Some v).
Proof.
  revert i j; induction xs as [|x r IH]; intros i j Hlead Hi Hj.
  - now destruct i.
  - destruct i as [|i].
    + assert (j = 0) by lia. subst j. simpl in Hi. injection Hi as ->.
      reflexivity.
    + assert (Hx : x = None).
      { specialize (Hlead 0 (Nat.lt_0_succ i)). simpl in Hlead. congruence. }
      subst x. simpl in Hi.
      assert (Hr : forall j', j' <= i ->
                     nth_error (bfill r) j' = Some (Some v)).
      { intros j' Hj'. apply IH with (i := i); [|exact Hi|exact Hj'].
        intros m Hm. apply (Hlead (S m)). lia. }
      cbn [bfill]. destruct j as [|j]; cbn [nth_error].
      * specialize (Hr 0 (Nat.le_0_l i)).
        destruct (bfill r); [discriminate|]. simpl in *. exact Hr.
      * apply Hr. lia.
Qed.

Lemma bfill_all_observed xs : all_observed xs -> bfill xs = xs.
Proof.
  induction 1 as [|x r Hx Hr IH]; simpl; [reflexivity|].
  destruct x; [|discriminate]. now rewrite IH.
Qed.

Lemma bfill_all_missing xs : all_missing xs -> bfill xs = xs.
Proof.
  induction 1 as [|x r Hx Hr IH]; simpl; [reflexivity|].
  destruct x; [discriminate|]. rewrite IH.
  destruct Hr as [|y s Hy Hs]; simpl; [reflexivity|].
  destruct y; [discriminate|reflexivity].
Qed.

Lemma ffill_from_some v xs : all_observed (ffill_from (Some v) xs).
Proof.
  revert v; induction xs as [|[x|] r IH]; intros v; simpl;
    constructor; auto; apply IH.
Qed.

Lemma bfill_ffill_observed xs :
  dropna xs <> [] -> all_observed (bfill (ffill xs)).
Proof.
  unfold ffill. induction xs as [|[v|] r IH]; intros H.
  - now elim H.
  - cbn [ffill_from].
    assert (Ho : all_observed (Some v :: ffill_from (Some v) r))
      by (constructor; [reflexivity | apply ffill_from_some]).
    now rewrite (bfill_all_observed Ho).
  - cbn [ffill_from bfill]. simpl in H. specialize (IH H).
    destruct (bfill (ffill_from None r)) as [|y s] eqn:E.
    + apply (f_equal (@List.length cell)) in E.
      rewrite bfill_length, ffill_from_length in E.
      destruct r; [now elim H | discriminate].
    + constructor; [|exact IH]. now inversion IH.
Qed.

Lemma fillna_nan xs : fillna xs None = xs.
Proof.
  unfold fillna. induction xs as [|[v|] r IH]; simpl; now rewrite ?IH.
Qed.

Lemma existsb_isnull_observed xs : all_observed xs -> existsb isnull xs = false.
Proof.
  induction 1 as [|x r Hx Hr IH]; simpl; [reflexivity|].
  now rewrite Hx, IH.
Qed.

Lemma handle_missing_bfill_ffill col :
  Task2.handle_missing col = bfill (ffill col).
Proof.
  unfold Task2.handle_missing.
  destruct (dropna col) as [|q r] eqn:E.
  - apply dropna_nil in E. unfold ffill.
    rewrite (ffill_from_all_missing E), (bfill_all_missing E).
    assert (Hm : median col = None)
      by (unfold median; now rewrite (dropna_all_missing E)).
    rewrite Hm, fillna_nan. now destruct (existsb isnull col).
  - assert (Ho : all_observed (bfill (ffill col)))
      by (apply bfill_ffill_observed; congruence).
    now rewrite (existsb_isnull_observed Ho).
Qed.

(** X10.  Lines 45-48 and 51-54.  After [ffill().bfill()] a column that
    holds at least one value has no gap left, so the median fallback of
    lines 46-48 is never taken for it; a column without any value takes the
    fallback, whose median is NaN, and stays as it was.  Either way the
    fallback changes nothing: the imputed column is the forward fill
    followed by the backward fill, and it is complete exactly when the input
    column holds a value, or no row. *)
Theorem median_fallback_never_changes_the_column :
  forall col,
    Task2.handle_missing col = bfill (ffill col)
    /\ List.length (Task2.handle_missing col) = List.length col
    /\ (dropna col <> [] -> all_observed (Task2.handle_missing col))
    /\ (dropna col = [] -> Task2.handle_missing col = col)
    /\ (forall kind csv out,
           Task2.output kind csv = Some out ->
           (all_observed (Task2.closing_price out)
            \/ all_missing (Task2.closing_price out))
           /\ (all_observed (Task2.volume out)
               \/ all_missing (Task2.volume out))).
Proof.
  intros col.
  assert (U : forall xs, all_observed (Task2.handle_missing xs)
                         \/ all_missing (Task2.handle_missing xs)).
  { intros xs. rewrite handle_missing_bfill_ffill.
    destruct (dropna xs) as [|q r] eqn:E.
    - right. apply dropna_nil in E. unfold ffill.
      now rewrite (ffill_from_all_missing E), (bfill_all_missing E).
    - left. apply bfill_ffill_observed. congruence. }
  rewrite handle_missing_bfill_ffill.
  split; [reflexivity|]. split; [|split; [|split]].
  - unfold ffill. now rewrite bfill_length, ffill_from_length.
  - apply bfill_ffill_observed.
  - intros E. apply dropna_nil in E. unfold ffill.
    now rewrite (ffill_from_all_missing E), (bfill_all_missing E).
  - intros kind csv out Hout. apply task2_output_inv in Hout.
    destruct Hout as (d0 & p0 & v0 & _ & ->).
    split; apply U.
Qed.

Lemma median_fallback_witness :
  all_observed (Task2.handle_missing [None; Some 3; None; None; Some 5; None]%Q).
Proof.
  apply (proj1 (proj2 (proj2 (median_fallback_never_changes_the_column _)))).
  discriminate.
Defined.

(** X11.  What the two fills put in a gap: an observed price (or volume) is
    kept; a gap takes the last value observed before it; and a gap before
    the first observed value, which the forward fill cannot reach, takes
    that first value. *)
Theorem gaps_take_the_previous_value_or_else_the_next :
  forall col,
    let filled := Task2.handle_missing col in
    (forall j v, nth_error col j = Some (Some v) ->
                 nth_error filled j = Some (Some v))
    /\ (forall i j v,
           i < j -> nth_error col i = Some (Some v) ->
           (forall m, i < m <= j -> nth_error col m = Some None) ->
           nth_error filled j = Some (Some v))
    /\ (forall i j v,
           (forall m, m < i -> nth_error col m = Some None) ->
           nth_error col i = Some (Some v) -> j <= i ->
           nth_error filled j = Some (Some v)).
Proof.
  intros col filled. unfold filled.
  rewrite handle_missing_bfill_ffill. unfold ffill.
  split; [|split].
  - intros j v Hj. apply bfill_keeps. now apply ffill_from_observed.
  - intros i j v Hij Hi Hgap. apply bfill_keeps.
    now apply ffill_from_carried with (i := i).
  - intros i j v Hlead Hi Hj.
    apply bfill_leading with (i := i); [|now apply ffill_from_observed|exact Hj].
    intros m Hm. apply ffill_from_leading.
    intros m' Hm'. apply Hlead. lia.
Qed.

Lemma gaps_witness :
  nth_error (Task2.handle_missing [None; None; Some 3; None; Some 5]%Q) 0
  = Some (Some 3%Q)
  /\ nth_error (Task2.handle_missing [None; None; Some 3; None; Some 5]%Q) 3
     = Some (Some 3%Q).
Proof.
  pose proof (gaps_take_the_previous_value_or_else_the_next
                [None; None; Some 3; None; Some 5]%Q) as (_ & Hprev & Hnext).
  split.
  - apply (Hnext 2 0 3%Q); [|reflexivity|lia].
    intros m Hm. destruct m as [|[|m]]; [reflexivity|reflexivity|lia].
  - apply (Hprev 2 3 3%Q); [lia|reflexivity|].
    intros m Hm. assert (m = 3) as -> by lia. reflexivity.
Defined.

(** ** Returns over a lag *)


Lemma pct_change_length periods data :
  List.length (pct_change periods data) = List.length data.
Proof.
  unfold pct_change. rewrite length_map, length_combine, shift_length. lia.
Qed.





(** ** The quartile range *)



(** ** Log scaling of non-negative volumes *)

Lemma Q2R_zero : Q2R 0 = 0%R.
Proof. unfold Q2R. simpl. lra. Qed.

Lemma ln_monotone (x y : R) : (0 < x)%R -> (x <= y)%R -> (ln x <= ln y)%R.
Proof.
  intros Hx [Hlt | ->]; [|lra].
  left. now apply ln_increasing.
Qed.

Lemma log1p_above_minus_one x :
  (-1 < x)%Q -> log1p (Some x) = Fin (ln (1 + Q2R x)) /\ (0 < 1 + Q2R x)%R.
Proof.
  intros Hx. unfold log1p. rewrite (proj2 (Qlt_bool_iff (-1) x) Hx).
  split; [reflexivity|].
  apply Qlt_Rlt in Hx.
  replace (Q2R (-1)) with (-1)%R in Hx by (unfold Q2R; simpl; lra). lra.
Qed.

(** X15.  Line 66 on the volumes a market reports.  A volume x >= 0 is
    mapped to the finite number ln(1 + x), which is not negative and is 0
    exactly for x = 0; and the transform keeps the order of the volumes
    above -1: a larger volume never gets a smaller [volume_log]. *)
Theorem volume_log_is_nonnegative_and_monotone :
  forall kind csv out,
    Task2.output kind csv = Some out ->
    (forall i x,
        nth_error (Task2.volume out) i = Some (Some x) -> (0 <= x)%Q ->
        exists r, nth_error (Task2.volume_log out) i = Some (Fin r)
                  /\ (0 <= r)%R /\ (r = 0%R <-> (x == 0)%Q))
    /\ (forall i j x y,
          nth_error (Task2.volume out) i = Some (Some x) ->
          nth_error (Task2.volume out) j = Some (Some y) ->
          (-1 < x)%Q -> (x <= y)%Q ->
          exists a b, nth_error (Task2.volume_log out) i = Some (Fin a)
                      /\ nth_error (Task2.volume_log out) j = Some (Fin b)
                      /\ (a <= b)%R).
Proof.
  intros kind csv out Hout.
  apply task2_output_inv in Hout.
  destruct Hout as (d0 & p0 & v0 & _ & ->).
  cbn [Task2.volume_log Task2.volume preprocessed_from].
  split.
  - intros i x Hx H0.
    assert (Hm : (-1 < x)%Q) by lra.
    destruct (log1p_above_minus_one Hm) as [Hl Hp].
    exists (ln (1 + Q2R x)).
    rewrite nth_error_map, Hx. cbn [option_map]. rewrite Hl.
    assert (H0R : (0 <= Q2R x)%R)
      by (rewrite <- Q2R_zero; now apply Qle_Rle).
    split; [reflexivity|]. split.
    + rewrite <- ln_1. apply ln_monotone; lra.
    + split.
      * intros Hz. rewrite <- ln_1 in Hz. apply ln_inv in Hz; [|lra|lra].
        apply eqR_Qeq. rewrite Q2R_zero. lra.
      * intros Hz. apply Qeq_eqR in Hz. rewrite Hz, Q2R_zero.
        rewrite Rplus_0_r. apply ln_1.
  - intros i j x y Hx Hy Hm Hxy.
    assert (Hmy : (-1 < y)%Q) by lra.
    destruct (log1p_above_minus_one Hm) as [Hlx Hpx].
    destruct (log1p_above_minus_one Hmy) as [Hly Hpy].
    exists (ln (1 + Q2R x)), (ln (1 + Q2R y)).
    rewrite !nth_error_map, Hx, Hy. cbn [option_map]. rewrite Hlx, Hly.
    split; [reflexivity|]. split; [reflexivity|].
    apply Qle_Rle in Hxy. apply ln_monotone; lra.
Qed.

Lemma volume_log_witness :
  exists r, nth_error (Task2.volume_log prices_out) 2 = Some (Fin r)
            /\ (0 <= r)%R /\ (r = 0%R <-> (0 == 0)%Q).
Proof.
  apply (proj1 (volume_log_is_nonnegative_and_monotone
                  stable_kind prices_csv prices_output) 2 0%Q).
  - reflexivity.
  - unfold Qle; simpl; lia.
Defined.

(** ** Outcome and shape of a run of task2.py *)

Lemma handle_missing_length col :
  List.length (Task2.handle_missing col) = List.length col.
Proof.
  rewrite handle_missing_bfill_ffill. unfold ffill.
  now rewrite bfill_length, ffill_from_length.
Qed.

(** X16.  With its three columns in the header, at least one row and dates
    that all parse, task2.py runs to the end whatever the price and volume
    cells hold.  The table it writes has one row per input row in each of
    its seven columns, and its dates are the input's dates in ascending
    order. *)
Theorem financial_run_completes_with_one_row_per_input_row :
  forall kind dates d0 p0 v0,
    to_datetime dates = Some d0 ->
    d0 <> [] ->
    exists w out,
      Task2.run_file kind {| Task2.file_date := Some dates;
                             Task2.file_closing_price := Some p0;
                             Task2.file_volume := Some v0 |} = (w, inr tt)
      /\ saved w = Some out
      /\ lineno w = 88
      /\ Permutation (Task2.date out) d0
      /\ Sorted Z.le (Task2.date out)
      /\ List.length (Task2.date out) = List.length dates
      /\ List.length (Task2.closing_price out) = List.length dates
      /\ List.length (Task2.volume out) = List.length dates
      /\ List.length (Task2.volume_log out) = List.length dates
      /\ List.length (Task2.ret_1d out) = List.length dates
      /\ List.length (Task2.ret_7d out) = List.length dates
      /\ List.length (Task2.is_outlier out) = List.length dates.
Proof.
  intros kind dates d0 p0 v0 Hp _.
  assert (Hl : List.length dates = List.length d0)
    by (rewrite (to_datetime_inv _ Hp); apply length_map).
  rewrite (@task2_run_file_parsed kind _ _ _ _ Hp), Hl.
  exists (fst (Task2.run kind {| Task2.csv_date := Some d0;
                                 Task2.csv_closing_price := Some p0;
                                 Task2.csv_volume := Some v0 |})),
         (preprocessed_from kind d0 p0 v0).
  split; [reflexivity|]. split; [reflexivity|]. split; [reflexivity|].
  unfold preprocessed_from.
  cbn [Task2.date Task2.closing_price Task2.volume Task2.volume_log
       Task2.ret_1d Task2.ret_7d Task2.is_outlier].
  unfold Task2.flag_outliers.
  rewrite !pct_change_length, !length_map, !handle_missing_length,
    !take_length, argsort_length.
  repeat split.
  - apply take_perm, argsort_perm.
  - apply argsort_sorted.
Qed.

Lemma financial_run_completes_witness :
  exists w out,
    Task2.run_file stable_kind prices_file = (w, inr tt)
    /\ saved w = Some out
    /\ Sorted Z.le (Task2.date out)
    /\ List.length (Task2.is_outlier out) = 5.
Proof.
  destruct (@financial_run_completes_with_one_row_per_input_row
              stable_kind (map Some [1; 2; 3; 4; 5]%Z) [1; 2; 3; 4; 5]%Z
              [Some 10; Some 12; Some 9; Some 100; Some 11]%Q
              [Some 1; None; Some 0; Some 3; Some 2]%Q)
    as (w & out & Hr & Hs & _ & _ & Hd & _ & _ & _ & _ & _ & _ & Ho).
  - reflexivity.
  - discriminate.
  - exists w, out. auto.
Defined.

(** X17.  How task2.py fails on its input.  When the header lacks the date
    column the run dies with KeyError at line 35; when a date does not
    parse it dies at line 35 with the error of [pd.to_datetime], whatever
    else the file lacks; when the dates parse and closing_price or volume
    is absent it dies with the KeyError of the first of the two, at line
    40.  In each case nothing is written. *)
Theorem financial_run_raises_on_a_missing_column_or_a_bad_date :
  forall kind file,
    (Task2.file_date file = None ->
     exists w,
       Task2.run_file kind file = (w, inl (KeyError "date"))
       /\ lineno w = 35 /\ saved w = None
       /\ Task2.output_file kind file = None)
    /\ (forall dates,
           Task2.file_date file = Some dates -> to_datetime dates = None ->
           exists w,
             Task2.run_file kind file = (w, inl DateParseError)
             /\ lineno w = 35 /\ saved w = None
             /\ Task2.output_file kind file = None)
    /\ (forall dates ds name line,
           Task2.file_date file = Some dates -> to_datetime dates = Some ds ->
           first_missing_column (Task2.frame_of file (Some ds))
           = Some (name, line) ->
           exists w,
             Task2.run_file kind file = (w, inl (KeyError name))
             /\ lineno w = line /\ line = 40 /\ saved w = None
             /\ Task2.output_file kind file = None).
Proof.
  intros kind [d p0 v0]; cbn [Task2.file_date]. split; [|split].
  - intros ->. eexists. repeat split.
  - intros dates -> Hp. unfold Task2.output_file.
    rewrite (@task2_run_file_unparsed kind _ _ _ Hp).
    eexists. repeat split.
  - intros dates ds name line -> Hp. unfold Task2.output_file.
    rewrite (@task2_run_file_parsed kind _ _ _ _ Hp).
    destruct p0 as [p0|], v0 as [v0|];
      unfold first_missing_column, Task2.frame_of, Task2.run, Task2.main;
      cbn [bind getitem print at_line ret raise to_csv fst snd saved stdout
           lineno start app
           Task2.sort_values option_map Task2.csv_date Task2.csv_closing_price
           Task2.csv_volume Task2.file_closing_price Task2.file_volume];
      intros [= <- <-]; eexists; repeat split; reflexivity.
Qed.

Lemma financial_failure_witness :
  exists w,
    Task2.run_file stable_kind
      {| Task2.file_date := Some [Some 1; Some 2]%Z;
         Task2.file_closing_price := Some [Some 1; Some 2]%Q;
         Task2.file_volume := None |}
    = (w, inl (KeyError "volume"))
    /\ lineno w = 40.
Proof.
  destruct (proj2 (proj2 (financial_run_raises_on_a_missing_column_or_a_bad_date
                            stable_kind
                            {| Task2.file_date := Some [Some 1; Some 2]%Z;
                               Task2.file_closing_price := Some [Some 1; Some 2]%Q;
                               Task2.file_volume := None |}))
                  [Some 1; Some 2]%Z [1; 2]%Z "volume"%string 40
                  eq_refl eq_refl eq_refl)
    as (w & Hr & Hl & _).
  exists w. auto.
Defined.

(** * Task 3: how a run can end *)




(** * Task 3: the rolling mean stays within its window *)

Lemma Qcount_cons (x : Q) (l : list Q) : (Qcount (x :: l) == Qcount l + 1)%Q.
Proof.
  unfold Qcount. cbn [List.length].
  rewrite Nat2Z.inj_succ, <- Z.add_1_r, inject_Z_plus. reflexivity.
Qed.

Lemma Qsum_cons (x : Q) (l : list Q) : (Qsum (x :: l) == x + Qsum l)%Q.
Proof.
  unfold Qsum at 1. simpl. rewrite fold_Qplus_acc. ring.
Qed.

Lemma Qsum_bounds (ys : list Q) (a b : Q) :
  Forall (fun q => (a <= q)%Q /\ (q <= b)%Q) ys ->
  (Qcount ys * a <= Qsum ys)%Q /\ (Qsum ys <= Qcount ys * b)%Q.
Proof.
  induction 1 as [|x r [Hax Hxb] Hr [IH1 IH2]].
  - change (Qcount []) with 0%Q. change (Qsum []) with 0%Q. split; lra.
  - rewrite Qsum_cons, Qcount_cons. split; lra.
Qed.

Lemma in_dropna (l : list cell) (q : Q) : In q (dropna l) <-> In (Some q) l.
Proof.
  induction l as [|[x|] r IH]; simpl; [tauto| |].
  - rewrite IH. split; intros [H|H]; auto; left; congruence.
  - rewrite IH. split; [tauto|]. intros [H|H]; [discriminate | exact H].
Qed.

Lemma mean_between (l : list cell) (a b m : Q) :
  (forall q, In (Some q) l -> (a <= q)%Q /\ (q <= b)%Q) ->
  mean l = Some m -> (a <= m)%Q /\ (m <= b)%Q.
Proof.
  intros Hl. unfold mean.
  destruct (dropna l) as [|y ys] eqn:E; [discriminate|].
  intros [= <-].
  assert (Hall : Forall (fun q => (a <= q)%Q /\ (q <= b)%Q) (y :: ys)).
  { apply Forall_forall. intros q Hq. apply Hl, in_dropna. now rewrite E. }
  destruct (Qsum_bounds Hall) as [H1 H2].
  pose proof (Qcount_pos y ys) as Hpos.
  split.
  - apply Qle_shift_div_l; [exact Hpos|]. lra.
  - apply Qle_shift_div_r; [exact Hpos|]. lra.
Qed.

Lemma trailing_last (A : Type) w (xs : list A) j x :
  1 <= w -> nth_error xs j = Some x -> In x (trailing w xs j).
Proof.
  intros Hw Hx.
  assert (Hj : j < List.length xs) by (apply nth_error_Some; congruence).
  apply nth_error_In with (n := Nat.min (S j) w - 1).
  rewrite trailing_nth by lia.
  replace (S j - Nat.min (S j) w + (Nat.min (S j) w - 1)) with j by lia.
  exact Hx.
Qed.

Lemma series_sub_nth a b j x y :
  nth_error a j = Some x -> nth_error b j = Some y ->
  nth_error (series_sub a b) j = Some (csub x y).
Proof.
  intros Ha Hb. unfold series_sub.
  now rewrite nth_error_map, (nth_error_combine _ _ _ Ha Hb).
Qed.

(** X2.  Smoothing never overshoots.  Whenever the imputed values of a
    sensor in the trailing window of a row all lie between a and b, so does
    the rolling mean of that row; the detrended value of the row, value
    minus rolling mean, is then at most b - a in absolute value. *)
Theorem rolling_mean_stays_within_its_window :
  forall kind csv out c k j a b,
    Task3.output kind csv = Some out ->
    let keys := Task3.sensor_id out in
    let xs := group_values k keys (Task3.imputed c out) in
    let rs := group_values k keys (Task3.roll_mean c out) in
    let ds := group_values k keys (Task3.detrended c out) in
    (forall q, In (Some q) (trailing Task3.ROLL_WINDOW xs j) ->
               (a <= q)%Q /\ (q <= b)%Q) ->
    (forall r, nth_error rs j = Some (Some r) -> (a <= r)%Q /\ (r <= b)%Q)
    /\ (forall d, nth_error ds j = Some (Some d) ->
                  (a - b <= d)%Q /\ (d <= b - a)%Q).
Proof.
  intros kind csv out c k j a b Hout keys xs rs ds Hwin.
  apply output_groups with (c := c) (k := k) in Hout.
  destruct Hout as (_ & Hr & Hd & _).
  fold keys in Hr, Hd. fold xs in Hr, Hd. fold rs in Hr. fold ds in Hd.
  assert (Hroll : forall r, nth_error rs j = Some (Some r) ->
                            (a <= r)%Q /\ (r <= b)%Q).
  { intros r Hj. rewrite Hr in Hj.
    assert (Hlt : j < List.length xs).
    { rewrite <- (rolling_mean_length Task3.ROLL_WINDOW).
      apply nth_error_Some. congruence. }
    rewrite (rolling_mean_nth _ _ Hlt) in Hj. injection Hj as Hj.
    now apply mean_between with (l := trailing Task3.ROLL_WINDOW xs j). }
  split; [exact Hroll|].
  intros d Hj. rewrite Hd in Hj. unfold detrend in Hj.
  assert (Hlt : j < List.length xs).
  { rewrite <- (series_sub_length xs (rolling_mean Task3.ROLL_WINDOW xs))
      by (now rewrite rolling_mean_length).
    apply nth_error_Some. congruence. }
  destruct (nth_error xs j) as [x|] eqn:Hx;
    [|apply nth_error_None in Hx; lia].
  assert (Hrj : nth_error (rolling_mean Task3.ROLL_WINDOW xs) j
                = Some (mean (trailing Task3.ROLL_WINDOW xs j)))
    by now apply rolling_mean_nth.
  rewrite (series_sub_nth _ _ _ Hx Hrj) in Hj. injection Hj as Hj.
  destruct x as [x|]; [|discriminate].
  destruct (mean (trailing Task3.ROLL_WINDOW xs j)) as [m|] eqn:Hm;
    [|discriminate].
  injection Hj as <-.
  destruct (Hroll m) as [H1 H2]; [now rewrite Hr, Hrj|].
  destruct (Hwin x) as [H3 H4].
  { apply trailing_last; [unfold Task3.ROLL_WINDOW; lia | exact Hx]. }
  split; lra.
Qed.

Lemma rolling_mean_window_witness :
  exists r,
    nth_error (group_values "A" (Task3.sensor_id sample_out)
                            (Task3.roll_mean Task3.Temperature sample_out)) 4
    = Some (Some r)
    /\ (21 <= r)%Q /\ (r <= 30)%Q.
Proof.
  assert (Hwin : forall q,
             In (Some q)
                (trailing Task3.ROLL_WINDOW
                   (group_values "A" (Task3.sensor_id sample_out)
                      (Task3.imputed Task3.Temperature sample_out)) 4) ->
             (21 <= q)%Q /\ (q <= 30)%Q).
  { intros q Hq. vm_compute in Hq.
    repeat (destruct Hq as [Hq|Hq];
            [injection Hq as <-; split; unfold Qle; simpl; lia|]).
    destruct Hq. }
  eexists. split; [vm_compute; reflexivity|].
  apply (proj1 (@rolling_mean_stays_within_its_window
                  stable_kind sample_csv sample_out Task3.Temperature "A" 4
                  21%Q 30%Q sample_output Hwin)).
  vm_compute. reflexivity.
Defined.

(** * Task 1: properties of the text functions *)

(** ** Characters *)

Ltac each_char c :=
  destruct c as [[] [] [] [] [] [] [] []]; vm_compute;
  try reflexivity; try discriminate; auto.

Lemma kept_lower_clean c :
  Task1.kept c = true -> isspace c = false -> is_clean (lower c) = true.
Proof. each_char c. Qed.

Lemma lower_clean c : is_clean c = true -> lower c = c.
Proof. each_char c. Qed.

Lemma clean_kept c : is_clean c = true -> Task1.kept c = true.
Proof. each_char c. Qed.

Lemma clean_not_space c : is_clean c = true -> isspace c = false.
Proof. each_char c. Qed.

Lemma clean_not_lt c : is_clean c = true -> Ascii.eqb c "<" = false.
Proof. each_char c. Qed.

Lemma isword_not_space c : isword c = true -> isspace c = false.
Proof. each_char c. Qed.

(** ** Splitting and joining *)

Lemma split_from_word acc w r :
  Forall (fun c => isspace c = false) w ->
  split_from acc (w ++ r) = split_from (acc ++ w) r.
Proof.
  intros H. revert acc. induction H as [|c w Hc Hw IH]; intros acc; simpl.
  - now rewrite app_nil_r.
  - rewrite Hc, IH, <- app_assoc. reflexivity.
Qed.

Lemma split_from_tokens acc text :
  Forall (fun c => isspace c = false) acc ->
  Forall is_token (split_from acc text).
Proof.
  revert acc; induction text as [|c r IH]; intros acc Hacc; simpl.
  - destruct acc; [constructor|].
    constructor; [split; [discriminate | exact Hacc] | constructor].
  - destruct (isspace c) eqn:E.
    + destruct acc as [|a acc']; [apply IH; constructor|].
      constructor; [split; [discriminate | exact Hacc]|].
      apply IH. constructor.
    + apply IH. apply Forall_app. split; [exact Hacc|].
      now repeat constructor.
Qed.

Lemma split_from_chars acc text w c :
  In w (split_from acc text) -> In c w -> In c acc \/ In c text.
Proof.
  revert acc; induction text as [|c0 r IH]; intros acc; simpl.
  - destruct acc; simpl; [tauto|]. intros [<-|[]]. tauto.
  - destruct (isspace c0).
    + destruct acc as [|a acc'].
      * intros Hw Hc. destruct (IH [] Hw Hc) as [[]|H]. tauto.
      * intros [<-|Hw] Hc; [tauto|].
        destruct (IH [] Hw Hc) as [[]|H]. tauto.
    + intros Hw Hc. destruct (IH _ Hw Hc) as [H|H]; [|tauto].
      apply in_app_or in H. destruct H as [H|[<-|[]]]; tauto.
Qed.

Lemma split_tokens text : Forall is_token (split text).
Proof. apply split_from_tokens. constructor. Qed.

Lemma space_is_space : isspace " " = true.
Proof. reflexivity. Qed.

(** Splitting what [' '.join] made of tokens gives the tokens back. *)
Lemma split_join ws :
  Forall is_token ws -> split (join [" "%char] ws) = ws.
Proof.
  unfold split. induction 1 as [|w r [Hne Hw] Hr IH]; [reflexivity|].
  destruct r as [|w2 r'].
  - simpl. rewrite <- (app_nil_r w) at 1.
    rewrite (split_from_word [] [] Hw). simpl.
    destruct w; [congruence | reflexivity].
  - change (join [" "%char] (w :: w2 :: r'))
      with (w ++ " "%char :: join [" "%char] (w2 :: r')).
    rewrite (split_from_word [] _ Hw). cbn [app split_from].
    rewrite space_is_space, IH.
    destruct w; [congruence | reflexivity].
Qed.

Lemma map_join (f : ascii -> ascii) sep ws :
  map f (join sep ws) = join (map f sep) (map (map f) ws).
Proof.
  induction ws as [|w r IH]; [reflexivity|].
  destruct r as [|w2 r']; [reflexivity|].
  change (join sep (w :: w2 :: r')) with (w ++ sep ++ join sep (w2 :: r')).
  rewrite !map_app, IH. reflexivity.
Qed.

Lemma Forall_join (P : ascii -> Prop) sep ws :
  Forall P sep -> Forall (Forall P) ws -> Forall P (join sep ws).
Proof.
  intros Hsep. induction 1 as [|w r Hw Hr IH]; [constructor|].
  destruct r as [|w2 r']; [exact Hw|].
  change (join sep (w :: w2 :: r')) with (w ++ sep ++ join sep (w2 :: r')).
  apply Forall_app. split; [exact Hw|].
  apply Forall_app. split; [exact Hsep | exact IH].
Qed.

Lemma filter_all (A : Type) (f : A -> bool) l :
  Forall (fun x => f x = true) l -> filter f l = l.
Proof.
  induction 1 as [|x r Hx Hr IH]; simpl; [reflexivity|].
  now rewrite Hx, IH.
Qed.

Lemma map_id_on (A : Type) (f : A -> A) l :
  Forall (fun x => f x = x) l -> map f l = l.
Proof.
  induction 1 as [|x r Hx Hr IH]; simpl; [reflexivity|].
  now rewrite Hx, IH.
Qed.

Lemma clean_word_token w : clean_word w -> is_token w.
Proof.
  intros [Hne Hw]. split; [exact Hne|].
  eapply Forall_impl; [|exact Hw]. apply clean_not_space.
Qed.

(** ** Tags *)

Lemma sub_tags_without_lt text :
  Forall (fun c => Ascii.eqb c "<" = false) text -> Task1.sub_tags 0 text = text.
Proof.
  induction 1 as [|c r Hc Hr IH]; simpl; [reflexivity|].
  now rewrite Hc, IH.
Qed.

(** ** The cleaned text *)

Lemma cleaned_words text :
  Forall clean_word (map (map lower) (split (filter Task1.kept text))).
Proof.
  apply Forall_forall. intros w' Hw'.
  apply in_map_iff in Hw'. destruct Hw' as (w & <- & Hw).
  pose proof (split_tokens (filter Task1.kept text)) as Ht.
  rewrite Forall_forall in Ht. destruct (Ht w Hw) as [Hne Hns].
  split.
  - destruct w; [congruence | discriminate].
  - apply Forall_forall. intros c' Hc'.
    apply in_map_iff in Hc'. destruct Hc' as (c & <- & Hc).
    apply kept_lower_clean.
    + destruct (split_from_chars [] _ w c Hw Hc) as [[]|H].
      apply filter_In in H. tauto.
    + rewrite Forall_forall in Hns. now apply Hns.
Qed.

Lemma clean_text_words text :
  Task1.clean_text (Some text)
  = Some (join [" "%char]
               (map (map lower) (split (filter Task1.kept (Task1.sub_tags 0 text))))).
Proof.
  unfold Task1.clean_text. now rewrite map_join.
Qed.

Lemma clean_chars_of_words ws :
  Forall clean_word ws ->
  Forall (fun c => is_clean c = true \/ c = " "%char) (join [" "%char] ws).
Proof.
  intros H. apply Forall_join; [repeat constructor; tauto|].
  eapply Forall_impl; [|exact H].
  intros w [_ Hw]. eapply Forall_impl; [|exact Hw]. tauto.
Qed.

Lemma clean_text_fixed ws :
  Forall clean_word ws ->
  Task1.clean_text (Some (join [" "%char] ws)) = Some (join [" "%char] ws).
Proof.
  intros H. pose proof (clean_chars_of_words H) as Hc.
  unfold Task1.clean_text.
  rewrite sub_tags_without_lt.
  2:{ eapply Forall_impl; [|exact Hc].
      intros c [Hcl| ->]; [now apply clean_not_lt | reflexivity]. }
  rewrite filter_all.
  2:{ eapply Forall_impl; [|exact Hc].
      intros c [Hcl| ->]; [now apply clean_kept | reflexivity]. }
  rewrite split_join.
  2:{ eapply Forall_impl; [|exact H]. apply clean_word_token. }
  f_equal. apply map_id_on.
  eapply Forall_impl; [|exact Hc].
  intros c [Hcl| ->]; [now apply lower_clean | reflexivity].
Qed.

(** X18.  [clean_text] (lines 41-57) returns lowercase words separated by
    single spaces.  The result of cleaning a text is the join, with one
    space, of words that are not empty and consist of lowercase ASCII
    letters, digits and hash signs only: no tag, no punctuation, no upper
    case, no space at either end and no two spaces in a row; splitting it
    gives these words back.  A missing text stays missing. *)
Theorem clean_text_gives_lowercase_words_single_spaced :
  Task1.clean_text None = None
  /\ forall text,
       exists words,
         Task1.clean_text (Some text) = Some (join [" "%char] words)
         /\ Forall clean_word words
         /\ split (join [" "%char] words) = words
         /\ Forall (fun c => is_clean c = true \/ c = " "%char)
                   (join [" "%char] words).
Proof.
  split; [reflexivity|]. intros text.
  exists (map (map lower) (split (filter Task1.kept (Task1.sub_tags 0 text)))).
  pose proof (cleaned_words (Task1.sub_tags 0 text)) as Hw.
  split; [apply clean_text_words|]. split; [exact Hw|]. split.
  - apply split_join. eapply Forall_impl; [|exact Hw]. apply clean_word_token.
  - now apply clean_chars_of_words.
Qed.

(** X19.  Cleaning a text that is already clean changes nothing:
    [clean_text(clean_text(x)) == clean_text(x)] for every text, with or
    without tags, and for the missing value. *)
Theorem clean_text_is_idempotent :
  forall x, Task1.clean_text (Task1.clean_text x) = Task1.clean_text x.
Proof.
  intros [text|]; [|reflexivity].
  rewrite clean_text_words. apply clean_text_fixed, cleaned_words.
Qed.

(** ** Stop words *)

Section StopWords.

Variable stop_words : list str.

Lemma not_contains_iff w :
  negb (contains stop_words w) = true <-> ~ In w stop_words.
Proof.
  unfold contains. destruct (in_dec str_eq_dec w stop_words); split; intros;
    try discriminate; try reflexivity; tauto.
Qed.

Lemma filter_tokens (f : str -> bool) ws :
  Forall is_token ws -> Forall is_token (filter f ws).
Proof.
  intros H. apply Forall_forall. intros w Hw.
  apply filter_In in Hw. rewrite Forall_forall in H. now apply H.
Qed.

Lemma filter_filter (A : Type) (f : A -> bool) l :
  filter f (filter f l) = filter f l.
Proof.
  apply filter_all. apply Forall_forall. intros x Hx.
  now apply filter_In in Hx.
Qed.

(** X20.  [remove_stopwords] (lines 70-77) returns the words of the text
    that are not stop words, in their order, joined by single spaces: no
    stop word is left and no other word is lost; splitting the result gives
    exactly these words back, so applying the function twice is the same as
    applying it once.  A missing text stays missing. *)
Theorem stop_words_are_removed_and_nothing_else :
  Task1.remove_stopwords stop_words None = None
  /\ forall text,
       let words :=
         filter (fun word => negb (contains stop_words word)) (split text) in
       Task1.remove_stopwords stop_words (Some text) = Some (join [" "%char] words)
       /\ split (join [" "%char] words) = words
       /\ (forall w, In w words <-> In w (split text) /\ ~ In w stop_words)
       /\ Task1.remove_stopwords stop_words
            (Task1.remove_stopwords stop_words (Some text))
          = Task1.remove_stopwords stop_words (Some text).
Proof.
  split; [reflexivity|]. intros text words.
  assert (Ht : Forall is_token words)
    by (apply filter_tokens, split_tokens).
  assert (Hr : Task1.remove_stopwords stop_words (Some text)
               = Some (join [" "%char] words)) by reflexivity.
  split; [exact Hr|]. split; [now apply split_join|]. split.
  - intros w. unfold words. rewrite filter_In, not_contains_iff. tauto.
  - rewrite Hr. unfold Task1.remove_stopwords at 1.
    rewrite (split_join Ht). unfold words.
    now rewrite filter_filter.
Qed.

End StopWords.

(** ** Hashtags *)

Lemma word_prefix_words text : Forall (fun c => isword c = true) (Task1.word_prefix text).
Proof.
  induction text as [|c r IH]; simpl; [constructor|].
  destruct (isword c) eqn:E; constructor; assumption.
Qed.

Lemma word_prefix_app text : exists rest, text = Task1.word_prefix text ++ rest.
Proof.
  induction text as [|c r [rest IH]]; simpl; [now exists []|].
  destruct (isword c).
  - exists rest. simpl. now rewrite <- IH.
  - now exists (c :: r).
Qed.

Lemma findall_hashtags_shape skip text :
  Forall is_hashtag (Task1.findall_hashtags skip text).
Proof.
  revert skip; induction text as [|c r IH]; intros skip; simpl; [constructor|].
  destruct skip as [|k]; [|apply IH].
  destruct (Ascii.eqb c "#") eqn:E; [|apply IH].
  apply Ascii.eqb_eq in E. subst c.
  pose proof (word_prefix_words r) as Hw.
  destruct (Task1.word_prefix r) as [|a w]; [apply IH|].
  constructor; [|apply IH].
  exists (a :: w). split; [reflexivity|]. split; [discriminate | exact Hw].
Qed.

Lemma findall_hashtags_inside skip text h :
  In h (Task1.findall_hashtags skip text) ->
  exists before after, text = before ++ h ++ after.
Proof.
  revert skip; induction text as [|c r IH]; intros skip; simpl; [tauto|].
  assert (Hrec : forall k, In h (Task1.findall_hashtags k r) ->
                           exists before after, c :: r = before ++ h ++ after).
  { intros k Hk. destruct (IH k Hk) as (b & a & ->).
    now exists (c :: b), a. }
  destruct skip as [|k]; [|apply Hrec].
  destruct (Ascii.eqb c "#"); [|apply Hrec].
  destruct (word_prefix_app r) as [rest Hr].
  destruct (Task1.word_prefix r) as [|a w]; [apply Hrec|].
  intros [<-|Hin]; [|now apply Hrec with (k := List.length (a :: w))].
  exists [], rest. simpl. simpl in Hr. now rewrite <- Hr.
Qed.

Lemma findall_hashtags_none skip text :
  Forall (fun c => Ascii.eqb c "#" = false) text ->
  Task1.findall_hashtags skip text = [].
Proof.
  intros H. revert skip. induction H as [|c r Hc Hr IH]; intros skip; simpl;
    [reflexivity|].
  destruct skip; [|apply IH]. now rewrite Hc.
Qed.

Lemma hashtag_token h : is_hashtag h -> is_token h.
Proof.
  intros (w & -> & _ & Hw). split; [discriminate|].
  constructor; [reflexivity|].
  eapply Forall_impl; [|exact Hw]. apply isword_not_space.
Qed.

(** X21.  [extract_hashtags] (lines 79-85).  Every tag it returns is a hash
    sign followed by at least one word character (letter, digit or
    underscore) and stands as such in the original text, upper case
    included; the tags come joined by single spaces and splitting the result
    gives them back; a text without a hash sign, like a missing text, gives
    the empty string. *)
Theorem hashtags_are_taken_from_the_text_as_written :
  Task1.extract_hashtags None = []
  /\ forall text,
       let tags := Task1.findall_hashtags 0 text in
       Task1.extract_hashtags (Some text) = join [" "%char] tags
       /\ Forall is_hashtag tags
       /\ (forall h, In h tags -> exists before after, text = before ++ h ++ after)
       /\ split (join [" "%char] tags) = tags
       /\ (Forall (fun c => Ascii.eqb c "#" = false) text ->
           Task1.extract_hashtags (Some text) = []).
Proof.
  split; [reflexivity|]. intros text tags.
  pose proof (findall_hashtags_shape 0 text) as Hs. fold tags in Hs.
  split; [reflexivity|]. split; [exact Hs|]. split; [|split].
  - intros h. apply findall_hashtags_inside.
  - apply split_join. eapply Forall_impl; [|exact Hs]. apply hashtag_token.
  - intros H. unfold Task1.extract_hashtags.
    now rewrite (findall_hashtags_none 0 H).
Qed.

Lemma hashtags_witness :
  Task1.extract_hashtags (Some (list_ascii_of_string "50% off, call 555-0100")) = [].
Proof.
  apply (proj2 hashtags_are_taken_from_the_text_as_written).
  repeat constructor.
Defined.

(** ** Lengths *)

Lemma sub_tags_length skip text :
  List.length (Task1.sub_tags skip text) <= List.length text.
Proof.
  revert skip; induction text as [|c r IH]; intros skip; simpl; [lia|].
  destruct skip as [|k]; [|specialize (IH k); lia].
  destruct (Ascii.eqb c "<").
  - destruct (Task1.match_tag r) as [n|]; [specialize (IH n) | specialize (IH 0)];
      simpl; lia.
  - specialize (IH 0). simpl. lia.
Qed.

Lemma filter_shorter (A : Type) (f : A -> bool) l :
  List.length (filter f l) <= List.length l.
Proof.
  induction l as [|x r IH]; simpl; [lia|].
  destruct (f x); simpl; lia.
Qed.

Lemma join_cons_length sep w ws :
  List.length (join sep (w :: ws))
  = List.length w
    + match ws with
      | [] => 0
      | _ => List.length sep + List.length (join sep ws)
      end.
Proof.
  destruct ws as [|w2 r]; [simpl; lia|].
  change (join sep (w :: w2 :: r)) with (w ++ sep ++ join sep (w2 :: r)).
  now rewrite !length_app.
Qed.

Lemma split_from_join_length acc text :
  List.length (join [" "%char] (split_from acc text))
  <= List.length acc + List.length text.
Proof.
  revert acc; induction text as [|c r IH]; intros acc; simpl.
  - destruct acc; simpl; lia.
  - destruct (isspace c).
    + destruct acc as [|a acc'].
      * specialize (IH []). simpl in IH. lia.
      * rewrite join_cons_length. specialize (IH []).
        destruct (split_from [] r); simpl in *; lia.
    + specialize (IH (acc ++ [c])). rewrite length_app in IH. simpl in IH. lia.
Qed.

Lemma join_filter_length sep (f : str -> bool) ws :
  List.length (join sep (filter f ws)) <= List.length (join sep ws).
Proof.
  induction ws as [|w r IH]; [simpl; lia|].
  rewrite join_cons_length. cbn [filter].
  destruct (f w).
  - rewrite join_cons_length.
    destruct (filter f r) as [|x s] eqn:E; [lia|].
    destruct r as [|y r']; [discriminate|]. lia.
  - destruct r; simpl in *; lia.
Qed.

Lemma clean_text_length text :
  exists cleaned,
    Task1.clean_text (Some text) = Some cleaned
    /\ List.length cleaned <= List.length text.
Proof.
  eexists. split; [reflexivity|].
  rewrite length_map.
  pose proof (split_from_join_length [] (filter Task1.kept (Task1.sub_tags 0 text))) as H1.
  pose proof (filter_shorter Task1.kept (Task1.sub_tags 0 text)) as H2.
  pose proof (sub_tags_length 0 text) as H3.
  unfold split. simpl in H1. lia.
Qed.

Lemma remove_stopwords_length stop_words text :
  exists cleaned,
    Task1.remove_stopwords stop_words (Some text) = Some cleaned
    /\ List.length cleaned <= List.length text.
Proof.
  eexists. split; [reflexivity|].
  pose proof (join_filter_length [" "%char]
                (fun word => negb (contains stop_words word)) (split text)) as H1.
  pose proof (split_from_join_length [] text) as H2.
  unfold split in *. simpl in H2. lia.
Qed.

(** ** Spam, duplicates and the counts of the report *)

Section PostsFacts.

Variable stop_words : list str.
Variable Row : Type.
Variable post_text : Row -> option str.

Let cleaned_of := Task1.post_text_cleaned stop_words post_text.
Let spam := Task1.is_spam stop_words post_text.

Lemma post_text_cleaned_length row text :
  post_text row = Some text ->
  exists cleaned,
    cleaned_of row = Some cleaned
    /\ List.length cleaned <= List.length text.
Proof.
  intros H. unfold cleaned_of, Task1.post_text_cleaned. rewrite H.
  destruct (clean_text_length text) as (c1 & -> & L1).
  destruct (remove_stopwords_length stop_words c1) as (c2 & -> & L2).
  exists c2. split; [reflexivity | lia].
Qed.

(** X22.  [is_spam] (lines 151-163) on the column the script has built.  A
    row whose text is missing is never spam.  The cleaned text is never
    longer than the post, so every post of fewer than five characters is
    spam, whatever it says; in general a post is spam exactly when its
    cleaned text has fewer than five characters or the post holds more than
    five of the characters [!@#$%^&*()]. *)
Theorem short_posts_are_spam_and_missing_posts_are_not :
  forall row,
    (post_text row = None -> spam row = false)
    /\ (forall text, post_text row = Some text ->
          List.length text < 5 -> spam row = true)
    /\ (forall text, post_text row = Some text ->
          exists cleaned,
            cleaned_of row = Some cleaned
            /\ List.length cleaned <= List.length text
            /\ (spam row = true
                <-> List.length cleaned < 5
                    \/ 5 < List.length (filter Task1.is_special text))).
Proof.
  intros row.
  assert (G : forall text, post_text row = Some text ->
            exists cleaned,
              cleaned_of row = Some cleaned
              /\ List.length cleaned <= List.length text
              /\ (spam row = true
                  <-> List.length cleaned < 5
                      \/ 5 < List.length (filter Task1.is_special text))).
  { intros text H.
    destruct (@post_text_cleaned_length row text H) as (cleaned & Hc & Hl).
    exists cleaned. split; [exact Hc|]. split; [exact Hl|].
    unfold spam, Task1.is_spam. fold cleaned_of. rewrite Hc, H. cbn [str_of].
    destruct (Nat.ltb_spec (List.length cleaned) 5);
      destruct (Nat.ltb_spec 5 (List.length (filter Task1.is_special text)));
      split; intros; try reflexivity; try discriminate; lia. }
  split; [|split; [|exact G]].
  - intros H. unfold spam, Task1.is_spam, Task1.post_text_cleaned. now rewrite H.
  - intros text H Hlen. destruct (G text H) as (cleaned & _ & Hl & Hs).
    apply Hs. lia.
Qed.

Lemma subseq_refl (A : Type) (l : list A) : subseq l l.
Proof. induction l; constructor; assumption. Qed.

Lemma subseq_trans (A : Type) (a b c : list A) :
  subseq a b -> subseq b c -> subseq a c.
Proof.
  intros Hab Hbc. revert a Hab.
  induction Hbc as [|x b c Hbc IH|x b c Hbc IH]; intros a Hab.
  - exact Hab.
  - constructor. now apply IH.
  - inversion Hab; subst; constructor; now apply IH.
Qed.

Lemma subseq_filter (A : Type) (f : A -> bool) (l : list A) :
  subseq (filter f l) l.
Proof.
  induction l as [|x r IH]; simpl; [constructor|].
  destruct (f x); constructor; exact IH.
Qed.

Lemma drop_duplicates_from_subseq seen df :
  subseq (Task1.drop_duplicates_from stop_words post_text seen df) df.
Proof.
  revert seen; induction df as [|row rest IH]; intros seen; simpl;
    [constructor|].
  destruct (in_dec Task1.text_eq_dec _ seen); constructor; apply IH.
Qed.

Lemma drop_duplicates_from_fresh seen df row :
  In row (Task1.drop_duplicates_from stop_words post_text seen df) ->
  ~ In (cleaned_of row) seen.
Proof.
  revert seen; induction df as [|r rest IH]; intros seen; simpl; [tauto|].
  destruct (in_dec Task1.text_eq_dec _ seen) as [Hin|Hnin].
  - apply IH.
  - intros [<-|H]; [exact Hnin|].
    apply IH in H. simpl in H. tauto.
Qed.

Lemma drop_duplicates_from_NoDup seen df :
  NoDup (map cleaned_of (Task1.drop_duplicates_from stop_words post_text seen df)).
Proof.
  revert seen; induction df as [|r rest IH]; intros seen; simpl;
    [constructor|].
  destruct (in_dec Task1.text_eq_dec _ seen) as [Hin|Hnin]; [apply IH|].
  simpl. constructor; [|apply IH].
  intros H. apply in_map_iff in H. destruct H as (row & Hk & Hrow).
  apply drop_duplicates_from_fresh in Hrow.
  apply Hrow. left. now symmetry.
Qed.

Lemma drop_duplicates_from_covers seen df row :
  In row df ->
  In (cleaned_of row) seen
  \/ In (cleaned_of row)
        (map cleaned_of (Task1.drop_duplicates_from stop_words post_text seen df)).
Proof.
  revert seen; induction df as [|r rest IH]; intros seen; simpl; [tauto|].
  intros [->|H].
  - destruct (in_dec Task1.text_eq_dec _ seen) as [Hin|Hnin]; [now left|].
    right. now left.
  - destruct (in_dec Task1.text_eq_dec _ seen) as [Hin|Hnin]; [now apply IH|].
    destruct (IH (Task1.post_text_cleaned stop_words post_text r :: seen) H)
      as [[E|Hs]|Hk].
    + right. left. exact E.
    + now left.
    + right. now right.
Qed.

Lemma drop_duplicates_from_ext seen1 seen2 df :
  (forall x, In x seen1 <-> In x seen2) ->
  Task1.drop_duplicates_from stop_words post_text seen1 df
  = Task1.drop_duplicates_from stop_words post_text seen2 df.
Proof.
  revert seen1 seen2; induction df as [|r rest IH]; intros seen1 seen2 H;
    simpl; [reflexivity|].
  destruct (in_dec Task1.text_eq_dec _ seen1) as [H1|H1];
    destruct (in_dec Task1.text_eq_dec _ seen2) as [H2|H2].
  - now apply IH.
  - apply H in H1. contradiction.
  - apply H in H2. contradiction.
  - f_equal. apply IH. intros x. simpl. rewrite H. tauto.
Qed.

Lemma drop_duplicates_from_app seen a b :
  Task1.drop_duplicates_from stop_words post_text seen (a ++ b)
  = Task1.drop_duplicates_from stop_words post_text seen a
    ++ Task1.drop_duplicates_from stop_words post_text (map cleaned_of a ++ seen) b.
Proof.
  revert seen; induction a as [|r rest IH]; intros seen; simpl; [reflexivity|].
  destruct (in_dec Task1.text_eq_dec _ seen) as [Hin|Hnin].
  - rewrite IH. f_equal. apply drop_duplicates_from_ext.
    intros x. simpl. rewrite !in_app_iff. unfold cleaned_of.
    split; [tauto|]. intros [<-|H]; tauto.
  - simpl. rewrite IH. do 2 f_equal. apply drop_duplicates_from_ext.
    intros x. simpl. rewrite !in_app_iff. simpl. tauto.
Qed.

(** X23.  [drop_duplicates(subset=['post_text_cleaned'], keep='first')]
    (line 132).  The rows kept are rows of the frame in their order; no two
    of them have the same cleaned text, and every cleaned text of the frame
    is still there; of the posts with the same cleaned text the first one is
    kept and the later ones are dropped, a later one being ignored
    altogether: the result is the same as if it had not been in the frame. *)
Theorem drop_duplicates_keeps_the_first_post_of_each_text :
  forall df,
    let kept_rows := Task1.drop_duplicates stop_words post_text df in
    subseq kept_rows df
    /\ NoDup (map cleaned_of kept_rows)
    /\ (forall row, In row df -> In (cleaned_of row) (map cleaned_of kept_rows))
    /\ (forall before row after,
          df = before ++ row :: after ->
          ~ In (cleaned_of row) (map cleaned_of before) ->
          exists rest,
            kept_rows
            = Task1.drop_duplicates stop_words post_text before ++ row :: rest)
    /\ (forall before row after,
          df = before ++ row :: after ->
          In (cleaned_of row) (map cleaned_of before) ->
          kept_rows = Task1.drop_duplicates stop_words post_text (before ++ after)).
Proof.
  intros df kept_rows. unfold kept_rows, Task1.drop_duplicates.
  split; [apply drop_duplicates_from_subseq|].
  split; [apply drop_duplicates_from_NoDup|].
  split; [|split].
  - intros row H.
    destruct (drop_duplicates_from_covers [] df row H) as [[]|Hk]. exact Hk.
  - intros before row after -> Hnew.
    rewrite drop_duplicates_from_app. cbn [Task1.drop_duplicates_from].
    destruct (in_dec Task1.text_eq_dec _ (map cleaned_of before ++ []))
      as [Hin|Hnin].
    + rewrite app_nil_r in Hin. contradiction.
    + eexists. reflexivity.
  - intros before row after -> Hold.
    rewrite !drop_duplicates_from_app. cbn [Task1.drop_duplicates_from].
    destruct (in_dec Task1.text_eq_dec _ (map cleaned_of before ++ []))
      as [Hin|Hnin]; [reflexivity|].
    rewrite app_nil_r in Hnin. contradiction.
Qed.

Lemma NoDup_map_filter (A B : Type) (g : A -> B) (f : A -> bool) l :
  NoDup (map g l) -> NoDup (map g (filter f l)).
Proof.
  induction l as [|x r IH]; simpl; [auto|].
  intros H. inversion H as [|? ? Hx Hr]; subst.
  destruct (f x); simpl; [|now apply IH].
  constructor; [|now apply IH].
  intros Hin. apply Hx. apply in_map_iff in Hin.
  destruct Hin as (y & Hy & Hin). apply filter_In in Hin.
  apply in_map_iff. exists y. tauto.
Qed.

(** X24.  Lines 128-171 on the rows.  The three counts of the report add up
    to the number of rows read: duplicates removed + spam posts removed +
    final records = original records.  The final rows are rows of the input
    in their order, none of them is spam, and no two of them have the same
    cleaned text. *)
Theorem cleaning_report_adds_up :
  forall df,
    let final := Task1.without_spam stop_words post_text df in
    List.length df
    = Task1.duplicates_removed stop_words post_text df
      + Task1.spam_count stop_words post_text df + List.length final
    /\ subseq final df
    /\ Forall (fun row => spam row = false) final
    /\ NoDup (map cleaned_of final).
Proof.
  intros df final. unfold final, Task1.without_spam, Task1.duplicates_removed, Task1.spam_count.
  set (kept_rows := Task1.drop_duplicates stop_words post_text df).
  assert (Hs : subseq kept_rows df) by apply drop_duplicates_from_subseq.
  assert (Hle : List.length kept_rows <= List.length df).
  { clear -Hs. induction Hs; simpl; lia. }
  pose proof (filter_length (Task1.is_spam stop_words post_text) kept_rows) as Hf.
  split; [lia|]. split; [|split].
  - apply subseq_trans with kept_rows; [apply subseq_filter | exact Hs].
  - apply Forall_forall. intros row H. apply filter_In in H.
    destruct H as [_ H]. now apply negb_true_iff in H.
  - apply NoDup_map_filter. apply drop_duplicates_from_NoDup.
Qed.

End PostsFacts.

Lemma short_posts_witness :
  Task1.is_spam sample_stop_words sample_post_text
                (Some (list_ascii_of_string "Wow!")) = true.
Proof.
  apply (proj1 (proj2 (@short_posts_are_spam_and_missing_posts_are_not
                         sample_stop_words (option str) sample_post_text
                         (Some (list_ascii_of_string "Wow!"))))
               (list_ascii_of_string "Wow!")).
  - reflexivity.
  - simpl. lia.
Defined.

Lemma drop_duplicates_witness :
  Task1.drop_duplicates sample_stop_words sample_post_text sample_posts
  = Task1.drop_duplicates sample_stop_words sample_post_text
      (firstn 2 sample_posts ++ skipn 3 sample_posts).
Proof.
  apply (proj2 (proj2 (proj2 (proj2
           (@drop_duplicates_keeps_the_first_post_of_each_text
              sample_stop_words (option str) sample_post_text sample_posts))))
         (firstn 2 sample_posts)
         (Some (list_ascii_of_string "this is   the best PHONE #tech"))
         (skipn 3 sample_posts)).
  - reflexivity.
  - left. vm_compute. reflexivity.
Defined.

(** The sample frame: the third post repeats the first once cleaned, the
    second is too short and the last has eleven special characters. *)
Example sample_posts_report :
  map (Task1.post_text_cleaned sample_stop_words sample_post_text) sample_posts
  = [Some (list_ascii_of_string "best phone #tech");
     Some (list_ascii_of_string "wow");
     Some (list_ascii_of_string "best phone #tech");
     None;
     Some (list_ascii_of_string "big win click now free #ai2024")]
  /\ map (Task1.hashtags sample_post_text) sample_posts
     = map list_ascii_of_string ["#Tech"; ""; "#tech"; ""; "#AI_2024"]%string
  /\ Task1.duplicates_removed sample_stop_words sample_post_text sample_posts = 1
  /\ Task1.spam_count sample_stop_words sample_post_text sample_posts = 2
  /\ Task1.without_spam sample_stop_words sample_post_text sample_posts
     = [nth 0 sample_posts None; None].
Proof. repeat split; vm_compute; reflexivity. Qed.
